(** * NanoClaw core: message dispatch, agent invocation and cursor handling

    A shallow embedding of [NanoClawCore] (src/src/index.ts, the part that
    starts at "NanoClaw Core — Shared logic ..."): [loadState], [saveState],
    [processGroupMessages], [runAgent] and the body of [startMessageLoop].

    The object's fields and everything it talks to (the sqlite store of
    db.ts, the group queue, the outbound channel, timers, the logger) are
    kept in one explicit state; every call that leaves the object appends
    an event to a chronological trace.  A computation is a state
    transformer that either returns a value or throws, so that assignments
    made before an exception stay visible afterwards, as in JavaScript.

    What the model fixes:
    - calls into db.ts may throw, as scheduled by the world's fault list;
      the channel, the queue, the timers and the logger do not throw;
    - a log line keeps its level and message, not its structured fields;
    - strings are byte strings (UTF-8), timestamps compare as strings;
    - an object used as a map is the finite map of its own properties;
      [processGroupMessages] reads the registry as JavaScript reads a
      plain object, an own property first and a property of
      [Object.prototype] behind it; elsewhere chat ids and folders are
      taken not to name such a property;
    - one [processGroupMessages] call runs to its end before anything
      else touches the object: what the worker and the timers do while
      the call awaits is given by an [AgentRun], and ticks of the dispatch
      loop are not interleaved with it. *)

From stdpp Require Import gmap strings list.
From Stdlib Require Import String Ascii.

Local Open Scope string_scope.

(** ** JavaScript string primitives used by the core *)

Module JsString.

Definition chars (s : string) : list ascii := list_ascii_of_string s.
Definition text (l : list ascii) : string := string_of_list_ascii l.
Definition utf8 (codes : list nat) : list ascii := ascii_of_nat <$> codes.

Fixpoint is_prefix (p l : list ascii) : bool :=
  match p, l with
  | [], _ => true
  | a :: p', b :: l' => Ascii.eqb a b && is_prefix p' l'
  | _ :: _, [] => false
  end.

(** Index of the first occurrence of [pat] in [l]. *)
Fixpoint find_sub (pat l : list ascii) : option nat :=
  if is_prefix pat l then Some 0
  else match l with
       | [] => None
       | _ :: t => S <$> find_sub pat t
       end.

(** ECMAScript WhiteSpace and LineTerminator code points, UTF-8 encoded:
    TAB LF VT FF CR SP, U+00A0, U+1680, U+2000..U+200A, U+2028, U+2029,
    U+202F, U+205F, U+3000, U+FEFF. *)
Definition whitespace : list (list ascii) :=
  utf8 <$> [ [9]; [10]; [11]; [12]; [13]; [32]; [194; 160]; [225; 154; 128];
             [226; 128; 128]; [226; 128; 129]; [226; 128; 130];
             [226; 128; 131]; [226; 128; 132]; [226; 128; 133];
             [226; 128; 134]; [226; 128; 135]; [226; 128; 136];
             [226; 128; 137]; [226; 128; 138]; [226; 128; 168];
             [226; 128; 169]; [226; 128; 175]; [226; 129; 159];
             [227; 128; 128]; [239; 187; 191] ].

(** Width in bytes of the table entry that starts [l], 0 when none does. *)
Definition width_at (table : list (list ascii)) (l : list ascii) : nat :=
  match List.find (fun p => is_prefix p l) table with
  | Some p => List.length p
  | None => 0
  end.

(** Drops leading table entries; [skip] counts the bytes still to drop of
    the entry being consumed. *)
Fixpoint drop_leading (table : list (list ascii)) (skip : nat)
    (l : list ascii) : list ascii :=
  match l with
  | [] => []
  | _ :: t =>
      match skip with
      | S k => drop_leading table k t
      | O => match width_at table l with
             | S k => drop_leading table k t
             | O => l
             end
      end
  end.

(** [String.prototype.trim]. *)
Definition trim (s : string) : string :=
  let front := drop_leading whitespace 0 (chars s) in
  text (rev (drop_leading (map (@rev ascii) whitespace) 0 (rev front))).

Definition open_tag : list ascii := chars "<internal>".
Definition close_tag : list ascii := chars "</internal>".

(** Length of the match of [/<internal>[\s\S]*?<\/internal>/] anchored at
    the head of [l]: the lazy star stops at the first closing tag. *)
Definition match_internal (l : list ascii) : option nat :=
  if is_prefix open_tag l
  then k ← find_sub close_tag (drop (List.length open_tag) l);
       Some (List.length open_tag + k + List.length close_tag)
  else None.

(** [l.replace(/<internal>[\s\S]*?<\/internal>/g, '')]: scan left to
    right, cut each match out and resume right after it. *)
Fixpoint remove_internal (skip : nat) (l : list ascii) : list ascii :=
  match l with
  | [] => []
  | c :: t =>
      match skip with
      | S k => remove_internal k t
      | O => match match_internal l with
             | Some (S k) => remove_internal k t
             | _ => c :: remove_internal 0 t
             end
      end
  end.

(** [raw.replace(/<internal>[\s\S]*?<\/internal>/g, '').trim()]. *)
Definition strip_internal (raw : string) : string :=
  trim (text (remove_internal 0 (chars raw))).

(** JavaScript truthiness of a string. *)
Definition truthy (s : string) : bool :=
  match s with EmptyString => false | String _ _ => true end.

End JsString.

(** ** Data model (types.ts, container-runner.ts as used by the core) *)

Record RegisteredGroup := {
  name : string;
  folder : string;
  trigger : string;
  added_at : string;
  (** [requiresTrigger?: boolean]; [None] is an absent field. *)
  requiresTrigger : option bool
}.

Record NewMessage := {
  (** the field [id] *)
  msg_id : string;
  chat_jid : string;
  sender : string;
  sender_name : string;
  content : string;
  timestamp : string;
  is_from_me : bool;
  is_bot_message : bool
}.

Inductive Status := StatusSuccess | StatusError.

(** The [result] field of a streamed output: [null], a string, or any other
    value, kept as the text [JSON.stringify] gives for it. *)
Inductive ResultValue :=
| RNull
| RString (s : string)
| RObject (stringified : string).

Record ContainerOutput := {
  status : Status;
  result : ResultValue;
  newSessionId : option string;
  error : option string
}.

Inductive LogLevel := LDebug | LInfo | LWarn | LError.

(** Everything the core does to its collaborators, in the order it does it. *)
Inductive Event :=
| ELog (level : LogLevel) (msg : string)
| ESetRouterState (key value : string)
| ESetSession (groupFolder sessionId : string)
| EChannelSendMessage (jid text : string)
| EChannelSetTyping (jid : string) (isTyping : bool)
| EQueueSendMessage (jid text : string) (accepted : bool)
| EQueueEnqueueMessageCheck (jid : string)
| EQueueCloseStdin (jid : string)
| EQueueRegisterProcess (jid containerName groupFolder : string)
| ESetTimeout (handle : nat) (delay : N)
| EClearTimeout (handle : nat)
| EWriteTasksSnapshot (groupFolder : string) (isMain : bool)
| EWriteGroupsSnapshot (groupFolder : string) (isMain : bool)
| ERunContainerAgent (prompt : string) (sessionId : option string)
    (groupFolder chatJid : string) (isMain : bool)
| ESleep (delay : N).

#[global] Instance Status_eq_dec : EqDecision Status.
Proof. solve_decision. Defined.
#[global] Instance LogLevel_eq_dec : EqDecision LogLevel.
Proof. solve_decision. Defined.
#[global] Instance Event_eq_dec : EqDecision Event.
Proof. solve_decision. Defined.

(** The fields of [NanoClawCore]. *)
Record Core := {
  lastTimestamp : string;
  sessions : gmap string string;
  registeredGroups : gmap string RegisteredGroup;
  lastAgentTimestamp : gmap string string;
  messageLoopRunning : bool
}.

(** The closure variables of one [processGroupMessages] call; the output
    callback and the timer callback share them with the function body. *)
Record Locals := {
  idleTimer : option nat;
  hadError : bool;
  outputSentToUser : bool
}.

(** The callbacks handed to [setTimeout], one constructor per closure of
    the source. *)
Inductive TimerCallback :=
| CloseStdinOnIdle (chatJid : string).

(** What lies outside the object. *)
Record World := {
  (** db.ts: the router_state table, the messages table, sessions, groups *)
  router_state : gmap string string;
  db_messages : list NewMessage;
  db_sessions : gmap string string;
  db_groups : gmap string RegisteredGroup;
  (** group-queue.ts: the groups whose worker accepts piped input *)
  queue_active : gset string;
  (** timers: the next handle [setTimeout] returns, and the scheduled
      callbacks by handle *)
  next_timer : nat;
  pending_timers : gmap nat TimerCallback;
  (** fault schedule: one entry is consumed by each call into db.ts,
      [true] makes that call throw; an empty schedule never fails *)
  faults : list bool;
  trace : list Event
}.

Record State := {
  core : Core;
  locals : Locals;
  world : World
}.

Definition initialCore : Core :=
  {| lastTimestamp := ""; sessions := ∅; registeredGroups := ∅;
     lastAgentTimestamp := ∅; messageLoopRunning := false |}.

Definition initialLocals : Locals :=
  {| idleTimer := None; hadError := false; outputSentToUser := false |}.

(** *** Field updates *)

Definition set_lastTimestamp (v : string) (c : Core) : Core :=
  {| lastTimestamp := v; sessions := sessions c;
     registeredGroups := registeredGroups c;
     lastAgentTimestamp := lastAgentTimestamp c;
     messageLoopRunning := messageLoopRunning c |}.

Definition set_sessions (v : gmap string string) (c : Core) : Core :=
  {| lastTimestamp := lastTimestamp c; sessions := v;
     registeredGroups := registeredGroups c;
     lastAgentTimestamp := lastAgentTimestamp c;
     messageLoopRunning := messageLoopRunning c |}.

Definition set_registeredGroups (v : gmap string RegisteredGroup) (c : Core)
    : Core :=
  {| lastTimestamp := lastTimestamp c; sessions := sessions c;
     registeredGroups := v;
     lastAgentTimestamp := lastAgentTimestamp c;
     messageLoopRunning := messageLoopRunning c |}.

Definition set_lastAgentTimestamp (v : gmap string string) (c : Core) : Core :=
  {| lastTimestamp := lastTimestamp c; sessions := sessions c;
     registeredGroups := registeredGroups c;
     lastAgentTimestamp := v;
     messageLoopRunning := messageLoopRunning c |}.

Definition set_messageLoopRunning (v : bool) (c : Core) : Core :=
  {| lastTimestamp := lastTimestamp c; sessions := sessions c;
     registeredGroups := registeredGroups c;
     lastAgentTimestamp := lastAgentTimestamp c;
     messageLoopRunning := v |}.

Definition set_idleTimer (v : option nat) (l : Locals) : Locals :=
  {| idleTimer := v; hadError := hadError l;
     outputSentToUser := outputSentToUser l |}.

Definition set_hadError (v : bool) (l : Locals) : Locals :=
  {| idleTimer := idleTimer l; hadError := v;
     outputSentToUser := outputSentToUser l |}.

Definition set_outputSentToUser (v : bool) (l : Locals) : Locals :=
  {| idleTimer := idleTimer l; hadError := hadError l;
     outputSentToUser := v |}.

Definition set_router_state (v : gmap string string) (w : World) : World :=
  {| router_state := v; db_messages := db_messages w;
     db_sessions := db_sessions w; db_groups := db_groups w;
     queue_active := queue_active w; next_timer := next_timer w;
     pending_timers := pending_timers w; faults := faults w;
     trace := trace w |}.

Definition set_db_messages (v : list NewMessage) (w : World) : World :=
  {| router_state := router_state w; db_messages := v;
     db_sessions := db_sessions w; db_groups := db_groups w;
     queue_active := queue_active w; next_timer := next_timer w;
     pending_timers := pending_timers w; faults := faults w;
     trace := trace w |}.

Definition set_db_sessions (v : gmap string string) (w : World) : World :=
  {| router_state := router_state w; db_messages := db_messages w;
     db_sessions := v; db_groups := db_groups w;
     queue_active := queue_active w; next_timer := next_timer w;
     pending_timers := pending_timers w; faults := faults w;
     trace := trace w |}.

Definition set_queue_active (v : gset string) (w : World) : World :=
  {| router_state := router_state w; db_messages := db_messages w;
     db_sessions := db_sessions w; db_groups := db_groups w;
     queue_active := v; next_timer := next_timer w;
     pending_timers := pending_timers w; faults := faults w;
     trace := trace w |}.

Definition set_timers (next : nat) (pending : gmap nat TimerCallback)
    (w : World) : World :=
  {| router_state := router_state w; db_messages := db_messages w;
     db_sessions := db_sessions w; db_groups := db_groups w;
     queue_active := queue_active w; next_timer := next;
     pending_timers := pending; faults := faults w;
     trace := trace w |}.

Definition set_faults (v : list bool) (w : World) : World :=
  {| router_state := router_state w; db_messages := db_messages w;
     db_sessions := db_sessions w; db_groups := db_groups w;
     queue_active := queue_active w; next_timer := next_timer w;
     pending_timers := pending_timers w; faults := v;
     trace := trace w |}.

Definition set_trace (v : list Event) (w : World) : World :=
  {| router_state := router_state w; db_messages := db_messages w;
     db_sessions := db_sessions w; db_groups := db_groups w;
     queue_active := queue_active w; next_timer := next_timer w;
     pending_timers := pending_timers w; faults := faults w;
     trace := v |}.

Definition on_core (f : Core -> Core) (st : State) : State :=
  {| core := f (core st); locals := locals st; world := world st |}.

Definition on_locals (f : Locals -> Locals) (st : State) : State :=
  {| core := core st; locals := f (locals st); world := world st |}.

Definition on_world (f : World -> World) (st : State) : State :=
  {| core := core st; locals := locals st; world := f (world st) |}.

(** ** Computations: state, then a value or an exception *)

Inductive Outcome (A : Type) :=
| Returned (a : A)
| Thrown (err : string).
Arguments Returned {A} a.
Arguments Thrown {A} err.

Definition M (A : Type) : Type := State -> State * Outcome A.

Definition ret {A} (a : A) : M A := fun st => (st, Returned a).

Definition throw {A} (err : string) : M A := fun st => (st, Thrown err).

Definition bind {A B} (m : M A) (k : A -> M B) : M B :=
  fun st =>
    match m st with
    | (st', Returned a) => k a st'
    | (st', Thrown err) => (st', Thrown err)
    end.

(** [try { body } catch (err) { handler }]. *)
Definition try_catch {A} (body : M A) (handler : string -> M A) : M A :=
  fun st =>
    match body st with
    | (st', Returned a) => (st', Returned a)
    | (st', Thrown err) => handler err st'
    end.

Definition gets {A} (f : State -> A) : M A := fun st => (st, Returned (f st)).

Definition modify (f : State -> State) : M unit :=
  fun st => (f st, Returned tt).

Declare Scope js_scope.
Delimit Scope js_scope with js.
Notation "x <- m ;; k" := (bind m (fun x => k))
  (at level 100, m at next level, right associativity) : js_scope.
Notation "m ;; k" := (bind m (fun _ => k))
  (at level 100, right associativity) : js_scope.
Local Open Scope js_scope.

Definition emit (e : Event) : M unit :=
  modify (on_world (fun w => set_trace (trace w ++ [e])%list w)).

Definition log (level : LogLevel) (msg : string) : M unit :=
  emit (ELog level msg).

(** A call into db.ts: it consumes the next entry of the fault schedule and
    throws when that entry is set. *)
Definition external_call (what : string) : M unit :=
  fun st =>
    match faults (world st) with
    | [] => (st, Returned tt)
    | false :: rest => (on_world (set_faults rest) st, Returned tt)
    | true :: rest => (on_world (set_faults rest) st, Thrown what)
    end.

(** [for (const x of xs) body(x)]; an exception leaves the loop. *)
Fixpoint for_each {A} (xs : list A) (body : A -> M unit) : M unit :=
  match xs with
  | [] => ret tt
  | x :: rest => body x ;; for_each rest body
  end.

(** ** The collaborators whose code is not part of the sources

    config.ts (constants), router.ts ([formatMessages]), the SQL of db.ts
    and the built-in JSON functions are parameters of the development. *)

Class Env := {
  ASSISTANT_NAME : string;
  MAIN_GROUP_FOLDER : string;
  IDLE_TIMEOUT : N;
  POLL_INTERVAL : N;
  (** [TRIGGER_PATTERN.test]; the pattern carries no [g] or [y] flag, so
      that [test] depends on its argument only *)
  TRIGGER_PATTERN_test : string -> bool;
  formatMessages : list NewMessage -> string;
  (** [JSON.parse] at type [Record<string, string>]; [None] is a thrown
      [SyntaxError] *)
  JSON_parse : string -> option (gmap string string);
  JSON_stringify : gmap string string -> string;
  (** the query of [getMessagesSince(chatJid, sinceTimestamp, botPrefix)]
      over the messages table *)
  select_messages_since :
    list NewMessage -> string -> string -> string -> list NewMessage;
  (** the query of [getNewMessages(jids, lastTimestamp, botPrefix)]: the
      rows and [newTimestamp] *)
  select_new_messages :
    list NewMessage -> list string -> string -> string ->
    list NewMessage * string
}.

(** What the process runner and the event loop do while [runAgent] awaits:
    the runner reports the spawned process, the runner streams an output,
    or a timer comes due. *)
Inductive AgentStep :=
| StepSpawn (containerName : string)
| StepOutput (output : ContainerOutput)
| StepTimerFires (handle : nat).

(** One run of the worker: what happens while it runs, and how
    [runContainerAgent] settles ([None]: the promise rejects). *)
Record AgentRun := {
  steps : list AgentStep;
  final : option ContainerOutput
}.

Section Core.

Context `{Env}.

(** *** db.ts *)

Definition getRouterState (key : string) : M (option string) :=
  external_call "getRouterState" ;;
  gets (fun st => router_state (world st) !! key).

Definition setRouterState (key value : string) : M unit :=
  external_call "setRouterState" ;;
  modify (on_world (fun w =>
    set_router_state (<[key := value]> (router_state w)) w)) ;;
  emit (ESetRouterState key value).

Definition getAllSessions : M (gmap string string) :=
  external_call "getAllSessions" ;;
  gets (fun st => db_sessions (world st)).

Definition getAllRegisteredGroups : M (gmap string RegisteredGroup) :=
  external_call "getAllRegisteredGroups" ;;
  gets (fun st => db_groups (world st)).

Definition setSession (groupFolder sessionId : string) : M unit :=
  external_call "setSession" ;;
  modify (on_world (fun w =>
    set_db_sessions (<[groupFolder := sessionId]> (db_sessions w)) w)) ;;
  emit (ESetSession groupFolder sessionId).

Definition getMessagesSince (chatJid sinceTimestamp botPrefix : string)
    : M (list NewMessage) :=
  external_call "getMessagesSince" ;;
  gets (fun st =>
    select_messages_since (db_messages (world st))
      chatJid sinceTimestamp botPrefix).

Definition getNewMessages (jids : list string)
    (lastTimestamp botPrefix : string) : M (list NewMessage * string) :=
  external_call "getNewMessages" ;;
  gets (fun st =>
    select_new_messages (db_messages (world st))
      jids lastTimestamp botPrefix).

(** The task and chat tables only feed the snapshot files. *)
Definition getAllTasks : M unit := external_call "getAllTasks".
Definition getAllChats : M unit := external_call "getAllChats".

(** *** The outbound channel ([ChannelCallbacks]) *)

Definition channel_sendMessage (jid text : string) : M unit :=
  emit (EChannelSendMessage jid text).

Definition channel_setTyping (jid : string) (isTyping : bool) : M unit :=
  emit (EChannelSetTyping jid isTyping).

(** *** Timers *)

Definition setTimeout (callback : TimerCallback) (delay : N) : M nat :=
  handle <- gets (fun st => next_timer (world st)) ;;
  modify (on_world (fun w =>
    set_timers (S handle) (<[handle := callback]> (pending_timers w)) w)) ;;
  emit (ESetTimeout handle delay) ;;
  ret handle.

Definition clearTimeout (handle : nat) : M unit :=
  modify (on_world (fun w =>
    set_timers (next_timer w) (delete handle (pending_timers w)) w)) ;;
  emit (EClearTimeout handle).

(** *** group-queue.ts *)

(** Modelled from the spec: [GroupQueue.sendMessage]; group-queue.ts is not
    part of the sources.  It is [trySend] of section 4.1: when the group
    has an active invocation whose input stream is open the text is
    forwarded and the answer is true, otherwise the answer is false and
    nothing happens. *)
Definition queue_sendMessage (jid text : string) : M bool :=
  accepted <- gets (fun st => bool_decide (jid ∈ queue_active (world st))) ;;
  emit (EQueueSendMessage jid text accepted) ;;
  ret accepted.

(** Modelled from the spec: [GroupQueue.enqueueMessageCheck] records that
    the group has unconsumed messages. *)
Definition queue_enqueueMessageCheck (jid : string) : M unit :=
  emit (EQueueEnqueueMessageCheck jid).

(** Modelled from the spec: [GroupQueue.closeStdin] closes the input stream
    of the group's invocation and is idempotent. *)
Definition queue_closeStdin (jid : string) : M unit :=
  modify (on_world (fun w =>
    set_queue_active (queue_active w ∖ {[jid]}) w)) ;;
  emit (EQueueCloseStdin jid).

(** Modelled from the spec: [GroupQueue.registerProcess] installs the
    active invocation of the group. *)
Definition queue_registerProcess (jid containerName groupFolder : string)
    : M unit :=
  modify (on_world (fun w =>
    set_queue_active ({[jid]} ∪ queue_active w) w)) ;;
  emit (EQueueRegisterProcess jid containerName groupFolder).

(** A timer that comes due runs its callback once; a handle that was
    cleared, or already ran, does nothing. *)
Definition runTimerCallback (callback : TimerCallback) : M unit :=
  match callback with
  | CloseStdinOnIdle chatJid =>
      log LDebug "Idle timeout, closing container stdin" ;;
      queue_closeStdin chatJid
  end.

Definition fireTimer (handle : nat) : M unit :=
  scheduled <- gets (fun st => pending_timers (world st) !! handle) ;;
  match scheduled with
  | None => ret tt
  | Some callback =>
      modify (on_world (fun w =>
        set_timers (next_timer w) (delete handle (pending_timers w)) w)) ;;
      runTimerCallback callback
  end.

(** *** container-runner.ts *)

(** Modelled from the spec: the Process Runner; container-runner.ts is not
    part of the sources.  [runContainerAgent] spawns one worker, streams
    zero or more structured outputs to [onOutput] and settles with the
    final output or rejects.  The run is driven by [run]; timers that come
    due while the caller awaits are part of it.  A callback that throws
    makes the awaited promise reject. *)
Definition runContainerAgent (run : AgentRun) (prompt : string)
    (sessionId : option string) (groupFolder chatJid : string)
    (isMain : bool) (onProcess : string -> M unit)
    (onOutput : option (ContainerOutput -> M unit)) : M ContainerOutput :=
  emit (ERunContainerAgent prompt sessionId groupFolder chatJid isMain) ;;
  for_each (steps run) (fun step =>
    match step with
    | StepSpawn containerName => onProcess containerName
    | StepOutput output =>
        match onOutput with
        | Some callback => callback output
        | None => ret tt
        end
    | StepTimerFires handle => fireTimer handle
    end) ;;
  match final run with
  | Some output => ret output
  | None => throw "runContainerAgent rejected"
  end.

(** *** NanoClawCore *)

(** [x || ''] for a string that may be undefined. *)
Definition or_empty (x : option string) : string :=
  match x with
  | Some s => s
  | None => ""
  end.

(** [this.lastAgentTimestamp[chatJid] || '']. *)
Definition cursorOf (chatJid : string) (st : State) : string :=
  or_empty (lastAgentTimestamp (core st) !! chatJid).

(** The names every plain object inherits from [Object.prototype]. *)
Definition inheritedProperties : list string :=
  ["constructor"; "__proto__"; "hasOwnProperty"; "isPrototypeOf";
   "propertyIsEnumerable"; "toLocaleString"; "toString"; "valueOf";
   "__defineGetter__"; "__defineSetter__"; "__lookupGetter__";
   "__lookupSetter__"].

(** What the core reads from a value inherited from [Object.prototype]
    when it takes it for a group: [folder] and [requiresTrigger] are
    undefined; as a property key an undefined folder is the string
    "undefined". *)
Definition inheritedValue : RegisteredGroup :=
  {| name := ""; folder := "undefined"; trigger := ""; added_at := "";
     requiresTrigger := None |}.

(** [this.registeredGroups[chatJid]] as [processGroupMessages] reads it.
    The registry is a plain object (its initialiser is [{}]): under a name
    of [inheritedProperties] that is no own property, the lookup does not
    yield undefined but the inherited property, which is truthy.  The
    statements that follow the lookup then run on that value; what the
    store and the runner, which are not in the sources, do with what is
    read from it is modelled as for a group. *)
Definition groupOf (chatJid : string) (st : State)
    : option RegisteredGroup :=
  match registeredGroups (core st) !! chatJid with
  | Some group => Some group
  | None =>
      if bool_decide (chatJid ∈ inheritedProperties)
      then Some inheritedValue
      else None
  end.

(** Truthiness of an optional string such as [output.newSessionId]. *)
Definition truthy_opt (x : option string) : bool :=
  match x with
  | Some s => JsString.truthy s
  | None => false
  end.

Definition result_truthy (r : ResultValue) : bool :=
  match r with
  | RNull => false
  | RString s => JsString.truthy s
  | RObject _ => true
  end.

(** [typeof r === 'string' ? r : JSON.stringify(r)]. *)
Definition raw_text (r : ResultValue) : string :=
  match r with
  | RNull => "null"
  | RString s => s
  | RObject stringified => stringified
  end.

Definition set_cursor (chatJid value : string) : M unit :=
  modify (on_core (fun c =>
    set_lastAgentTimestamp (<[chatJid := value]> (lastAgentTimestamp c)) c)).

Definition loadState : M unit :=
  ts <- getRouterState "last_timestamp" ;;
  modify (on_core (set_lastTimestamp (or_empty ts))) ;;
  agentTs <- getRouterState "last_agent_timestamp" ;;
  try_catch
    (if truthy_opt agentTs
     then match JSON_parse (or_empty agentTs) with
          | Some parsed => modify (on_core (set_lastAgentTimestamp parsed))
          | None => throw "SyntaxError"
          end
     else modify (on_core (set_lastAgentTimestamp ∅)))
    (fun _ =>
       log LWarn "Corrupted last_agent_timestamp in DB, resetting" ;;
       modify (on_core (set_lastAgentTimestamp ∅))) ;;
  loaded <- getAllSessions ;;
  modify (on_core (set_sessions loaded)) ;;
  groups <- getAllRegisteredGroups ;;
  modify (on_core (set_registeredGroups groups)) ;;
  log LInfo "State loaded".

Definition saveState : M unit :=
  ts <- gets (fun st => lastTimestamp (core st)) ;;
  setRouterState "last_timestamp" ts ;;
  cursors <- gets (fun st => lastAgentTimestamp (core st)) ;;
  setRouterState "last_agent_timestamp" (JSON_stringify cursors).

(** [!isMainGroup && group.requiresTrigger !== false]. *)
Definition needsTrigger (group : RegisteredGroup) : bool :=
  negb (bool_decide (folder group = MAIN_GROUP_FOLDER)) &&
  negb (bool_decide (requiresTrigger group = Some false)).

(** [msgs.some((m) => TRIGGER_PATTERN.test(m.content.trim()))]. *)
Definition hasTrigger (msgs : list NewMessage) : bool :=
  existsb (fun m => TRIGGER_PATTERN_test (JsString.trim (content m))) msgs.

(** [msgs[msgs.length - 1].timestamp]; reading a field of [undefined]
    throws. *)
Definition lastTimestampOf (msgs : list NewMessage) : M string :=
  match last msgs with
  | Some m => ret (timestamp m)
  | None => throw "TypeError"
  end.

Definition resetIdleTimer (chatJid : string) : M unit :=
  timer <- gets (fun st => idleTimer (locals st)) ;;
  match timer with
  | Some handle => clearTimeout handle
  | None => ret tt
  end ;;
  handle <- setTimeout (CloseStdinOnIdle chatJid) IDLE_TIMEOUT ;;
  modify (on_locals (set_idleTimer (Some handle))).

(** The streaming callback [processGroupMessages] passes to [runAgent]. *)
Definition onOutput (chatJid : string) (output : ContainerOutput) : M unit :=
  (if result_truthy (result output)
   then
     let raw := raw_text (result output) in
     let text := JsString.strip_internal raw in
     log LInfo "Agent output" ;;
     (if JsString.truthy text
      then channel_sendMessage chatJid text ;;
           modify (on_locals (set_outputSentToUser true))
      else ret tt) ;;
     resetIdleTimer chatJid
   else ret tt) ;;
  match status output with
  | StatusError => modify (on_locals (set_hadError true))
  | StatusSuccess => ret tt
  end.

Definition storeNewSession (groupFolder : string) (output : ContainerOutput)
    : M unit :=
  if truthy_opt (newSessionId output)
  then
    let sessionId := or_empty (newSessionId output) in
    modify (on_core (fun c =>
      set_sessions (<[groupFolder := sessionId]> (sessions c)) c)) ;;
    setSession groupFolder sessionId
  else ret tt.

Definition runAgent (run : AgentRun) (group : RegisteredGroup)
    (prompt chatJid : string)
    (onOutput : option (ContainerOutput -> M unit)) : M Status :=
  let isMain := bool_decide (folder group = MAIN_GROUP_FOLDER) in
  sessionId <- gets (fun st => sessions (core st) !! folder group) ;;
  getAllTasks ;;
  emit (EWriteTasksSnapshot (folder group) isMain) ;;
  getAllChats ;;
  emit (EWriteGroupsSnapshot (folder group) isMain) ;;
  let wrappedOnOutput :=
    (fun callback output =>
       storeNewSession (folder group) output ;; callback output)
    <$> onOutput in
  try_catch
    (output <- runContainerAgent run prompt sessionId (folder group) chatJid
                 isMain
                 (fun containerName =>
                    queue_registerProcess chatJid containerName (folder group))
                 wrappedOnOutput ;;
     storeNewSession (folder group) output ;;
     match status output with
     | StatusError => log LError "Container agent error" ;; ret StatusError
     | StatusSuccess => ret StatusSuccess
     end)
    (fun _ => log LError "Agent error" ;; ret StatusError).

Definition processGroupMessages (run : AgentRun) (chatJid : string) : M bool :=
  registered <- gets (groupOf chatJid) ;;
  match registered with
  | None => ret true
  | Some group =>
      sinceTimestamp <- gets (cursorOf chatJid) ;;
      missedMessages <- getMessagesSince chatJid sinceTimestamp
                          ASSISTANT_NAME ;;
      if bool_decide (missedMessages = []) then ret true
      else if needsTrigger group && negb (hasTrigger missedMessages)
      then ret true
      else
        let prompt := formatMessages missedMessages in
        previousCursor <- gets (cursorOf chatJid) ;;
        newest <- lastTimestampOf missedMessages ;;
        set_cursor chatJid newest ;;
        saveState ;;
        log LInfo "Processing messages" ;;
        modify (on_locals (set_idleTimer None)) ;;
        channel_setTyping chatJid true ;;
        modify (on_locals (set_hadError false)) ;;
        modify (on_locals (set_outputSentToUser false)) ;;
        output <- runAgent run group prompt chatJid
                    (Some (onOutput chatJid)) ;;
        channel_setTyping chatJid false ;;
        timer <- gets (fun st => idleTimer (locals st)) ;;
        match timer with
        | Some handle => clearTimeout handle
        | None => ret tt
        end ;;
        failedEvent <- gets (fun st => hadError (locals st)) ;;
        if bool_decide (output = StatusError) || failedEvent
        then
          delivered <- gets (fun st => outputSentToUser (locals st)) ;;
          if delivered
          then
            log LWarn "Agent error after output was sent, skipping cursor rollback to prevent duplicates" ;;
            ret true
          else
            set_cursor chatJid previousCursor ;;
            saveState ;;
            log LWarn "Agent error, rolled back message cursor for retry" ;;
            ret false
        else ret true
  end.

(** *** The dispatch loop *)

(** [messagesByGroup]: a JavaScript [Map] keeps its keys in insertion order
    and [existing.push(msg)] appends to the group's array. *)
Fixpoint push_message (msg : NewMessage)
    (groups : list (string * list NewMessage))
    : list (string * list NewMessage) :=
  match groups with
  | [] => [(chat_jid msg, [msg])]
  | (jid, existing) :: rest =>
      if bool_decide (jid = chat_jid msg)
      then (jid, (existing ++ [msg])%list) :: rest
      else (jid, existing) :: push_message msg rest
  end.

Definition messagesByGroup (messages : list NewMessage)
    : list (string * list NewMessage) :=
  fold_left (fun groups msg => push_message msg groups) messages [].

(** The body of [for (const [chatJid, groupMessages] of messagesByGroup)]. *)
Definition dispatchGroup (entry : string * list NewMessage) : M unit :=
  let '(chatJid, groupMessages) := entry in
  registered <- gets (fun st => registeredGroups (core st) !! chatJid) ;;
  match registered with
  | None => ret tt
  | Some group =>
      if needsTrigger group && negb (hasTrigger groupMessages) then ret tt
      else
        since <- gets (cursorOf chatJid) ;;
        allPending <- getMessagesSince chatJid since ASSISTANT_NAME ;;
        let messagesToSend :=
          if bool_decide (allPending = []) then groupMessages
          else allPending in
        let formatted := formatMessages messagesToSend in
        accepted <- queue_sendMessage chatJid formatted ;;
        if accepted
        then
          log LDebug "Piped messages to active container" ;;
          newest <- lastTimestampOf messagesToSend ;;
          set_cursor chatJid newest ;;
          saveState ;;
          channel_setTyping chatJid true
        else queue_enqueueMessageCheck chatJid
  end.

(** The [try] block of one iteration of [while (true)]. *)
Definition tickBody : M unit :=
  jids <- gets (fun st => elements (dom (registeredGroups (core st)))) ;;
  since <- gets (fun st => lastTimestamp (core st)) ;;
  fetched <- getNewMessages jids since ASSISTANT_NAME ;;
  let '(messages, newTimestamp) := fetched in
  if bool_decide (messages = []) then ret tt
  else
    log LInfo "New messages" ;;
    modify (on_core (set_lastTimestamp newTimestamp)) ;;
    saveState ;;
    for_each (messagesByGroup messages) dispatchGroup.

(** One iteration: the guarded block, then the sleep. *)
Definition tick : M unit :=
  try_catch tickBody (fun _ => log LError "Error in message loop") ;;
  emit (ESleep POLL_INTERVAL).

(** [while (true)], one iteration per element of [arrivals]; an element is
    what the transport stored in the messages table since the previous
    iteration. *)
Fixpoint messageLoop (arrivals : list (list NewMessage)) : M unit :=
  match arrivals with
  | [] => ret tt
  | stored :: later =>
      modify (on_world (fun w =>
        set_db_messages (db_messages w ++ stored)%list w)) ;;
      tick ;;
      messageLoop later
  end.

Definition startMessageLoop (arrivals : list (list NewMessage)) : M unit :=
  running <- gets (fun st => messageLoopRunning (core st)) ;;
  if running
  then log LDebug "Message loop already running, skipping duplicate start"
  else
    modify (on_core (set_messageLoopRunning true)) ;;
    log LInfo "NanoClaw running" ;;
    messageLoop arrivals.

End Core.

(** ** Vocabulary of the statements *)

Definition is_sleep (e : Event) : bool :=
  match e with
  | ESleep _ => true
  | _ => false
  end.

(** Number of sleeps between iterations recorded in a trace. *)
Definition sleeps (evs : list Event) : nat :=
  List.length (List.filter is_sleep evs).

(** What [messagesByGroup] maintains while it reads [src]: one entry per
    chat, every chat of [src] has its entry, and an entry holds the
    messages of its chat in the order read. *)
Definition grouped (groups : list (string * list NewMessage))
    (src : list NewMessage) : Prop :=
  NoDup groups.*1 /\
  (forall m, m ∈ src -> chat_jid m ∈ groups.*1) /\
  (forall jid ms, (jid, ms) ∈ groups ->
     ms = filter (fun m => chat_jid m = jid) src).

Definition not_sleep (e : Event) : Prop := is_sleep e = false.

(** A relation between the state before and the state after that every
    run of [m] satisfies, however it ends. *)
Definition preserves {A} (R : relation State) (m : M A) : Prop :=
  forall st, R st (m st).1.

(** The value of [f] is the same before and after. *)
Definition same_on {A} (f : State -> A) : relation State :=
  fun st st' => f st' = f st.

(** The trace only grows, by events that satisfy [P]. *)
Definition emitting (P : Event -> Prop) : relation State :=
  fun st st' =>
    exists evs,
      trace (world st') = (trace (world st) ++ evs)%list /\ Forall P evs.

(** The call that starts a worker. *)
Definition is_worker_start (e : Event) : bool :=
  match e with
  | ERunContainerAgent _ _ _ _ _ => true
  | _ => false
  end.

(** Log lines and writes to the router_state table. *)
Definition bookkeeping (e : Event) : Prop :=
  match e with
  | ELog _ _ | ESetRouterState _ _ => True
  | _ => False
  end.

(** [e] is a call to the queue, the channel or the runner on behalf of the
    chat [chatJid]. *)
Definition acts_for (chatJid : string) (e : Event) : Prop :=
  match e with
  | EQueueSendMessage jid _ _ | EQueueEnqueueMessageCheck jid
  | EQueueCloseStdin jid | EQueueRegisterProcess jid _ _
  | EChannelSendMessage jid _ | EChannelSetTyping jid _
  | ERunContainerAgent _ _ _ jid _ => jid = chatJid
  | _ => False
  end.

Section Vocabulary.

Context `{Env}.

(** The backlog of a group: what [getMessagesSince] selects from the
    group's cursor on. *)
Definition backlog (chatJid : string) (st : State) : list NewMessage :=
  select_messages_since (db_messages (world st)) chatJid
    (cursorOf chatJid st) ASSISTANT_NAME.

(** The messages the dispatch loop formats for a group. *)
Definition messagesToSend (chatJid : string) (batch : list NewMessage)
    (st : State) : list NewMessage :=
  if bool_decide (backlog chatJid st = []) then batch
  else backlog chatJid st.

(** The group is registered and the trigger gate lets the batch through. *)
Definition passesTrigger (chatJid : string) (batch : list NewMessage)
    (st : State) : Prop :=
  exists group,
    registeredGroups (core st) !! chatJid = Some group /\
    needsTrigger group && negb (hasTrigger batch) = false.

(** The events one round of the dispatch loop may emit for the entry
    [(chatJid, batch)], judged from the state the round starts in. *)
Definition dispatch_event (chatJid : string) (batch : list NewMessage)
    (st : State) (e : Event) : Prop :=
  match e with
  | ELog _ _ | ESetRouterState _ _ => True
  | EQueueSendMessage jid text _ =>
      jid = chatJid /\
      text = formatMessages (messagesToSend chatJid batch st) /\
      passesTrigger chatJid batch st
  | EQueueEnqueueMessageCheck jid | EChannelSetTyping jid _ =>
      jid = chatJid /\ passesTrigger chatJid batch st
  | _ => False
  end.

(** The text of an output that reaches the user. *)
Definition visibleText (output : ContainerOutput) : string :=
  JsString.strip_internal (raw_text (result output)).

(** The output carries a result whose visible text is not empty. *)
Definition delivers (output : ContainerOutput) : bool :=
  result_truthy (result output) && JsString.truthy (visibleText output).

Definition step_delivers (step : AgentStep) : bool :=
  match step with
  | StepOutput output => delivers output
  | _ => false
  end.

Definition step_failed (step : AgentStep) : bool :=
  match step with
  | StepOutput output => bool_decide (status output = StatusError)
  | _ => false
  end.

(** Some output of the run was delivered to the user. *)
Definition run_delivered (run : AgentRun) : bool :=
  existsb step_delivers (steps run).

(** What [runAgent] answers for the run. *)
Definition agent_status (run : AgentRun) : Status :=
  match final run with
  | Some output => status output
  | None => StatusError
  end.

(** The run ends in failure: the agent run is an error, or a streamed
    output carried the error status. *)
Definition run_failed (run : AgentRun) : bool :=
  bool_decide (agent_status run = StatusError) ||
  existsb step_failed (steps run).

Definition is_channel_send (e : Event) : bool :=
  match e with
  | EChannelSendMessage _ _ => true
  | _ => false
  end.

(** The cursors, the registry and the persisted router state are what they
    were. *)
Definition cursors_kept : relation State :=
  fun st st' =>
    lastAgentTimestamp (core st') = lastAgentTimestamp (core st) /\
    lastTimestamp (core st') = lastTimestamp (core st) /\
    registeredGroups (core st') = registeredGroups (core st) /\
    router_state (world st') = router_state (world st) /\
    db_messages (world st') = db_messages (world st).

(** The effect of a stretch of an agent run on a reachable store: the
    events [evs] were emitted, a message went to the user iff [delivered],
    and the two flags of the invocation absorbed [delivered] and
    [failed]. *)
Definition run_effect (delivered failed : bool) (evs : list Event)
    : relation State :=
  fun st st' =>
    trace (world st') = (trace (world st) ++ evs)%list /\
    existsb is_channel_send evs = delivered /\
    faults (world st') = [] /\
    cursors_kept st st' /\
    hadError (locals st') = hadError (locals st) || failed /\
    outputSentToUser (locals st') = outputSentToUser (locals st) || delivered.

(** The events of a dispatching [processGroupMessages] up to and including
    the start of the worker. *)
Definition dispatch_prefix (chatJid : string) (group : RegisteredGroup)
    (newest : NewMessage) (st : State) : list Event :=
  [ESetRouterState "last_timestamp" (lastTimestamp (core st));
   ESetRouterState "last_agent_timestamp"
     (JSON_stringify
        (<[chatJid := timestamp newest]> (lastAgentTimestamp (core st))));
   ELog LInfo "Processing messages";
   EChannelSetTyping chatJid true;
   EWriteTasksSnapshot (folder group)
     (bool_decide (folder group = MAIN_GROUP_FOLDER));
   EWriteGroupsSnapshot (folder group)
     (bool_decide (folder group = MAIN_GROUP_FOLDER));
   ERunContainerAgent (formatMessages (backlog chatJid st))
     (sessions (core st) !! folder group) (folder group) chatJid
     (bool_decide (folder group = MAIN_GROUP_FOLDER))].

(** The rows [getNewMessages] returns in the state [st]. *)
Definition fetched (st : State) : list NewMessage :=
  (select_new_messages (db_messages (world st))
     (elements (dom (registeredGroups (core st))))
     (lastTimestamp (core st)) ASSISTANT_NAME).1.

(** The batch of a chat in one tick: its rows among the fetched ones. *)
Definition batchOf (chatJid : string) (st : State) : list NewMessage :=
  filter (fun m => chat_jid m = chatJid) (fetched st).

(** The events of one tick. *)
Definition tick_event (st : State) (e : Event) : Prop :=
  is_sleep e = true \/
  exists chatJid, dispatch_event chatJid (batchOf chatJid st) st e.

End Vocabulary.

(** ** A concrete environment for the examples *)

Module Demo.

(** Modelled from the spec: [formatMessages] of router.ts, which is not part
    of the sources; the spec only says that the prompt is built from the
    messages, here one line per message with its time, sender and text. *)
Definition format_messages (msgs : list NewMessage) : string :=
  String.concat ""
    (map (fun m =>
            "[" ++ timestamp m ++ "] " ++ sender_name m ++ ": " ++
            content m ++ ";")
         msgs).

Definition quote : string := String (ascii_of_nat 34) "".

(** [JSON.stringify] of a record of strings whose keys and values need no
    escaping. *)
Definition stringify (m : gmap string string) : string :=
  "{" ++
  String.concat ","
    (map (fun kv : string * string =>
            quote ++ kv.1 ++ quote ++ ":" ++ quote ++ kv.2 ++ quote)
         (map_to_list m)) ++
  "}".

(** A string literal without escapes: the characters up to the closing
    quote, and what follows it. *)
Fixpoint read_until_quote (l : list ascii)
    : option (list ascii * list ascii) :=
  match l with
  | [] => None
  | c :: t =>
      if Ascii.eqb c (ascii_of_nat 34) then Some ([], t)
      else if Ascii.eqb c (ascii_of_nat 92) then None
      else '(s, rest) ← read_until_quote t; Some (c :: s, rest)
  end.

Definition read_string (l : list ascii) : option (list ascii * list ascii) :=
  match l with
  | c :: t => if Ascii.eqb c (ascii_of_nat 34) then read_until_quote t else None
  | [] => None
  end.

Fixpoint read_members (fuel : nat) (l : list ascii)
    (acc : gmap string string) : option (gmap string string) :=
  match fuel with
  | O => None
  | S fuel' =>
      '(k, l1) ← read_string l;
      match l1 with
      | ":"%char :: l2 =>
          '(v, l3) ← read_string l2;
          let acc' := <[JsString.text k := JsString.text v]> acc in
          match l3 with
          | ["}"%char] => Some acc'
          | ","%char :: l4 => read_members fuel' l4 acc'
          | _ => None
          end
      | _ => None
      end
  end.

(** [JSON.parse] on the texts [stringify] writes; any other text is
    rejected, as every text that is not JSON is. *)
Definition parse (s : string) : option (gmap string string) :=
  match JsString.chars s with
  | ["{"%char; "}"%char] => Some ∅
  | "{"%char :: l => read_members (List.length l) l ∅
  | _ => None
  end.

(** [ORDER BY timestamp]: a stable insertion sort. *)
Fixpoint insert_by_time (m : NewMessage) (sorted : list NewMessage)
    : list NewMessage :=
  match sorted with
  | [] => [m]
  | x :: rest =>
      if String.ltb (timestamp x) (timestamp m)
      then x :: insert_by_time m rest
      else m :: x :: rest
  end.

Definition order_by_time (rows : list NewMessage) : list NewMessage :=
  foldr insert_by_time [] rows.

(** Modelled from the spec: [getMessagesSince] of db.ts, which is not part
    of the sources.  The backlog of a group is its messages with a
    timestamp greater than the cursor, in timestamp order. *)
Definition messages_since (table : list NewMessage)
    (chatJid sinceTimestamp botPrefix : string) : list NewMessage :=
  order_by_time
    (List.filter
       (fun m => bool_decide (chat_jid m = chatJid) &&
                 String.ltb sinceTimestamp (timestamp m))
       table).

(** Modelled from the spec: [getNewMessages] of db.ts, which is not part of
    the sources.  All messages of the registered groups newer than the
    global cursor, and the newest fetched timestamp. *)
Definition new_messages (table : list NewMessage) (jids : list string)
    (lastTimestamp botPrefix : string) : list NewMessage * string :=
  let rows :=
    order_by_time
      (List.filter
         (fun m => String.ltb lastTimestamp (timestamp m) &&
                   bool_decide (chat_jid m ∈ jids))
         table) in
  (rows,
   fold_left
     (fun newest m =>
        if String.ltb newest (timestamp m) then timestamp m else newest)
     rows lastTimestamp).

Definition env : Env := {|
  ASSISTANT_NAME := "Andy";
  MAIN_GROUP_FOLDER := "main";
  IDLE_TIMEOUT := 1800000;
  POLL_INTERVAL := 2000;
  TRIGGER_PATTERN_test := String.prefix "@Andy";
  formatMessages := format_messages;
  JSON_parse := parse;
  JSON_stringify := stringify;
  select_messages_since := messages_since;
  select_new_messages := new_messages
|}.

Definition mainGroup : RegisteredGroup :=
  {| name := "Main"; folder := "main"; trigger := "@Andy";
     added_at := "2024-01-01T00:00:00.000Z"; requiresTrigger := None |}.

Definition familyGroup : RegisteredGroup :=
  {| name := "Family"; folder := "family"; trigger := "@Andy";
     added_at := "2024-01-01T00:00:00.000Z"; requiresTrigger := None |}.

Definition message (jid time who what : string) : NewMessage :=
  {| msg_id := time; chat_jid := jid; sender := who; sender_name := who;
     content := what; timestamp := time; is_from_me := false;
     is_bot_message := false |}.

Definition emptyWorld : World :=
  {| router_state := ∅; db_messages := []; db_sessions := ∅; db_groups := ∅;
     queue_active := ∅; next_timer := 1; pending_timers := ∅; faults := [];
     trace := [] |}.

Definition start (c : Core) (w : World) : State :=
  {| core := c; locals := initialLocals; world := w |}.

Definition family : string := "family@g.us".

Definition asked : NewMessage :=
  message family "2024-01-01T10:00:00.000Z" "alice" "@Andy what is for dinner".

Definition added : NewMessage :=
  message family "2024-01-01T10:05:00.000Z" "bob" "and for dessert".

Definition chatter : NewMessage :=
  message family "2024-01-01T09:00:00.000Z" "bob" "good morning all".

Definition oneGroup : Core :=
  set_registeredGroups {[ family := familyGroup ]} initialCore.

(** The family group has two unprocessed messages, the first one with the
    trigger; nothing was fetched or handed to a worker so far. *)
Definition pending : State :=
  start oneGroup (set_db_messages [asked; added] emptyWorld).

(** As [pending], with a worker of the group accepting piped input. *)
Definition pendingActive : State :=
  start oneGroup
    (set_queue_active {[ family ]} (set_db_messages [asked; added] emptyWorld)).

(** Only small talk arrived. *)
Definition smallTalk : State :=
  start oneGroup (set_db_messages [chatter] emptyWorld).

(** A worker is running for the group and was already given the message
    [asked] (the group's cursor is at its timestamp), while the dispatch
    loop, whose global cursor is still empty, has not fetched it yet. *)
Definition cursorAhead : State :=
  start (set_lastAgentTimestamp {[ family := timestamp asked ]} oneGroup)
    (set_queue_active {[ family ]} (set_db_messages [asked] emptyWorld)).

(** As [pending], but the store accepts the read of the new messages and
    then rejects the first write. *)
Definition storeFailing : State :=
  start oneGroup
    (set_faults [false; true] (set_db_messages [asked; added] emptyWorld)).

(** Three messages without trigger in the main group. *)
Definition mainBacklog : State :=
  start (set_registeredGroups {[ "main@g.us" := mainGroup ]} initialCore)
    (set_db_messages
       [message "main@g.us" "2024-01-01T08:00:00.000Z" "carol" "one";
        message "main@g.us" "2024-01-01T08:01:00.000Z" "carol" "two";
        message "main@g.us" "2024-01-01T08:02:00.000Z" "carol" "three"]
       emptyWorld).

(** The store holds a cursor map that is not JSON. *)
Definition corruptedStore : State :=
  start initialCore
    (set_router_state
       (<["last_agent_timestamp" := "{oops"]>
          (<["last_timestamp" := "2024-01-01T09:00:00.000Z"]> ∅))
       emptyWorld).

Definition reply (s : Status) (r : ResultValue) (sid : option string)
    : ContainerOutput :=
  {| status := s; result := r; newSessionId := sid; error := None |}.

(** The worker answers, then fails. *)
Definition answeredThenFailed : AgentRun :=
  {| steps := [StepSpawn "nanoclaw-family-1";
               StepOutput (reply StatusSuccess (RString "Pasta.") (Some "s1"));
               StepOutput (reply StatusError RNull None)];
     final := Some (reply StatusError RNull None) |}.

(** The worker fails without having said anything. *)
Definition failedSilently : AgentRun :=
  {| steps := [StepSpawn "nanoclaw-family-1"];
     final := None |}.

(** The worker only thinks aloud, then fails. *)
Definition thoughtThenFailed : AgentRun :=
  {| steps := [StepSpawn "nanoclaw-family-1";
               StepOutput (reply StatusSuccess
                             (RString "<internal>check the fridge</internal> ")
                             None)];
     final := Some (reply StatusError RNull None) |}.

(** The worker answers, then reports a new session without a result, and
    completes. *)
Definition answeredThenSessionUpdate : AgentRun :=
  {| steps := [StepSpawn "nanoclaw-family-1";
               StepOutput (reply StatusSuccess (RString "Pasta.") None);
               StepOutput (reply StatusSuccess RNull (Some "s2"))];
     final := Some (reply StatusSuccess RNull (Some "s2")) |}.

Definition is_timer_event (e : Event) : bool :=
  match e with
  | ESetTimeout _ _ | EClearTimeout _ => true
  | _ => false
  end.

End Demo.

(** ** More of the core: registration, recovery and start-up *)

Definition set_db_groups (v : gmap string RegisteredGroup) (w : World)
    : World :=
  {| router_state := router_state w; db_messages := db_messages w;
     db_sessions := db_sessions w; db_groups := v;
     queue_active := queue_active w; next_timer := next_timer w;
     pending_timers := pending_timers w; faults := faults w;
     trace := trace w |}.

Section CoreMore.

Context `{Env}.

(** Modelled from the spec: [setRegisteredGroup] of db.ts, which is not
    part of the sources; it writes the row of the group, which
    [getAllRegisteredGroups] reads back. *)
Definition setRegisteredGroup (jid : string) (group : RegisteredGroup)
    : M unit :=
  external_call "setRegisteredGroup" ;;
  modify (on_world (fun w =>
    set_db_groups (<[jid := group]> (db_groups w)) w)).

(** [fs.mkdirSync(path.join(groupDir, 'logs'), { recursive: true })]: the
    directory tree is not part of the world; the call takes its turn in
    the fault schedule, since it can throw like a call into db.ts. *)
Definition mkdirSync (dir : string) : M unit :=
  external_call "mkdirSync".

Definition registerGroup (jid : string) (group : RegisteredGroup) : M unit :=
  modify (on_core (fun c =>
    set_registeredGroups (<[jid := group]> (registeredGroups c)) c)) ;;
  setRegisteredGroup jid group ;;
  mkdirSync (folder group) ;;
  log LInfo "Group registered".

(** [for (const [chatJid, group] of Object.entries(this.registeredGroups))];
    the groups are visited in the order of the map's listing, which need
    not be the insertion order of the JavaScript object. *)
Definition recoverPendingMessages : M unit :=
  entries <- gets (fun st => map_to_list (registeredGroups (core st))) ;;
  for_each entries (fun entry =>
    let '(chatJid, group) := (entry : string * RegisteredGroup) in
    sinceTimestamp <- gets (cursorOf chatJid) ;;
    pending <- getMessagesSince chatJid sinceTimestamp ASSISTANT_NAME ;;
    if bool_decide (pending = []) then ret tt
    else
      log LInfo "Recovery: found unprocessed messages" ;;
      queue_enqueueMessageCheck chatJid).

(** [main] of index.ts, the calls on the core: load, recover, run the
    loop.  The check for docker, the opening of the database, the WhatsApp
    channel, the scheduler and the IPC watcher are outside the model. *)
Definition main (arrivals : list (list NewMessage)) : M unit :=
  loadState ;;
  recoverPendingMessages ;;
  startMessageLoop arrivals.

(** *** Vocabulary of the further statements *)

(** The store holds [cursors] for a restart: it has no cursor text, or
    an empty one, and [cursors] is empty; or it has the text [saveState]
    writes for [cursors], which [JSON.parse] reads back. *)
Definition stores_cursors (cursors : gmap string string) (st : State)
    : Prop :=
  (truthy_opt (router_state (world st) !! "last_agent_timestamp") = false /\
   cursors = ∅) \/
  (router_state (world st) !! "last_agent_timestamp" =
     Some (JSON_stringify cursors) /\
   JsString.truthy (JSON_stringify cursors) = true /\
   JSON_parse (JSON_stringify cursors) = Some cursors).

(** The global cursor in memory is the persisted one. *)
Definition cursor_persisted (st : State) : Prop :=
  router_state (world st) !! "last_timestamp" =
    Some (lastTimestamp (core st)).

(** The session table after an output announced its session id. *)
Definition announce (groupFolder : string) (output : ContainerOutput)
    (table : gmap string string) : gmap string string :=
  if truthy_opt (newSessionId output)
  then <[groupFolder := or_empty (newSessionId output)]> table
  else table.

(** The session table after a whole run: every streamed output in turn,
    then the final output when the run settles with one. *)
Definition announced (groupFolder : string) (run : AgentRun)
    (table : gmap string string) : gmap string string :=
  let streamed :=
    foldl (fun t step =>
             match step with
             | StepOutput output => announce groupFolder output t
             | _ => t
             end) table (steps run) in
  match final run with
  | Some output => announce groupFolder output streamed
  | None => streamed
  end.

(** The persisted cursors are the ones in memory. *)
Definition synced (st : State) : Prop :=
  router_state (world st) !! "last_timestamp" =
    Some (lastTimestamp (core st)) /\
  router_state (world st) !! "last_agent_timestamp" =
    Some (JSON_stringify (lastAgentTimestamp (core st))).

(** Events the dispatch loop emits: log lines, store writes, queue calls,
    the typing signal and the sleep. *)
Definition loop_event (e : Event) : Prop :=
  match e with
  | ELog _ _ | ESetRouterState _ _ | EQueueSendMessage _ _ _
  | EQueueEnqueueMessageCheck _ | EChannelSetTyping _ true | ESleep _ => True
  | _ => False
  end.

(** The chats for which a trace asks the queue for a message check, in
    order. *)
Definition enqueued (evs : list Event) : list string :=
  omap (fun e => match e with
                 | EQueueEnqueueMessageCheck jid => Some jid
                 | _ => None
                 end) evs.

(** A predicate on states that holds after whenever it holds before. *)
Definition keeping (I : State -> Prop) : relation State :=
  fun st st' => I st -> I st'.

(** Every pending timer has its handle in [known], but for the one the
    running invocation holds in [idleTimer]. *)
Definition timers_within (known : gset nat) (st : State) : Prop :=
  forall handle,
    handle ∈ dom (pending_timers (world st)) ->
    handle ∈ known \/ idleTimer (locals st) = Some handle.

(** What one tick does for a chat whose batch passes the trigger gate:
    with an invocation accepting input, the text is piped and the chat's
    cursor moves to the newest message sent; without, the cursor stays
    and the queue is asked for a message check. *)
Definition piped_or_enqueued (chatJid : string) (batch : list NewMessage)
    (st st' : State) (evs : list Event) : Prop :=
  if bool_decide (chatJid ∈ queue_active (world st))
  then
    exists newest,
      last (messagesToSend chatJid batch st) = Some newest /\
      lastAgentTimestamp (core st') !! chatJid = Some (timestamp newest) /\
      EQueueSendMessage chatJid
        (formatMessages (messagesToSend chatJid batch st)) true ∈ evs
  else
    lastAgentTimestamp (core st') !! chatJid =
      lastAgentTimestamp (core st) !! chatJid /\
    EQueueEnqueueMessageCheck chatJid ∈ evs.

(** In [evs], every start of a worker is followed, later on, by the
    typing signal of the chat going off. *)
Definition typing_cleared_after_start (chatJid : string)
    (evs : list Event) : Prop :=
  forall before e after,
    evs = (before ++ e :: after)%list ->
    is_worker_start e = true ->
    EChannelSetTyping chatJid false ∈ after.

End CoreMore.

(** ** More JavaScript string primitives (cli.ts, channels/cli.ts and
    [getAvailableGroups]) *)

Module JsText.


Definition endsWith (s suffix : string) : bool :=
  JsString.is_prefix (rev (JsString.chars suffix)) (rev (JsString.chars s)).

(** [String.prototype.toLowerCase] on the letters A to Z.  No other
    character lowers to a letter of "exit" or "quit", so the comparisons
    of the channel's line handler are decided by this mapping. *)
Definition lower (c : ascii) : ascii :=
  let n := nat_of_ascii c in
  if (65 <=? n)%nat && (n <=? 90)%nat then ascii_of_nat (n + 32) else c.

Definition toLowerCase (s : string) : string :=
  JsString.text (map lower (JsString.chars s)).

(** *** [parseInt(text, 10)] *)

Definition digit (c : ascii) : option Z :=
  let n := nat_of_ascii c in
  if (48 <=? n)%nat && (n <=? 57)%nat then Some (Z.of_nat (n - 48)) else None.

Fixpoint digits (l : list ascii) : list Z :=
  match l with
  | [] => []
  | c :: t => match digit c with
              | Some d => d :: digits t
              | None => []
              end
  end.

(** [None] is NaN.  The value is the exact integer; JavaScript rounds it
    to a double, which moves it across no integer below 2^53, so the
    comparisons of [askChoice] with 1 and with a length come out the
    same. *)
Definition parseInt (text : string) : option Z :=
  let l := JsString.drop_leading JsString.whitespace 0 (JsString.chars text) in
  let '(sign, body) :=
    match l with
    | "-"%char :: t => ((-1)%Z, t)
    | "+"%char :: t => (1%Z, t)
    | _ => (1%Z, l)
    end in
  match digits body with
  | [] => None
  | ds => Some (sign * fold_left (fun acc d => 10 * acc + d) ds 0)%Z
  end.

End JsText.

(** ** [getAvailableGroups] *)

Record ChatInfo := {
  chat_info_jid : string;
  chat_info_name : string;
  last_message_time : string
}.

Record AvailableGroup := {
  available_jid : string;
  available_name : string;
  lastActivity : string;
  isRegistered : bool
}.

Section CoreChats.

Context `{Env}.

(** [chats] is what the chats table holds, which [getAllChats] returns;
    the table is not part of the world. *)
Definition getAvailableGroups (chats : list ChatInfo)
    : M (list AvailableGroup) :=
  getAllChats ;;
  registered <- gets (fun st => registeredGroups (core st)) ;;
  ret (map (fun c =>
              {| available_jid := chat_info_jid c;
                 available_name := chat_info_name c;
                 lastActivity := last_message_time c;
                 isRegistered :=
                   bool_decide (is_Some (registered !! chat_info_jid c)) |})
           (List.filter
              (fun c =>
                 negb (String.eqb (chat_info_jid c) "__group_sync__") &&
                 JsText.endsWith (chat_info_jid c) "@g.us")
              chats)).

End CoreChats.

(** ** The terminal channel (src/src/channels/cli.ts)

    [CLIChannel] keeps two flags and talks to the terminal.  What it
    writes is kept as a list of outputs, the calls of [opts.onMessage] as
    the list of messages handed over.  [process.exit] ends the process:
    nothing runs on a channel that has exited.  [stripInternalTags] comes
    from router.ts, which is not part of the sources; the channel is
    modelled for any such function. *)

Module CLIChannel.

Inductive Output :=
| Thinking
| ClearLine
| Reply (text : string)
| Prompt
| SessionEnded.

Record Channel := {
  jid : string;
  connected : bool;
  typingActive : bool;
  exited : bool;
  stdout : list Output;
  (** the arguments of the calls of [opts.onMessage] *)
  received : list NewMessage
}.

Definition create (jid : string) : Channel :=
  {| jid := jid; connected := false; typingActive := false; exited := false;
     stdout := []; received := [] |}.

Definition write (out : Output) (c : Channel) : Channel :=
  {| jid := jid c; connected := connected c; typingActive := typingActive c;
     exited := exited c; stdout := (stdout c ++ [out])%list;
     received := received c |}.

Definition set_connected (b : bool) (c : Channel) : Channel :=
  {| jid := jid c; connected := b; typingActive := typingActive c;
     exited := exited c; stdout := stdout c; received := received c |}.

Definition set_typingActive (b : bool) (c : Channel) : Channel :=
  {| jid := jid c; connected := connected c; typingActive := b;
     exited := exited c; stdout := stdout c; received := received c |}.

Definition exit (c : Channel) : Channel :=
  {| jid := jid c; connected := connected c; typingActive := typingActive c;
     exited := true; stdout := stdout c; received := received c |}.

Definition onMessage (msg : NewMessage) (c : Channel) : Channel :=
  {| jid := jid c; connected := connected c; typingActive := typingActive c;
     exited := exited c; stdout := stdout c;
     received := (received c ++ [msg])%list |}.

(** [disconnect]; closing the interface runs the handler of 'close'. *)
Definition disconnect (c : Channel) : Channel :=
  let c := set_connected false c in
  let c := if typingActive c then write ClearLine c else c in
  let c := set_connected false c in
  exit (write SessionEnded c).

(** The handler of 'line'; [id] and [timestamp] are the values the clock
    and the random generator give for the message. *)
Definition onLine (id timestamp line : string) (c : Channel) : Channel :=
  let text := JsString.trim line in
  if negb (JsString.truthy text) then write Prompt c
  else if String.eqb (JsText.toLowerCase text) "exit" ||
          String.eqb (JsText.toLowerCase text) "quit"
  then disconnect c
  else
    onMessage
      {| msg_id := id; chat_jid := jid c; sender := "user";
         sender_name := "You"; content := text; timestamp := timestamp;
         is_from_me := true; is_bot_message := false |} c.

Definition connect (c : Channel) : Channel :=
  write Prompt (set_connected true c).

Section Methods.

Variable stripInternalTags : string -> string.

Definition sendMessage (_jid rawText : string) (c : Channel) : Channel :=
  let text := stripInternalTags rawText in
  if negb (JsString.truthy text) then c
  else
    let c := if typingActive c
             then set_typingActive false (write ClearLine c)
             else c in
    write Prompt (write (Reply text) c).

Definition setTyping (_jid : string) (isTyping : bool) (c : Channel)
    : Channel :=
  if isTyping && negb (typingActive c)
  then set_typingActive true (write Thinking c)
  else if negb isTyping && typingActive c
  then set_typingActive false (write ClearLine c)
  else c.

Definition isConnected (c : Channel) : bool := connected c.

Definition ownsJid (c : Channel) (j : string) : bool := String.eqb j (jid c).

(** What happens to a connected channel: the user enters a line, or the
    core calls one of the two methods. *)
Inductive Call :=
| Line (id timestamp line : string)
| SendMessage (jid rawText : string)
| SetTyping (jid : string) (isTyping : bool).

Definition call (what : Call) (c : Channel) : Channel :=
  match what with
  | Line id timestamp line => onLine id timestamp line c
  | SendMessage j rawText => sendMessage j rawText c
  | SetTyping j isTyping => setTyping j isTyping c
  end.

Fixpoint run (calls : list Call) (c : Channel) : Channel :=
  match calls with
  | [] => c
  | what :: later => if exited c then c else run later (call what c)
  end.

(** A session of the channel: created, connected, then used. *)
Definition session (jid : string) (calls : list Call) : Channel :=
  run calls (connect (create jid)).

End Methods.

(** Reading the terminal from the left: is the indicator on the line? *)
Definition shows (indicator : bool) (out : Output) : bool :=
  match out with
  | Thinking => true
  | ClearLine => false
  | _ => indicator
  end.

(** The indicator is written on a line that does not show it, cleared
    from a line that shows it, and a reply is printed on a line that does
    not show it.  The answer is the state of the line at the end. *)
Fixpoint drawn (indicator : bool) (outs : list Output) : option bool :=
  match outs with
  | [] => Some indicator
  | out :: later =>
      let fits := match out with
                  | Thinking | Reply _ => negb indicator
                  | ClearLine => indicator
                  | Prompt | SessionEnded => true
                  end in
      if fits then drawn (shows indicator out) later else None
  end.

(** On a channel in use the line shows the indicator exactly when
    [typingActive] is set; one that has exited left a clean line. *)
Definition tidy (c : Channel) : Prop :=
  drawn false (stdout c) = Some (typingActive c && negb (exited c)).

(** What the channel hands over is a line of the user's. *)
Definition entered (owner : string) (msg : NewMessage) : Prop :=
  chat_jid msg = owner /\
  is_from_me msg = true /\
  is_bot_message msg = false /\
  JsString.truthy (content msg) = true /\
  JsString.trim (content msg) = content msg /\
  JsText.toLowerCase (content msg) <> "exit" /\
  JsText.toLowerCase (content msg) <> "quit".

Definition handing_over (owner : string) (c : Channel) : Prop :=
  jid c = owner /\ Forall (entered owner) (received c).

End CLIChannel.

(** ** The terminal client (src/src/cli.ts) *)

Module Cli.

Record CLISession := {
  session_jid : string;
  session_folder : string;
  session_name : string;
  session_added_at : string;
  lastMessage : option string
}.




(** [askChoice]: [answer] is what the user entered, [None] when the
    question was rejected; the result is the index chosen or -1. *)
Definition askChoice (answer : option string) (choices : list string) : Z :=
  match answer with
  | None => (-1)%Z
  | Some text =>
      match JsText.parseInt (JsString.trim text) with
      | Some n =>
          if (1 <=? n)%Z && (n <=? Z.of_nat (List.length choices))%Z
          then (n - 1)%Z
          else (-1)%Z
      | None => (-1)%Z
      end
  end.

(** How a command ends: the process exits with a status, a session is
    started, sessions are deleted, or an element that is not there is
    dereferenced. *)
Inductive Outcome :=
| Exit (status : nat)
| StartSession (jid folder : string)
| Delete (toDelete : list CLISession)
| TypeError.

Section Commands.

(** The text of a choice; it has no part in the selection. *)
Variable label : CLISession -> string.

(** [handleResume] on the sessions [getCLISessions] returned. *)
Definition handleResume (sessions : list CLISession)
    (answer : option string) : Outcome :=
  if bool_decide (sessions = []) then Exit 0
  else
    let idx := askChoice answer (map label sessions) in
    if (idx <? 0)%Z then Exit 1
    else match sessions !! Z.to_nat idx with
         | Some s => StartSession (session_jid s) (session_folder s)
         | None => TypeError
         end.

(** [handleClean] up to the deletions: what it sets out to delete. *)
Definition handleClean (sessions : list CLISession)
    (answer : option string) : Outcome :=
  if bool_decide (sessions = []) then Exit 0
  else
    let choices := (map label sessions ++ ["Delete all"])%list in
    let idx := askChoice answer choices in
    if (idx <? 0)%Z then Exit 1
    else if (idx =? Z.of_nat (List.length sessions))%Z then Delete sessions
    else match sessions !! Z.to_nat idx with
         | Some s => Delete [s]
         | None => TypeError
         end.

End Commands.

Section Session.

Context `{Env}.

(** The group [startSession] registers for a session that has none. *)
Definition cliGroup (folder now : string) : RegisteredGroup :=
  {| name := "CLI " ++ folder; folder := folder;
     trigger := "@" ++ ASSISTANT_NAME; added_at := now;
     requiresTrigger := Some false |}.


End Session.

End Cli.

(** ** Further states and inputs for the examples *)

Module Cases.

(** As [Demo.pending], but the store fails the read of the tasks, after
    the read of the backlog and the two writes of the cursors. *)
Definition snapshotFailing : State :=
  Demo.start Demo.oneGroup
    (set_faults [false; false; false; true]
       (set_db_messages [Demo.asked; Demo.added] Demo.emptyWorld)).

(** The family group is registered and nothing has arrived. *)
Definition quiet : State := Demo.start Demo.oneGroup Demo.emptyWorld.

(** A store nothing was ever written to. *)
Definition freshStore : State := Demo.start initialCore Demo.emptyWorld.

(** The worker answers and completes. *)
Definition answered : AgentRun :=
  {| steps := [StepSpawn "nanoclaw-family-1";
               StepOutput (Demo.reply StatusSuccess (RString "Pasta.")
                             (Some "s1"))];
     final := Some (Demo.reply StatusSuccess RNull (Some "s1")) |}.

Definition terminal : string := "cli-1704103200@local".

Definition hello : NewMessage :=
  {| msg_id := "cli-1704103200000-k3x9qz"; chat_jid := terminal;
     sender := "user"; sender_name := "You"; content := "hello there";
     timestamp := "2024-01-01T10:00:00.000Z"; is_from_me := true;
     is_bot_message := false |}.

(** The core signals typing, the user enters a line with spaces around
    it and then a blank one, the core replies, the user quits. *)
Definition typed : list CLIChannel.Call :=
  [CLIChannel.SetTyping terminal true;
   CLIChannel.Line "cli-1704103200000-k3x9qz" "2024-01-01T10:00:00.000Z"
     "  hello there  ";
   CLIChannel.Line "cli-1704103200500-a1b2c3" "2024-01-01T10:00:00.500Z"
     "   ";
   CLIChannel.SendMessage terminal "<internal>greet</internal>Hi!";
   CLIChannel.Line "cli-1704103201000-d4e5f6" "2024-01-01T10:00:01.000Z"
     " Quit"].

Definition chats : list ChatInfo :=
  [{| chat_info_jid := "__group_sync__"; chat_info_name := "";
      last_message_time := "2024-01-01T09:00:00.000Z" |};
   {| chat_info_jid := Demo.family; chat_info_name := "Family";
      last_message_time := "2024-01-01T10:05:00.000Z" |};
   {| chat_info_jid := "4915112345678@s.whatsapp.net";
      chat_info_name := "Alice";
      last_message_time := "2024-01-01T08:00:00.000Z" |};
   {| chat_info_jid := "book-club@g.us"; chat_info_name := "Book club";
      last_message_time := "2024-01-01T07:00:00.000Z" |}].

(** A process that starts on a store with the family group, its two
    messages, and the cursors saved after the first was handled. *)
Definition restart : State :=
  Demo.start initialCore
    (set_router_state
       {[ "last_agent_timestamp" :=
            Demo.stringify {[ Demo.family := timestamp Demo.asked ]} ]}
       (set_db_groups {[ Demo.family := Demo.familyGroup ]}
          (set_db_messages [Demo.asked; Demo.added] Demo.emptyWorld))).

(** A core that has registered nothing, on a store that fails the next
    call. *)
Definition storeDown : State :=
  Demo.start initialCore (set_faults [true] Demo.emptyWorld).

(** The terminal chat is registered with the client's group and one line
    was entered. *)
Definition terminalPending : State :=
  Demo.start
    (set_registeredGroups
       {[ terminal :=
            @Cli.cliGroup Demo.env "cli-1704103200"
              "2024-01-01T09:59:00.000Z" ]}
       initialCore)
    (set_db_messages [hello] Demo.emptyWorld).

End Cases.

(** * Properties *)

(** ** Running a computation step by step *)

Ltac unfold_ops :=
  unfold getRouterState, setRouterState, getAllSessions, getAllRegisteredGroups,
    setSession, getMessagesSince, getNewMessages, getAllTasks, getAllChats,
    channel_sendMessage, channel_setTyping, setTimeout, clearTimeout,
    queue_sendMessage, queue_enqueueMessageCheck, queue_closeStdin,
    queue_registerProcess, set_cursor, log, emit.

Ltac norm :=
  cbn [core locals world
       lastTimestamp sessions registeredGroups lastAgentTimestamp
       messageLoopRunning idleTimer hadError outputSentToUser
       router_state db_messages db_sessions db_groups queue_active
       next_timer pending_timers faults trace
       on_core on_locals on_world
       set_lastTimestamp set_sessions set_registeredGroups
       set_lastAgentTimestamp set_messageLoopRunning
       set_idleTimer set_hadError set_outputSentToUser
       set_router_state set_db_messages set_db_sessions set_queue_active
       set_timers set_faults set_trace fst snd].

Ltac norm_all :=
  cbn [core locals world
       lastTimestamp sessions registeredGroups lastAgentTimestamp
       messageLoopRunning idleTimer hadError outputSentToUser
       router_state db_messages db_sessions db_groups queue_active
       next_timer pending_timers faults trace
       on_core on_locals on_world
       set_lastTimestamp set_sessions set_registeredGroups
       set_lastAgentTimestamp set_messageLoopRunning
       set_idleTimer set_hadError set_outputSentToUser
       set_router_state set_db_messages set_db_sessions set_queue_active
       set_timers set_faults set_trace fst snd] in *.

Lemma bind_ret {A B} (a : A) (k : A -> M B) st : bind (ret a) k st = k a st.
Proof. reflexivity. Qed.

Lemma bind_gets {A B} (f : State -> A) (k : A -> M B) st :
  bind (gets f) k st = k (f st) st.
Proof. reflexivity. Qed.

Lemma bind_modify {B} (f : State -> State) (k : unit -> M B) st :
  bind (modify f) k st = k tt (f st).
Proof. reflexivity. Qed.

Lemma bind_throw {A B} err (k : A -> M B) st :
  bind (throw err) k st = (st, Thrown err).
Proof. reflexivity. Qed.

Lemma bind_bind {A B C} (m : M A) (k1 : A -> M B) (k2 : B -> M C) st :
  bind (bind m k1) k2 st = bind m (fun a => bind (k1 a) k2) st.
Proof. unfold bind. destruct (m st) as [st' [a|err]]; reflexivity. Qed.

Lemma bind_returned {A B} (m : M A) (k : A -> M B) st st' a :
  m st = (st', Returned a) -> bind m k st = k a st'.
Proof. intros E. unfold bind. rewrite E. reflexivity. Qed.

Lemma bind_thrown {A B} (m : M A) (k : A -> M B) st st' err :
  m st = (st', Thrown err) -> bind m k st = (st', Thrown err).
Proof. intros E. unfold bind. rewrite E. reflexivity. Qed.

Lemma bind_external {B} what (k : unit -> M B) st :
  faults (world st) = [] -> bind (external_call what) k st = k tt st.
Proof. intros E. unfold bind, external_call. rewrite E. reflexivity. Qed.

Lemma external_call_available what st :
  faults (world st) = [] -> external_call what st = (st, Returned tt).
Proof. intros E. unfold external_call. rewrite E. reflexivity. Qed.

Lemma bind_try_catch {A B} (body : M A) handler (k : A -> M B) st :
  bind (try_catch body handler) k st =
  match body st with
  | (st', Returned a) => k a st'
  | (st', Thrown err) => bind (handler err) k st'
  end.
Proof.
  unfold bind, try_catch. destruct (body st) as [st' [a|err]]; reflexivity.
Qed.

Lemma run_try_catch {A} (body : M A) handler st :
  try_catch body handler st =
  match body st with
  | (st', Returned a) => (st', Returned a)
  | (st', Thrown err) => handler err st'
  end.
Proof. reflexivity. Qed.

Lemma run_ret {A} (a : A) st : ret a st = (st, Returned a).
Proof. reflexivity. Qed.

Lemma run_gets {A} (f : State -> A) st : gets f st = (st, Returned (f st)).
Proof. reflexivity. Qed.

Lemma run_modify f st : modify f st = (f st, Returned tt).
Proof. reflexivity. Qed.

Lemma run_throw {A} err st : @throw A err st = (st, Thrown err).
Proof. reflexivity. Qed.

Ltac step :=
  first
    [ rewrite bind_bind
    | rewrite bind_ret
    | rewrite bind_gets
    | rewrite bind_modify
    | rewrite bind_throw
    | rewrite bind_try_catch
    | rewrite run_try_catch
    | rewrite bind_external by (norm; assumption)
    | rewrite external_call_available by (norm; assumption)
    | rewrite run_ret
    | rewrite run_gets
    | rewrite run_modify
    | rewrite run_throw ];
  cbv beta iota.

Ltac exec := unfold_ops; repeat step; norm.

(** ** Relations every step of a computation keeps *)

Section Preserves.

Context (R : relation State) `{!PreOrder R}.

Lemma preserves_ret {A} (a : A) : preserves R (ret a).
Proof. intros st. reflexivity. Qed.

Lemma preserves_throw {A} err : preserves R (@throw A err).
Proof. intros st. reflexivity. Qed.

Lemma preserves_gets {A} (f : State -> A) : preserves R (gets f).
Proof. intros st. reflexivity. Qed.

Lemma preserves_modify f : (forall st, R st (f st)) -> preserves R (modify f).
Proof. intros Hf st. apply Hf. Qed.

Lemma preserves_bind {A B} (m : M A) (k : A -> M B) :
  preserves R m -> (forall a, preserves R (k a)) -> preserves R (bind m k).
Proof.
  intros Hm Hk st. unfold bind. specialize (Hm st).
  destruct (m st) as [st' [a|err]]; simpl in *; [|assumption].
  transitivity st'; [assumption | apply Hk].
Qed.

Lemma preserves_try_catch {A} (body : M A) handler :
  preserves R body -> (forall err, preserves R (handler err)) ->
  preserves R (try_catch body handler).
Proof.
  intros Hb Hh st. unfold try_catch. specialize (Hb st).
  destruct (body st) as [st' [a|err]]; simpl in *; [assumption|].
  transitivity st'; [assumption | apply Hh].
Qed.

Lemma preserves_for_each {A} (xs : list A) body :
  (forall x, preserves R (body x)) -> preserves R (for_each xs body).
Proof.
  intros Hb. induction xs as [|x xs IH]; simpl.
  - apply preserves_ret.
  - apply preserves_bind; [apply Hb | intros _; exact IH].
Qed.

Lemma preserves_external what :
  (forall st rest, R st (on_world (set_faults rest) st)) ->
  preserves R (external_call what).
Proof.
  intros Hf st. unfold external_call.
  destruct (faults (world st)) as [|[] rest]; simpl; [reflexivity | apply Hf ..].
Qed.

End Preserves.

#[global] Instance same_on_preorder {A} (f : State -> A) : PreOrder (same_on f).
Proof.
  split.
  - intros st. reflexivity.
  - intros a b c Hab Hbc. unfold same_on in *. congruence.
Qed.

#[global] Instance emitting_preorder P : PreOrder (emitting P).
Proof.
  split.
  - intros st. exists []. split; [symmetry; apply app_nil_r | constructor].
  - intros a b c (e1 & H1 & F1) (e2 & H2 & F2). exists (e1 ++ e2)%list. split.
    + rewrite H2, H1. symmetry. apply app_assoc.
    + apply Forall_app. split; assumption.
Qed.

Lemma emitting_silent P st st' :
  trace (world st') = trace (world st) -> emitting P st st'.
Proof.
  intros E. exists []. split; [rewrite E; symmetry; apply app_nil_r | constructor].
Qed.

Lemma emitting_one P e st :
  P e -> emitting P st (on_world (fun w => set_trace (trace w ++ [e])%list w) st).
Proof. intros He. exists [e]. split; [reflexivity | repeat constructor; exact He]. Qed.

(** Decomposes a computation along its syntax; [leaf] closes what remains
    to show of a single state update. *)
Ltac frame_with leaf :=
  repeat first
    [ apply preserves_ret; try typeclasses eauto
    | apply preserves_throw; try typeclasses eauto
    | apply preserves_gets; try typeclasses eauto
    | apply preserves_bind; [ try typeclasses eauto | | intros ? ]
    | apply preserves_try_catch; [ try typeclasses eauto | | intros ? ]
    | apply preserves_for_each; [ try typeclasses eauto | intros ? ]
    | apply preserves_external; [ try typeclasses eauto | intros ? ?; leaf ]
    | apply preserves_modify; intros ?; leaf
    | match goal with
      | |- preserves _ (match ?x with _ => _ end) => destruct x
      end ].


Lemma bind_external_passes {B} what (k : unit -> M B) st rest :
  faults (world st) = false :: rest ->
  bind (external_call what) k st = k tt (on_world (set_faults rest) st).
Proof. intros E. unfold bind, external_call. rewrite E. reflexivity. Qed.

Lemma bind_external_fails {B} what (k : unit -> M B) st rest :
  faults (world st) = true :: rest ->
  bind (external_call what) k st =
  (on_world (set_faults rest) st, Thrown what).
Proof. intros E. unfold bind, external_call. rewrite E. reflexivity. Qed.

Lemma groupOf_registered chatJid group st :
  registeredGroups (core st) !! chatJid = Some group ->
  groupOf chatJid st = Some group.
Proof. intros E. unfold groupOf. rewrite E. reflexivity. Qed.

Section StartupAndLoop.

Context `{Env}.

(** *** Start-up *)

(** C7. With the store reachable, [loadState] always returns, with the
    global cursor, the sessions and the groups read from the store; when the
    stored agent-timestamp text is not JSON the per-group cursors are reset
    to the empty map and the warning is logged. *)
Theorem loadState_survives_corrupted_cursors st :
  faults (world st) = [] ->
  exists st',
    loadState st = (st', Returned tt) /\
    lastTimestamp (core st') =
      or_empty (router_state (world st) !! "last_timestamp") /\
    sessions (core st') = db_sessions (world st) /\
    registeredGroups (core st') = db_groups (world st) /\
    (forall stored,
       router_state (world st) !! "last_agent_timestamp" = Some stored ->
       JsString.truthy stored = true ->
       JSON_parse stored = None ->
       lastAgentTimestamp (core st') = ∅ /\
       trace (world st') =
         (trace (world st) ++
          [ELog LWarn "Corrupted last_agent_timestamp in DB, resetting";
           ELog LInfo "State loaded"])%list).
Proof.
  intros Hf. unfold loadState, or_empty, truthy_opt. exec.
  destruct (router_state (world st) !! "last_agent_timestamp")
    as [stored|] eqn:Es; cbv beta iota.
  - destruct (JsString.truthy stored) eqn:Et;
      [destruct (JSON_parse stored) as [parsed|] eqn:Ep|];
      exec; (eexists; split; [reflexivity|]); norm;
      (do 3 (split; [reflexivity|])); intros ? [= <-] Ht Hp;
      try congruence.
    split; [reflexivity|]. rewrite <- app_assoc. reflexivity.
  - exec. eexists. split; [reflexivity|]. norm.
    do 3 (split; [reflexivity|]). intros ? [=].
Qed.

(** *** A chat without a registered group *)

(** C10, where the code keeps it and where it does not.  For a chat id
    without a registered group that names no property an object inherits,
    [processGroupMessages] answers true and the whole state, trace
    included, is left as it was.  Under a name every object inherits the
    lookup in the registry is truthy: the early return is skipped, the
    store is asked for the backlog, and when the store throws the call
    ends by that exception. *)
Theorem processGroupMessages_unregistered run chatJid st :
  registeredGroups (core st) !! chatJid = None ->
  (chatJid ∉ inheritedProperties ->
   processGroupMessages run chatJid st = (st, Returned true)) /\
  (chatJid ∈ inheritedProperties ->
   forall rest,
     faults (world st) = true :: rest ->
     processGroupMessages run chatJid st =
       (on_world (set_faults rest) st, Thrown "getMessagesSince")).
Proof.
  intros E. unfold processGroupMessages. rewrite bind_gets.
  unfold groupOf. rewrite E. split.
  - intros Hplain. rewrite bool_decide_eq_false_2 by exact Hplain.
    reflexivity.
  - intros Hinherited rest Hf.
    rewrite bool_decide_eq_true_2 by exact Hinherited.
    unfold_ops. repeat step.
    rewrite bind_external_fails with (rest := rest) by exact Hf.
    reflexivity.
Qed.

(** *** The dispatch loop *)

Lemma tickBody_no_sleep : preserves (emitting not_sleep) tickBody.
Proof.
  unfold tickBody, dispatchGroup, saveState, lastTimestampOf. unfold_ops.
  frame_with ltac:(first [ apply emitting_silent; reflexivity
                         | apply emitting_one; reflexivity ]).
Qed.

Lemma sleeps_app l1 l2 : sleeps (l1 ++ l2) = sleeps l1 + sleeps l2.
Proof. unfold sleeps. rewrite List.filter_app, length_app. reflexivity. Qed.

Lemma sleeps_none evs : Forall not_sleep evs -> sleeps evs = 0.
Proof.
  unfold sleeps. induction 1 as [|e evs He _ IH]; simpl; [reflexivity|].
  rewrite He. exact IH.
Qed.

Lemma tick_returns st :
  exists st',
    tick st = (st', Returned tt) /\
    sleeps (trace (world st')) = S (sleeps (trace (world st))) /\
    (forall st1 err,
       tickBody st = (st1, Thrown err) ->
       core st' = core st1 /\
       trace (world st') =
         (trace (world st1) ++
          [ELog LError "Error in message loop"; ESleep POLL_INTERVAL])%list).
Proof.
  unfold tick.
  pose proof (tickBody_no_sleep st) as (evs & Htr & Hns).
  rewrite bind_try_catch.
  destruct (tickBody st) as [st1 [[]|err]] eqn:Eb; simpl in Htr.
  - exec. eexists. split; [reflexivity|]. norm. split.
    + rewrite Htr, !sleeps_app, (sleeps_none evs Hns). unfold sleeps. simpl. lia.
    + intros ? ? [=].
  - exec. eexists. split; [reflexivity|]. norm. split.
    + rewrite Htr, !sleeps_app, (sleeps_none evs Hns). unfold sleeps. simpl. lia.
    + intros ? ? [= <- _]. split; [reflexivity|].
      rewrite <- app_assoc. reflexivity.
Qed.

(** C8. Whatever the fault schedule, every iteration of the loop returns:
    an exception of the guarded block is logged and followed by the sleep,
    a run over any number of iterations completes all of them, one sleep
    each, and so [startMessageLoop] never ends by an exception. *)
Theorem messageLoop_survives_tick_errors :
  (forall st, exists st',
     tick st = (st', Returned tt) /\
     (forall st1 err,
        tickBody st = (st1, Thrown err) ->
        core st' = core st1 /\
        trace (world st') =
          (trace (world st1) ++
           [ELog LError "Error in message loop"; ESleep POLL_INTERVAL])%list)) /\
  (forall arrivals st, exists st',
     messageLoop arrivals st = (st', Returned tt) /\
     sleeps (trace (world st')) =
       sleeps (trace (world st)) + List.length arrivals) /\
  (forall arrivals st, exists st',
     startMessageLoop arrivals st = (st', Returned tt)).
Proof.
  assert (Hloop : forall arrivals st, exists st',
             messageLoop arrivals st = (st', Returned tt) /\
             sleeps (trace (world st')) =
               sleeps (trace (world st)) + List.length arrivals).
  { induction arrivals as [|stored later IH]; intros st; simpl.
    - eexists. split; [reflexivity|]. lia.
    - rewrite bind_modify.
      match goal with |- context [ bind tick _ ?s ] => set (st0 := s) end.
      destruct (tick_returns st0) as (st1 & Ht & Hs & _).
      rewrite (bind_returned _ _ _ _ _ Ht).
      destruct (IH st1) as (st2 & Hl & Hs2).
      exists st2. split; [exact Hl|]. rewrite Hs2, Hs. subst st0. norm. lia. }
  split; [|split].
  - intros st. destruct (tick_returns st) as (st' & Ht & _ & Hc). eauto.
  - exact Hloop.
  - intros arrivals st. unfold startMessageLoop. rewrite bind_gets.
    destruct (messageLoopRunning (core st)).
    + exec. eexists. reflexivity.
    + exec.
      match goal with |- context [ messageLoop arrivals ?s ] => set (st0 := s) end.
      destruct (Hloop arrivals st0) as (st' & Hl & _). eauto.
Qed.

(** The first store write of a tick throws, after messages were fetched:
    the tick ends there with nothing persisted and no group looked at,
    and the global cursor in memory already holds the newest fetched
    timestamp. *)
Lemma tick_first_write_fails st messages newTimestamp rest :
  faults (world st) = false :: true :: rest ->
  select_new_messages (db_messages (world st))
    (elements (dom (registeredGroups (core st))))
    (lastTimestamp (core st)) ASSISTANT_NAME = (messages, newTimestamp) ->
  messages <> [] ->
  exists st',
    tick st = (st', Returned tt) /\
    lastTimestamp (core st') = newTimestamp /\
    router_state (world st') = router_state (world st) /\
    lastAgentTimestamp (core st') = lastAgentTimestamp (core st) /\
    trace (world st') =
      (trace (world st) ++
       [ELog LInfo "New messages"; ELog LError "Error in message loop";
        ESleep POLL_INTERVAL])%list.
Proof.
  intros Hf Hq Hne. unfold tick, tickBody, saveState. unfold_ops.
  repeat step.
  rewrite (bind_external_passes _ _ _ _ Hf). repeat step. norm.
  rewrite Hq. rewrite bool_decide_eq_false_2 by exact Hne.
  repeat step.
  rewrite bind_external_fails with (rest := rest) by reflexivity.
  repeat step.
  eexists. split; [reflexivity|]. norm. repeat split.
  rewrite <- !app_assoc. reflexivity.
Qed.

End StartupAndLoop.

(** ** Grouping the fetched messages *)

Section Grouping.

Implicit Types (groups : list (string * list NewMessage)).
Implicit Types (src : list NewMessage) (msg : NewMessage).

Lemma push_message_keys msg groups jid :
  jid ∈ (push_message msg groups).*1 <->
  jid = chat_jid msg \/ jid ∈ groups.*1.
Proof.
  induction groups as [|[j ms] rest IH]; simpl.
  - rewrite elem_of_cons. reflexivity.
  - case_bool_decide as E; simpl; rewrite !elem_of_cons.
    + subst j. tauto.
    + rewrite IH. tauto.
Qed.

Lemma push_message_nodup msg groups :
  NoDup groups.*1 -> NoDup (push_message msg groups).*1.
Proof.
  induction groups as [|[j ms] rest IH]; simpl; intros Hnd.
  - apply NoDup_singleton.
  - apply NoDup_cons in Hnd as [Hj Hrest].
    case_bool_decide as E; simpl; apply NoDup_cons.
    + split; assumption.
    + split; [|apply IH; assumption].
      rewrite push_message_keys. intros [->|Hin]; [congruence|contradiction].
Qed.

Lemma push_message_entry msg groups jid ms :
  NoDup groups.*1 ->
  (jid, ms) ∈ push_message msg groups ->
  (jid = chat_jid msg /\
   ((exists old, (jid, old) ∈ groups /\ ms = (old ++ [msg])%list) \/
    ((jid ∉ groups.*1) /\ ms = [msg]))) \/
  (jid <> chat_jid msg /\ (jid, ms) ∈ groups).
Proof.
  induction groups as [|[j old] rest IH]; simpl; intros Hnd Hin.
  - apply list_elem_of_singleton in Hin as [= -> ->]. left. split; [reflexivity|].
    right. split; [apply not_elem_of_nil | reflexivity].
  - apply NoDup_cons in Hnd as [Hj Hrest].
    case_bool_decide as E; apply elem_of_cons in Hin as [[= -> ->]|Hin].
    + left. split; [assumption|]. left. exists old. split; [left|reflexivity].
    + destruct (decide (jid = chat_jid msg)) as [->|Hne].
      * exfalso. apply Hj. rewrite E. apply list_elem_of_fmap.
        exists (chat_jid msg, ms). split; [reflexivity | assumption].
      * right. split; [assumption | right; assumption].
    + right. split; [assumption | left].
    + destruct (IH Hrest Hin) as [[-> [(o & Ho & ->)|[Hnot ->]]]|[Hne Hold]].
      * left. split; [reflexivity|]. left. exists o. split; [right; assumption | reflexivity].
      * left. split; [reflexivity|]. right. split; [|reflexivity].
        rewrite elem_of_cons. simpl. intros [Heq|Hin']; [congruence | contradiction].
      * right. split; [assumption | right; assumption].
Qed.

Lemma grouped_push msg groups src :
  grouped groups src -> grouped (push_message msg groups) (src ++ [msg]).
Proof.
  intros (Hnd & Hcov & Hent). split; [|split].
  - apply push_message_nodup. exact Hnd.
  - intros m Hm. rewrite push_message_keys.
    apply elem_of_app in Hm as [Hm|Hm].
    + right. apply Hcov. exact Hm.
    + apply list_elem_of_singleton in Hm as ->. left. reflexivity.
  - intros jid ms Hin. rewrite filter_app.
    destruct (push_message_entry _ _ _ _ Hnd Hin)
      as [[-> [(o & Ho & ->)|[Hnot ->]]]|[Hne Hold]].
    + rewrite (Hent _ _ Ho). rewrite filter_cons_True by reflexivity. reflexivity.
    + rewrite filter_cons_True by reflexivity.
      replace (filter (fun m => chat_jid m = chat_jid msg) src) with (@nil NewMessage);
        [reflexivity|].
      destruct (filter (fun m => chat_jid m = chat_jid msg) src)
        as [|m rest] eqn:Ef; [reflexivity|].
      assert (Hm : m ∈ filter (fun m => chat_jid m = chat_jid msg) src)
        by (rewrite Ef; left).
      apply list_elem_of_filter in Hm as [Hkey Hm].
      exfalso. apply Hnot. rewrite <- Hkey. apply Hcov. exact Hm.
    + rewrite (Hent _ _ Hold). rewrite filter_cons_False by congruence.
      rewrite filter_nil, app_nil_r. reflexivity.
Qed.

Lemma messagesByGroup_grouped src : grouped (messagesByGroup src) src.
Proof.
  unfold messagesByGroup.
  assert (Hgen : forall msgs groups seen,
             grouped groups seen ->
             grouped (fold_left (fun groups msg => push_message msg groups)
                        msgs groups) (seen ++ msgs)).
  { induction msgs as [|msg msgs IH]; intros groups seen Hg; simpl.
    - rewrite app_nil_r. exact Hg.
    - replace (seen ++ msg :: msgs)%list with ((seen ++ [msg]) ++ msgs)%list
        by (rewrite <- app_assoc; reflexivity).
      apply IH. apply grouped_push. exact Hg. }
  apply (Hgen src [] []). split; [|split].
  - constructor.
  - intros m Hm. apply elem_of_nil in Hm. contradiction.
  - intros jid ms Hin. apply elem_of_nil in Hin. contradiction.
Qed.

End Grouping.

(** ** One round of the dispatch loop *)

Lemma external_call_inv what st st' r :
  external_call what st = (st', r) ->
  exists rest, st' = on_world (set_faults rest) st.
Proof.
  unfold external_call. destruct st as [c l [rs ms ss gs qa nt pt fs tr]].
  simpl. destruct fs as [|[] rest]; intros [= <- _]; eexists; reflexivity.
Qed.

Lemma preserves_run {A} (R : relation State) (m : M A) st st' r :
  preserves R m -> m st = (st', r) -> R st st'.
Proof. intros Hp E. specialize (Hp st). rewrite E in Hp. exact Hp. Qed.

Ltac leaf_same :=
  unfold same_on; norm;
  first [ reflexivity | rewrite lookup_insert_ne by congruence; reflexivity ].

Section Dispatch.

Context `{Env}.

Lemma dispatchGroup_spec chatJid batch st st' r :
  dispatchGroup (chatJid, batch) st = (st', r) ->
  registeredGroups (core st') = registeredGroups (core st) /\
  db_messages (world st') = db_messages (world st) /\
  (forall jid, jid <> chatJid ->
     lastAgentTimestamp (core st') !! jid =
     lastAgentTimestamp (core st) !! jid) /\
  (~ passesTrigger chatJid batch st -> st' = st) /\
  emitting (dispatch_event chatJid batch st) st st'.
Proof.
  unfold dispatchGroup. rewrite bind_gets.
  destruct (registeredGroups (core st) !! chatJid) as [group|] eqn:Eg.
  2: { intros [= <- _]. repeat split; reflexivity. }
  destruct (needsTrigger group && negb (hasTrigger batch)) eqn:Egate.
  { intros [= <- _]. repeat split; reflexivity. }
  assert (Hpass : passesTrigger chatJid batch st) by (exists group; auto).
  rewrite bind_gets. unfold getMessagesSince. rewrite bind_bind.
  unfold bind at 1.
  destruct (external_call "getMessagesSince" st) as [st0 [[]|err]] eqn:Ec;
    apply external_call_inv in Ec as [rest ->].
  2: { intros [= <- _]. repeat split; try reflexivity.
       - intros Hno. contradiction.
       - apply emitting_silent. reflexivity. }
  rewrite bind_gets. norm. intros Hrun.
  match type of Hrun with ?K _ = _ => set (k := K) in * end.
  assert (H1 : preserves (same_on (fun s => registeredGroups (core s))) k).
  { subst k. unfold saveState, lastTimestampOf. unfold_ops.
    frame_with leaf_same. }
  assert (H2 : preserves (same_on (fun s => db_messages (world s))) k).
  { subst k. unfold saveState, lastTimestampOf. unfold_ops.
    frame_with leaf_same. }
  assert (H3 : forall jid, jid <> chatJid ->
             preserves (same_on (fun s => lastAgentTimestamp (core s) !! jid)) k).
  { intros jid Hne. subst k. unfold saveState, lastTimestampOf. unfold_ops.
    frame_with leaf_same. }
  assert (H4 : preserves (emitting (dispatch_event chatJid batch st)) k).
  { subst k. unfold saveState, lastTimestampOf. unfold_ops.
    frame_with ltac:(first [ apply emitting_silent; reflexivity
                           | apply emitting_one; simpl; auto ]). }
  repeat split.
  - apply (preserves_run _ _ _ _ _ H1 Hrun).
  - apply (preserves_run _ _ _ _ _ H2 Hrun).
  - intros jid Hne. apply (preserves_run _ _ _ _ _ (H3 jid Hne) Hrun).
  - intros Hno. contradiction.
  - destruct (preserves_run _ _ _ _ _ H4 Hrun) as (evs & Ht & Hev).
    exists evs. split; assumption.
Qed.

Lemma emitting_weaken (P Q : Event -> Prop) st st' :
  (forall e, P e -> Q e) -> emitting P st st' -> emitting Q st st'.
Proof.
  intros Himp (evs & Ht & Hev). exists evs. split; [exact Ht|].
  eapply Forall_impl; eauto.
Qed.

Lemma dispatch_event_transport chatJid batch st st' e :
  registeredGroups (core st') = registeredGroups (core st) ->
  db_messages (world st') = db_messages (world st) ->
  lastAgentTimestamp (core st') !! chatJid =
    lastAgentTimestamp (core st) !! chatJid ->
  dispatch_event chatJid batch st' e -> dispatch_event chatJid batch st e.
Proof.
  intros Hg Hm Hc.
  unfold dispatch_event, passesTrigger, messagesToSend, backlog, cursorOf.
  rewrite Hg, Hm, Hc. trivial.
Qed.

Lemma passesTrigger_transport chatJid batch st st' :
  registeredGroups (core st') = registeredGroups (core st) ->
  passesTrigger chatJid batch st' <-> passesTrigger chatJid batch st.
Proof. intros Hg. unfold passesTrigger. rewrite Hg. reflexivity. Qed.

Lemma dispatch_loop_spec entries : forall st st' r,
  NoDup entries.*1 ->
  for_each entries dispatchGroup st = (st', r) ->
  registeredGroups (core st') = registeredGroups (core st) /\
  db_messages (world st') = db_messages (world st) /\
  (forall jid,
     (forall ms, (jid, ms) ∈ entries -> ~ passesTrigger jid ms st) ->
     lastAgentTimestamp (core st') !! jid =
     lastAgentTimestamp (core st) !! jid) /\
  emitting
    (fun e => exists jid ms, (jid, ms) ∈ entries /\ dispatch_event jid ms st e)
    st st'.
Proof.
  induction entries as [|[chatJid batch] rest IH]; intros st st' r Hnd;
    cbn [for_each].
  - intros [= <- _]. repeat split. reflexivity.
  - rewrite fmap_cons in Hnd. apply NoDup_cons in Hnd as [Hfresh Hnd].
    cbn [fst] in Hfresh.
    destruct (dispatchGroup (chatJid, batch) st) as [st1 [[]|err]] eqn:Ed;
      destruct (dispatchGroup_spec _ _ _ _ _ Ed)
        as (Hg1 & Hm1 & Hc1 & Hskip1 & He1);
      [rewrite (bind_returned _ _ _ _ _ Ed)
      |rewrite (bind_thrown _ _ _ _ _ Ed)].
    + intros Hrest.
      destruct (IH _ _ _ Hnd Hrest) as (Hg2 & Hm2 & Hc2 & He2).
      split; [congruence|]. split; [congruence|]. split.
      * intros jid Hno. rewrite Hc2.
        -- destruct (decide (jid = chatJid)) as [->|Hne].
           ++ rewrite (Hskip1 (Hno _ (list_elem_of_here _ _))). reflexivity.
           ++ apply Hc1. exact Hne.
        -- intros ms Hin. rewrite (passesTrigger_transport _ _ _ _ Hg1).
           apply Hno. right. exact Hin.
      * transitivity st1.
        -- eapply emitting_weaken; [|exact He1].
           intros e He. exists chatJid, batch. split; [left | exact He].
        -- eapply emitting_weaken; [|exact He2].
           intros e (jid & ms & Hin & He). exists jid, ms.
           split; [right; exact Hin|].
           apply (dispatch_event_transport _ _ _ st1); try assumption.
           apply Hc1. intros ->. apply Hfresh.
           apply list_elem_of_fmap. exists (chatJid, ms). split; [reflexivity | exact Hin].
    + intros [= <- _].
      split; [exact Hg1|]. split; [exact Hm1|]. split.
      * intros jid Hno. destruct (decide (jid = chatJid)) as [->|Hne].
        -- rewrite (Hskip1 (Hno _ (list_elem_of_here _ _))). reflexivity.
        -- apply Hc1. exact Hne.
      * eapply emitting_weaken; [|exact He1].
        intros e He. exists chatJid, batch. split; [left | exact He].
Qed.

Lemma saveState_core : preserves (same_on core) saveState.
Proof. unfold saveState. unfold_ops. frame_with leaf_same. Qed.

Lemma saveState_messages :
  preserves (same_on (fun s => db_messages (world s))) saveState.
Proof. unfold saveState. unfold_ops. frame_with leaf_same. Qed.

Lemma saveState_bookkeeping : preserves (emitting bookkeeping) saveState.
Proof.
  unfold saveState. unfold_ops.
  frame_with ltac:(first [ apply emitting_silent; reflexivity
                         | apply emitting_one; exact I ]).
Qed.

Lemma bookkeeping_dispatch_event chatJid batch st e :
  bookkeeping e -> dispatch_event chatJid batch st e.
Proof. destruct e; simpl; tauto. Qed.

Lemma tickBody_spec st st' r :
  tickBody st = (st', r) ->
  registeredGroups (core st') = registeredGroups (core st) /\
  db_messages (world st') = db_messages (world st) /\
  (forall jid,
     ~ passesTrigger jid (batchOf jid st) st ->
     lastAgentTimestamp (core st') !! jid =
     lastAgentTimestamp (core st) !! jid) /\
  emitting
    (fun e => exists jid, dispatch_event jid (batchOf jid st) st e) st st'.
Proof.
  unfold tickBody. rewrite !bind_gets. unfold getNewMessages.
  rewrite bind_bind.
  destruct (external_call "getNewMessages" st) as [st0 [[]|err]] eqn:Ec;
    [rewrite (bind_returned _ _ _ _ _ Ec)|rewrite (bind_thrown _ _ _ _ _ Ec)];
    apply external_call_inv in Ec as [rest ->].
  2: { intros [= <- _]. repeat split; try reflexivity.
       apply emitting_silent. reflexivity. }
  rewrite bind_gets. norm.
  assert (Ebatch : forall jid,
            batchOf jid st =
            filter (fun m => chat_jid m = jid)
              (select_new_messages (db_messages (world st))
                 (elements (dom (registeredGroups (core st))))
                 (lastTimestamp (core st)) ASSISTANT_NAME).1) by reflexivity.
  destruct (select_new_messages _ _ _ _) as [messages newTimestamp].
  cbn [fst] in Ebatch.
  case_bool_decide as Hempty.
  { intros [= <- _]. repeat split; try reflexivity.
    apply emitting_silent. reflexivity. }
  unfold log, emit. rewrite !bind_modify.
  match goal with |- bind saveState _ ?s = _ -> _ => set (st2 := s) end.
  destruct (saveState st2) as [st3 [[]|err]] eqn:Es;
    [rewrite (bind_returned _ _ _ _ _ Es)|rewrite (bind_thrown _ _ _ _ _ Es)];
    pose proof (preserves_run _ _ _ _ _ saveState_core Es) as Hcore;
    pose proof (preserves_run _ _ _ _ _ saveState_messages Es) as Hmsgs;
    pose proof (preserves_run _ _ _ _ _ saveState_bookkeeping Es) as Hbook;
    unfold same_on in Hcore, Hmsgs; subst st2; norm_all.
  2: { intros [= <- _]. rewrite Hcore, Hmsgs. norm.
       repeat split; try reflexivity.
       transitivity (on_world (fun w => set_trace (trace w ++ [ELog LInfo "New messages"])%list w)
                       (on_world (set_faults rest) st)).
       - exists [ELog LInfo "New messages"]. split; [reflexivity|].
         repeat constructor. exists "". exact I.
       - eapply emitting_weaken; [|exact Hbook].
         intros e He. exists "". apply bookkeeping_dispatch_event. exact He. }
  intros Hloop.
  pose proof (messagesByGroup_grouped messages) as (Hnd & _ & Hent).
  destruct (dispatch_loop_spec _ _ _ _ Hnd Hloop) as (Hg & Hm & Hc & He).
  rewrite Hcore in Hg, Hc. norm_all.
  split; [exact Hg|]. split; [rewrite Hm, Hmsgs; reflexivity|]. split.
  - intros jid Hno. rewrite Hc; [reflexivity|].
    intros ms Hin. rewrite (Hent _ _ Hin), <- Ebatch.
    intros Hp. apply Hno. revert Hp. unfold passesTrigger.
    rewrite Hcore. norm. trivial.
  - transitivity (on_world (fun w => set_trace (trace w ++ [ELog LInfo "New messages"])%list w)
                       (on_world (set_faults rest) st)).
    { exists [ELog LInfo "New messages"]. split; [reflexivity|].
      repeat constructor. exists "". exact I. }
    transitivity st3.
    { eapply emitting_weaken; [|exact Hbook].
      intros e He'. exists "". apply bookkeeping_dispatch_event. exact He'. }
    eapply emitting_weaken; [|exact He].
    intros e (jid & ms & Hin & He'). exists jid.
    rewrite Ebatch, <- (Hent _ _ Hin).
    revert He'. unfold dispatch_event, passesTrigger, messagesToSend, backlog, cursorOf.
    rewrite Hcore, Hmsgs. norm. trivial.
Qed.

End Dispatch.

Section DispatchClaims.

Context `{Env}.

Lemma tick_spec st st' r :
  tick st = (st', r) ->
  registeredGroups (core st') = registeredGroups (core st) /\
  db_messages (world st') = db_messages (world st) /\
  (forall jid,
     ~ passesTrigger jid (batchOf jid st) st ->
     lastAgentTimestamp (core st') !! jid =
     lastAgentTimestamp (core st) !! jid) /\
  emitting (tick_event st) st st'.
Proof.
  unfold tick. rewrite bind_try_catch.
  destruct (tickBody st) as [st1 [[]|err]] eqn:Eb;
    destruct (tickBody_spec _ _ _ Eb) as (Hg & Hm & Hc & He);
    exec; intros [= <- _]; norm;
    (split; [exact Hg|]); (split; [exact Hm|]); (split; [exact Hc|]).
  - transitivity st1.
    + eapply emitting_weaken; [|exact He]. intros e He'. right. exact He'.
    + apply emitting_one. left. reflexivity.
  - transitivity st1.
    + eapply emitting_weaken; [|exact He]. intros e He'. right. exact He'.
    + exists [ELog LError "Error in message loop"; ESleep POLL_INTERVAL].
      split; [norm; rewrite <- app_assoc; reflexivity|].
      apply Forall_cons. split; [right; exists ""; exact I|].
      apply Forall_cons. split; [left; reflexivity | constructor].
Qed.

Lemma hasTrigger_false msgs :
  hasTrigger msgs = false <->
  forall m, m ∈ msgs -> TRIGGER_PATTERN_test (JsString.trim (content m)) = false.
Proof.
  unfold hasTrigger. split.
  - intros Hex m Hm. apply not_true_iff_false. intros Ht.
    apply not_true_iff_false in Hex. apply Hex. apply existsb_exists.
    exists m. split; [apply list_elem_of_In; exact Hm | exact Ht].
  - intros Hall. apply not_true_iff_false. intros Hex.
    apply existsb_exists in Hex as (m & Hm & Ht).
    rewrite (Hall m) in Ht; [discriminate | apply list_elem_of_In; exact Hm].
Qed.

Lemma needsTrigger_true group :
  folder group <> MAIN_GROUP_FOLDER ->
  requiresTrigger group <> Some false ->
  needsTrigger group = true.
Proof.
  intros Hf Hr. unfold needsTrigger.
  rewrite !bool_decide_eq_false_2 by assumption. reflexivity.
Qed.

(** C5. A registered group outside the main folder whose [requiresTrigger]
    is not [false] is skipped by a tick in which none of its fetched
    messages matches the trigger: its cursor is the same afterwards and the
    tick makes no call to the queue, the channel or the runner for it.
    [processGroupMessages] likewise returns true and changes nothing when
    the backlog holds no trigger.  A group in the main folder never needs
    a trigger. *)
Theorem untriggered_group_is_skipped st chatJid group :
  registeredGroups (core st) !! chatJid = Some group ->
  folder group <> MAIN_GROUP_FOLDER ->
  requiresTrigger group <> Some false ->
  ((forall m, m ∈ fetched st -> chat_jid m = chatJid ->
      TRIGGER_PATTERN_test (JsString.trim (content m)) = false) ->
   lastAgentTimestamp (core (tick st).1) !! chatJid =
     lastAgentTimestamp (core st) !! chatJid /\
   emitting (fun e => ~ acts_for chatJid e) st (tick st).1) /\
  (forall run,
     faults (world st) = [] ->
     hasTrigger (backlog chatJid st) = false ->
     processGroupMessages run chatJid st = (st, Returned true)) /\
  (forall main, folder main = MAIN_GROUP_FOLDER -> needsTrigger main = false).
Proof.
  intros Hreg Hfolder Hflag.
  pose proof (needsTrigger_true _ Hfolder Hflag) as Hneeds.
  split; [|split].
  - intros Hnone.
    assert (Hno : ~ passesTrigger chatJid (batchOf chatJid st) st).
    { intros (g & Hg & Hgate). rewrite Hreg in Hg. injection Hg as <-.
      rewrite Hneeds in Hgate. cbn [andb] in Hgate.
      apply negb_false_iff in Hgate.
      assert (Hf : hasTrigger (batchOf chatJid st) = false).
      { apply hasTrigger_false. intros m Hm.
        apply list_elem_of_filter in Hm as [Hkey Hm]. apply Hnone; assumption. }
      congruence. }
    destruct (tick st) as [st' r] eqn:Et. cbn [fst].
    destruct (tick_spec _ _ _ Et) as (_ & _ & Hc & He).
    split; [apply Hc; exact Hno|].
    eapply emitting_weaken; [|exact He].
    intros e [Hs|(jid & Hd)]; destruct e; simpl in *; try discriminate;
      try tauto; intros ->; destruct Hd as (-> & Hd); tauto.
  - intros run Hf Hnotrig. unfold processGroupMessages.
    rewrite bind_gets, (groupOf_registered _ _ _ Hreg). exec.
    fold (backlog chatJid st).
    case_bool_decide; [reflexivity|].
    rewrite Hneeds, Hnotrig. reflexivity.
  - intros main Hmain. unfold needsTrigger.
    rewrite bool_decide_eq_true_2 by exact Hmain. reflexivity.
Qed.

(** C2, as the code has it.  Every text a tick pipes to a worker through
    the queue's [sendMessage] is for a group that passed the trigger check
    and is the formatted full backlog since the group's cursor when that
    backlog is not empty; when it is empty the text is the formatted batch
    of this tick. *)
Theorem tick_forwards_backlog_or_batch st evs jid text accepted :
  trace (world (tick st).1) = (trace (world st) ++ evs)%list ->
  EQueueSendMessage jid text accepted ∈ evs ->
  passesTrigger jid (batchOf jid st) st /\
  (backlog jid st <> [] -> text = formatMessages (backlog jid st)) /\
  (backlog jid st = [] -> text = formatMessages (batchOf jid st)).
Proof.
  intros Htrace Hin.
  destruct (tick st) as [st' r] eqn:Et. cbn [fst] in Htrace.
  destruct (tick_spec _ _ _ Et) as (_ & _ & _ & (evs' & Ht & Hev)).
  rewrite Ht in Htrace. apply app_inv_head in Htrace. subst evs'.
  rewrite Forall_forall in Hev. specialize (Hev _ Hin).
  destruct Hev as [Hs|(j & Hd)]; [discriminate|].
  simpl in Hd. destruct Hd as (-> & -> & Hp).
  split; [exact Hp|]. unfold messagesToSend. split; intros Hb.
  - rewrite bool_decide_eq_false_2 by exact Hb. reflexivity.
  - rewrite bool_decide_eq_true_2 by exact Hb. reflexivity.
Qed.

End DispatchClaims.

(** ** The global cursor after a tick *)

#[global] Instance keeping_preorder (I : State -> Prop) : PreOrder (keeping I).
Proof.
  split.
  - intros st Hst. exact Hst.
  - intros a b c Hab Hbc Ha. apply Hbc, Hab, Ha.
Qed.

(** Splits on the outcome of the next call into the store. *)
Ltac on_call :=
  match goal with
  | |- context [ bind (external_call ?w) ?k ?s ] =>
      let E := fresh "Ec" in
      destruct (external_call w s) as [? [[]|?]] eqn:E;
      [ rewrite (bind_returned _ _ _ _ _ E)
      | rewrite (bind_thrown _ _ _ _ _ E) ];
      apply external_call_inv in E as [? ->]
  end.

Section GlobalCursor.

Context `{Env}.

Lemma saveState_cursor st :
  faults (world st) = [] \/ (exists rest, faults (world st) = false :: rest) ->
  cursor_persisted (saveState st).1.
Proof.
  intros Hpass. unfold saveState, cursor_persisted. unfold_ops. repeat step.
  destruct Hpass as [Hf|[rest Hf]].
  - repeat step. norm.
    rewrite lookup_insert_ne by discriminate. apply lookup_insert_eq.
  - rewrite (bind_external_passes _ _ _ _ Hf). repeat step. norm.
    on_call; repeat step; norm.
    + rewrite lookup_insert_ne by discriminate. apply lookup_insert_eq.
    + apply lookup_insert_eq.
Qed.

Lemma saveState_keeps_cursor :
  preserves (keeping cursor_persisted) saveState.
Proof.
  intros st Hst. destruct (faults (world st)) as [|[] rest] eqn:Hf.
  - apply saveState_cursor. left. exact Hf.
  - unfold saveState. unfold_ops. repeat step.
    rewrite bind_external_fails with (rest := rest) by exact Hf.
    exact Hst.
  - apply saveState_cursor. right. exists rest. exact Hf.
Qed.

Lemma dispatch_keeps_cursor entries :
  preserves (keeping cursor_persisted) (for_each entries dispatchGroup).
Proof.
  apply preserves_for_each; [typeclasses eauto|]. intros [chatJid batch].
  unfold dispatchGroup, lastTimestampOf.
  pose proof saveState_keeps_cursor as Hsave. revert Hsave.
  generalize saveState. intros save Hsave. unfold_ops.
  frame_with ltac:(unfold keeping, cursor_persisted; norm;
                   let Hkept := fresh in intros Hkept; exact Hkept);
    exact Hsave.
Qed.

Lemma tick_cursor_of_body st :
  lastTimestamp (core (tick st).1) = lastTimestamp (core (tickBody st).1) /\
  router_state (world (tick st).1) = router_state (world (tickBody st).1).
Proof.
  unfold tick. rewrite bind_try_catch.
  destruct (tickBody st) as [st1 [[]|err]]; exec; split; reflexivity.
Qed.

Lemma tickBody_without_news st :
  fetched st = [] ->
  lastTimestamp (core (tickBody st).1) = lastTimestamp (core st).
Proof.
  intros Hnone. unfold fetched in Hnone. unfold tickBody.
  rewrite !bind_gets. unfold getNewMessages. rewrite bind_bind.
  on_call; [|reflexivity].
  rewrite bind_gets. norm.
  destruct (select_new_messages _ _ _ _) as [messages newTimestamp].
  cbn [fst] in Hnone. subst messages. cbv beta iota.
  rewrite bool_decide_eq_true_2 by reflexivity. reflexivity.
Qed.

Lemma tickBody_persists_cursor st :
  faults (world st) = [] \/
  (exists rest, faults (world st) = [false] \/
                faults (world st) = false :: false :: rest) ->
  fetched st <> [] ->
  cursor_persisted (tickBody st).1.
Proof.
  intros Hpass Hnews. unfold fetched in Hnews. unfold tickBody.
  rewrite !bind_gets. unfold getNewMessages. rewrite bind_bind.
  assert (Hfirst :
            exists rest,
              (rest = [] \/ exists rest', rest = false :: rest') /\
              forall B (k : unit -> M B),
                bind (external_call "getNewMessages") k st =
                k tt (on_world (set_faults rest) st)).
  { destruct Hpass as [Hf|[rest [Hf|Hf]]].
    - exists []. split; [left; reflexivity|]. intros B k.
      rewrite (bind_external _ _ _ Hf). f_equal.
      destruct st as [c l w]. destruct w. cbn in Hf. subst. reflexivity.
    - exists []. split; [left; reflexivity|]. intros B k.
      apply bind_external_passes. exact Hf.
    - exists (false :: rest). split; [right; eauto|]. intros B k.
      apply bind_external_passes. exact Hf. }
  destruct Hfirst as (rest0 & Hrest0 & Hcall). rewrite Hcall.
  rewrite bind_gets. norm.
  destruct (select_new_messages _ _ _ _) as [messages newTimestamp].
  cbn [fst] in Hnews. cbv beta iota.
  rewrite bool_decide_eq_false_2 by exact Hnews.
  unfold log, emit. rewrite !bind_modify.
  match goal with
  | |- cursor_persisted (bind saveState _ ?s).1 => set (st0 := s)
  end.
  assert (Hsaved : cursor_persisted (saveState st0).1).
  { apply saveState_cursor. subst st0. norm.
    destruct Hrest0 as [->|[rest' ->]]; [left | right; eauto]; reflexivity. }
  destruct (saveState st0) as [st1 [[]|err]] eqn:Es; cbn [fst] in Hsaved.
  - rewrite (bind_returned _ _ _ _ _ Es).
    apply (dispatch_keeps_cursor _ st1), Hsaved.
  - rewrite (bind_thrown _ _ _ _ _ Es). exact Hsaved.
Qed.

(** C4, as the code has it.  Whatever the store does in a tick, the
    global cursor the next tick reads is the one the tick started with,
    or it is the persisted one, with one exception: when the first write
    of the tick, the write of last_timestamp after messages were fetched,
    throws, the tick ends there; nothing was persisted and no group was
    looked at, but the cursor in memory already holds the newest fetched
    timestamp. *)
Theorem tick_cursor_persisted_unless_first_write_fails st :
  lastTimestamp (core (tick st).1) = lastTimestamp (core st) \/
  cursor_persisted (tick st).1 \/
  exists rest st',
    faults (world st) = false :: true :: rest /\
    fetched st <> [] /\
    tick st = (st', Returned tt) /\
    lastTimestamp (core st') =
      (select_new_messages (db_messages (world st))
         (elements (dom (registeredGroups (core st))))
         (lastTimestamp (core st)) ASSISTANT_NAME).2 /\
    router_state (world st') = router_state (world st) /\
    lastAgentTimestamp (core st') = lastAgentTimestamp (core st) /\
    trace (world st') =
      (trace (world st) ++
       [ELog LInfo "New messages"; ELog LError "Error in message loop";
        ESleep POLL_INTERVAL])%list.
Proof.
  destruct (tick_cursor_of_body st) as [Hcursor Hstore].
  destruct (decide (fetched st = [])) as [Hnone|Hnews].
  { left. rewrite Hcursor. apply tickBody_without_news, Hnone. }
  assert (Hpersisted :
            cursor_persisted (tickBody st).1 -> cursor_persisted (tick st).1).
  { unfold cursor_persisted. rewrite Hcursor, Hstore. trivial. }
  destruct (faults (world st)) as [|[] [|[] rest]] eqn:Hf.
  - right. left. apply Hpersisted, tickBody_persists_cursor;
      [left; exact Hf | exact Hnews].
  - left. rewrite Hcursor. unfold tickBody.
    rewrite !bind_gets. unfold getNewMessages. rewrite bind_bind.
    rewrite bind_external_fails with (rest := []) by exact Hf. reflexivity.
  - left. rewrite Hcursor. unfold tickBody.
    rewrite !bind_gets. unfold getNewMessages. rewrite bind_bind.
    rewrite bind_external_fails with (rest := true :: rest) by exact Hf.
    reflexivity.
  - left. rewrite Hcursor. unfold tickBody.
    rewrite !bind_gets. unfold getNewMessages. rewrite bind_bind.
    rewrite bind_external_fails with (rest := false :: rest) by exact Hf.
    reflexivity.
  - right. left. apply Hpersisted, tickBody_persists_cursor;
      [right; exists []; left; exact Hf | exact Hnews].
  - right. right. unfold fetched in Hnews.
    destruct (select_new_messages (db_messages (world st))
                (elements (dom (registeredGroups (core st))))
                (lastTimestamp (core st)) ASSISTANT_NAME)
      as [messages newTimestamp] eqn:Hq.
    cbn [fst snd] in *.
    destruct (tick_first_write_fails st messages newTimestamp rest Hf Hq Hnews)
      as (st' & Hrun & Hts & Hrs & Hcur & Htrace).
    exists rest, st'. unfold fetched. rewrite Hq. cbn [fst].
    split; [reflexivity|]. repeat (split; [assumption|]). assumption.
  - right. left. apply Hpersisted, tickBody_persists_cursor;
      [right; exists rest; right; exact Hf | exact Hnews].
Qed.

End GlobalCursor.

(** ** One agent run *)

Section AgentRun.

Context `{Env}.

Lemma run_effect_refl st :
  faults (world st) = [] -> run_effect false false [] st st.
Proof.
  intros Hf. unfold run_effect, cursors_kept.
  rewrite app_nil_r, !orb_false_r. repeat split. exact Hf.
Qed.

Lemma run_effect_trans d1 f1 e1 d2 f2 e2 st st1 st2 :
  run_effect d1 f1 e1 st st1 -> run_effect d2 f2 e2 st1 st2 ->
  run_effect (d1 || d2) (f1 || f2) (e1 ++ e2) st st2.
Proof.
  unfold run_effect, cursors_kept.
  intros (Ht1 & Hs1 & _ & (Ha1 & Hb1 & Hc1 & Hd1 & He1) & Hh1 & Ho1)
         (Ht2 & Hs2 & Hf2 & (Ha2 & Hb2 & Hc2 & Hd2 & He2) & Hh2 & Ho2).
  rewrite Ht2, Ht1, Hh2, Hh1, Ho2, Ho1, existsb_app, Hs1, Hs2.
  rewrite app_assoc, !orb_assoc.
  repeat split; congruence.
Qed.

Ltac settle_effect :=
  eexists _, _; split; [reflexivity|];
  unfold run_effect, cursors_kept; norm;
  split; [first [ symmetry; apply app_nil_r
                | rewrite <- ?app_assoc; reflexivity ]|];
  rewrite ?orb_false_r, ?orb_true_r; repeat split; assumption.

Lemma storeNewSession_effect groupFolder output st :
  faults (world st) = [] ->
  exists st' evs,
    storeNewSession groupFolder output st = (st', Returned tt) /\
    run_effect false false evs st st'.
Proof.
  intros Hf. unfold storeNewSession.
  destruct (truthy_opt (newSessionId output)); exec; settle_effect.
Qed.

Lemma onOutput_effect chatJid output st :
  faults (world st) = [] ->
  exists st' evs,
    onOutput chatJid output st = (st', Returned tt) /\
    run_effect (delivers output) (bool_decide (status output = StatusError))
      evs st st'.
Proof.
  intros Hf. unfold onOutput, delivers, visibleText, resetIdleTimer.
  destruct (result_truthy (result output));
    [destruct (JsString.truthy
                 (JsString.strip_internal (raw_text (result output))))|];
    destruct (idleTimer (locals st)) as [handle|] eqn:Et;
    destruct (status output); cbn [andb];
    rewrite ?bool_decide_eq_true_2, ?bool_decide_eq_false_2 by congruence;
    exec; rewrite ?Et; exec; settle_effect.
Qed.

Lemma fireTimer_effect handle st :
  faults (world st) = [] ->
  exists st' evs,
    fireTimer handle st = (st', Returned tt) /\
    run_effect false false evs st st'.
Proof.
  intros Hf. unfold fireTimer. rewrite bind_gets.
  destruct (pending_timers (world st) !! handle) as [[jid]|];
    unfold runTimerCallback; exec; settle_effect.
Qed.

Lemma queue_registerProcess_effect jid containerName groupFolder st :
  faults (world st) = [] ->
  exists st' evs,
    queue_registerProcess jid containerName groupFolder st =
      (st', Returned tt) /\
    run_effect false false evs st st'.
Proof. intros Hf. exec. settle_effect. Qed.

(** What the runner does with one step of the run, given the callbacks
    [runAgent] passes. *)
Lemma step_effect group chatJid step st :
  faults (world st) = [] ->
  exists st' evs,
    match step with
    | StepSpawn containerName =>
        queue_registerProcess chatJid containerName (folder group)
    | StepOutput output =>
        storeNewSession (folder group) output ;; onOutput chatJid output
    | StepTimerFires handle => fireTimer handle
    end st = (st', Returned tt) /\
    run_effect (step_delivers step) (step_failed step) evs st st'.
Proof.
  intros Hf. destruct step as [containerName|output|handle]; cbn [step_delivers step_failed].
  - apply queue_registerProcess_effect. exact Hf.
  - destruct (storeNewSession_effect (folder group) output st Hf)
      as (st1 & e1 & Hrun1 & Heff1).
    destruct (onOutput_effect chatJid output st1) as (st2 & e2 & Hrun2 & Heff2).
    { apply Heff1. }
    exists st2, (e1 ++ e2)%list. split.
    + rewrite (bind_returned _ _ _ _ _ Hrun1). exact Hrun2.
    + apply (run_effect_trans _ _ _ _ _ _ _ _ _ Heff1 Heff2).
  - apply fireTimer_effect. exact Hf.
Qed.

Lemma steps_effect group chatJid steps : forall st,
  faults (world st) = [] ->
  exists st' evs,
    for_each steps (fun step =>
      match step with
      | StepSpawn containerName =>
          queue_registerProcess chatJid containerName (folder group)
      | StepOutput output =>
          storeNewSession (folder group) output ;; onOutput chatJid output
      | StepTimerFires handle => fireTimer handle
      end) st = (st', Returned tt) /\
    run_effect (existsb step_delivers steps) (existsb step_failed steps)
      evs st st'.
Proof.
  induction steps as [|step steps IH]; intros st Hf; cbn [for_each existsb].
  - exists st, []. split; [reflexivity | apply run_effect_refl; exact Hf].
  - destruct (step_effect group chatJid step st Hf) as (st1 & e1 & Hrun1 & Heff1).
    destruct (IH st1) as (st2 & e2 & Hrun2 & Heff2); [apply Heff1|].
    exists st2, (e1 ++ e2)%list. split.
    + rewrite (bind_returned _ _ _ _ _ Hrun1). exact Hrun2.
    + apply (run_effect_trans _ _ _ _ _ _ _ _ _ Heff1 Heff2).
Qed.

Lemma run_effect_emit d f evs e st st' :
  is_channel_send e = false ->
  run_effect d f evs
    (on_world (fun w => set_trace (trace w ++ [e])%list w) st) st' ->
  run_effect d f (e :: evs) st st'.
Proof.
  unfold run_effect, cursors_kept. norm. intros He (Ht & Hs & Hrest).
  split; [rewrite Ht, <- app_assoc; reflexivity|].
  split; [cbn [existsb]; rewrite He; exact Hs|]. exact Hrest.
Qed.

Lemma runAgent_effect run group prompt chatJid st :
  faults (world st) = [] ->
  exists st' evs,
    runAgent run group prompt chatJid (Some (onOutput chatJid)) st =
      (st', Returned (agent_status run)) /\
    run_effect (run_delivered run) (existsb step_failed (steps run))
      ([EWriteTasksSnapshot (folder group)
          (bool_decide (folder group = MAIN_GROUP_FOLDER));
        EWriteGroupsSnapshot (folder group)
          (bool_decide (folder group = MAIN_GROUP_FOLDER));
        ERunContainerAgent prompt (sessions (core st) !! folder group)
          (folder group) chatJid
          (bool_decide (folder group = MAIN_GROUP_FOLDER))] ++ evs)
      st st'.
Proof.
  intros Hf. unfold runAgent, runContainerAgent, agent_status, run_delivered.
  cbn [fmap option_fmap option_map].
  unfold getAllTasks, getAllChats, emit. repeat step. norm.
  match goal with
  | |- context [ bind (for_each _ _) _ ?s ] => set (st0 := s)
  end.
  destruct (steps_effect group chatJid (steps run) st0 Hf)
    as (st1 & e1 & Hrun1 & Heff1).
  rewrite (bind_returned _ _ _ _ _ Hrun1).
  assert (Hf1 : faults (world st1) = []) by apply Heff1.
  destruct (final run) as [output|].
  - repeat step.
    destruct (storeNewSession_effect (folder group) output st1 Hf1)
      as (st2 & e2 & Hrun2 & Heff2).
    rewrite (bind_returned _ _ _ _ _ Hrun2).
    pose proof (run_effect_trans _ _ _ _ _ _ _ _ _ Heff1 Heff2) as Heff.
    rewrite !orb_false_r in Heff.
    destruct (status output); exec.
    + eexists _, _. split; [reflexivity|].
      do 3 (apply run_effect_emit; [reflexivity|]). exact Heff.
    + eexists _, (e1 ++ e2 ++ [ELog LError "Container agent error"])%list.
      split; [reflexivity|].
      do 3 (apply run_effect_emit; [reflexivity|]).
      rewrite app_assoc.
      rewrite <- (orb_false_r (existsb step_delivers (steps run))).
      rewrite <- (orb_false_r (existsb step_failed (steps run))).
      eapply run_effect_trans; [exact Heff|].
      unfold run_effect, cursors_kept. norm.
      rewrite !orb_false_r. repeat split. apply Heff2.
  - exec.
    eexists _, (e1 ++ [ELog LError "Agent error"])%list.
    split; [reflexivity|].
    do 3 (apply run_effect_emit; [reflexivity|]).
    rewrite <- (orb_false_r (existsb step_delivers (steps run))).
    rewrite <- (orb_false_r (existsb step_failed (steps run))).
    eapply run_effect_trans; [exact Heff1|].
    unfold run_effect, cursors_kept. norm.
    rewrite !orb_false_r. repeat split. exact Hf1.
Qed.

End AgentRun.

(** ** One call of [processGroupMessages] that dispatches *)

Lemma first_start_after (x : Event) A : forall B before e after,
  (A ++ x :: B)%list = (before ++ e :: after)%list ->
  Forall (fun a => is_worker_start a = false) A ->
  is_worker_start x = false ->
  is_worker_start e = true ->
  x ∈ before.
Proof.
  induction A as [|a A IH]; intros B before e after Heq HA Hx He.
  - destruct before as [|b before]; simpl in Heq.
    + injection Heq as -> _. congruence.
    + injection Heq as -> _. left.
  - apply Forall_cons in HA as [Ha HA].
    destruct before as [|b before]; simpl in Heq.
    + injection Heq as -> _. congruence.
    + injection Heq as -> Heq. right. eapply IH; eauto.
Qed.


Section Invocation.

Context `{Env}.

Lemma processGroupMessages_spec run chatJid group st :
  registeredGroups (core st) !! chatJid = Some group ->
  faults (world st) = [] ->
  backlog chatJid st <> [] ->
  needsTrigger group && negb (hasTrigger (backlog chatJid st)) = false ->
  exists st' newest evs,
    last (backlog chatJid st) = Some newest /\
    processGroupMessages run chatJid st =
      (st', Returned (negb (run_failed run) || run_delivered run)) /\
    lastAgentTimestamp (core st') =
      <[chatJid := if run_failed run && negb (run_delivered run)
                   then cursorOf chatJid st else timestamp newest]>
        (lastAgentTimestamp (core st)) /\
    router_state (world st') !! "last_agent_timestamp" =
      Some (JSON_stringify (lastAgentTimestamp (core st'))) /\
    trace (world st') =
      (trace (world st) ++ dispatch_prefix chatJid group newest st ++ evs)%list /\
    existsb is_channel_send evs = run_delivered run.
Proof.
  intros Hreg Hf Hne Hgate.
  destruct (last (backlog chatJid st)) as [newest|] eqn:Elast.
  2: { apply last_None in Elast. contradiction. }
  unfold processGroupMessages.
  rewrite bind_gets, (groupOf_registered _ _ _ Hreg).
  unfold saveState, lastTimestampOf. exec.
  fold (backlog chatJid st).
  rewrite bool_decide_eq_false_2 by exact Hne. rewrite Hgate, Elast.
  exec.
  match goal with
  | |- context [ bind (runAgent _ _ _ _ _) _ ?s ] => set (st0 := s)
  end.
  destruct (runAgent_effect run group (formatMessages (backlog chatJid st))
              chatJid st0 Hf) as (st1 & e1 & Hrun & Heff).
  rewrite (bind_returned _ _ _ _ _ Hrun).
  destruct Heff as (Ht & Hs & Hf1 & (Hc1 & Hc2 & Hc3 & Hc4 & Hc5) & Hh & Ho).
  subst st0. norm_all. cbn [app existsb is_channel_send orb] in Hs.
  cbn [orb] in Hh, Ho.
  unfold run_failed.
  destruct (idleTimer (locals st1)) as [handle|] eqn:Etimer;
    exec; rewrite ?Etimer; exec; rewrite ?Hh;
    destruct (bool_decide (agent_status run = StatusError));
    destruct (existsb step_failed (steps run));
    destruct (run_delivered run);
    cbn [orb andb negb]; exec; rewrite ?Ho; exec;
    (eexists _, _, _; split; [reflexivity|]; split; [reflexivity|]);
    norm;
    (split; [rewrite Hc1, ?insert_insert_eq; reflexivity|]);
    (split; [rewrite ?Hc1, ?Hc4, ?insert_insert_eq, lookup_insert_eq;
             reflexivity|]);
    (split; [rewrite Ht; unfold dispatch_prefix; rewrite <- ?app_assoc;
             cbn [app]; reflexivity|]);
    rewrite existsb_app, Hs; cbn [existsb is_channel_send orb]; reflexivity.
Qed.

Lemma run_delivered_internal_only run :
  (forall output,
     StepOutput output ∈ steps run ->
     visibleText output = "" \/ result_truthy (result output) = false) ->
  run_delivered run = false.
Proof.
  intros Hall. unfold run_delivered. apply not_true_iff_false. intros Hex.
  apply existsb_exists in Hex as ([name|output|handle] & Hin & Hd);
    try discriminate.
  cbn [step_delivers] in Hd. unfold delivers in Hd.
  destruct (Hall output) as [Hv|Hr]; [apply list_elem_of_In; exact Hin| |].
  - rewrite Hv, andb_false_r in Hd. discriminate.
  - rewrite Hr in Hd. discriminate.
Qed.

Lemma onOutput_internal_only chatJid output st :
  visibleText output = "" ->
  outputSentToUser (locals (onOutput chatJid output st).1) =
    outputSentToUser (locals st) /\
  emitting (fun e => is_channel_send e = false) st
    (onOutput chatJid output st).1.
Proof.
  unfold visibleText. intros Hv.
  assert (Hflag : preserves (same_on (fun s => outputSentToUser (locals s)))
            (onOutput chatJid output)).
  { unfold onOutput, resetIdleTimer. rewrite Hv. cbn [JsString.truthy].
    unfold_ops. frame_with leaf_same. }
  assert (Hsend : preserves (emitting (fun e => is_channel_send e = false))
            (onOutput chatJid output)).
  { unfold onOutput, resetIdleTimer. rewrite Hv. cbn [JsString.truthy].
    unfold_ops.
    frame_with ltac:(first [ apply emitting_silent; reflexivity
                           | apply emitting_one; reflexivity ]). }
  split; [apply Hflag | apply Hsend].
Qed.

(** C1. A dispatched invocation that ends in failure, on a reachable
    store: [processGroupMessages] answers whether output was delivered; a
    message went to the user during the run exactly when [run_delivered]
    says so; without delivery the group's cursor is back at its
    pre-dispatch value, with delivery it keeps the timestamp of the newest
    backlog message; either way the persisted cursor map is the one in
    memory and no other group's cursor moved. *)
Theorem failed_invocation_rolls_back_iff_undelivered run chatJid group st :
  registeredGroups (core st) !! chatJid = Some group ->
  faults (world st) = [] ->
  backlog chatJid st <> [] ->
  needsTrigger group && negb (hasTrigger (backlog chatJid st)) = false ->
  run_failed run = true ->
  exists st' newest evs,
    last (backlog chatJid st) = Some newest /\
    processGroupMessages run chatJid st =
      (st', Returned (run_delivered run)) /\
    trace (world st') =
      (trace (world st) ++ dispatch_prefix chatJid group newest st ++ evs)%list /\
    existsb is_channel_send evs = run_delivered run /\
    cursorOf chatJid st' =
      (if run_delivered run then timestamp newest else cursorOf chatJid st) /\
    lastAgentTimestamp (core st') =
      <[chatJid := cursorOf chatJid st']> (lastAgentTimestamp (core st)) /\
    router_state (world st') !! "last_agent_timestamp" =
      Some (JSON_stringify (lastAgentTimestamp (core st'))).
Proof.
  intros Hreg Hf Hne Hgate Hfail.
  destruct (processGroupMessages_spec run chatJid group st Hreg Hf Hne Hgate)
    as (st' & newest & evs & Hlast & Hrun & Hcur & Hrs & Htr & Hsend).
  rewrite Hfail in Hrun, Hcur. cbn [negb orb andb] in Hrun, Hcur.
  exists st', newest, evs.
  assert (Hc : cursorOf chatJid st' =
               if run_delivered run then timestamp newest
               else cursorOf chatJid st).
  { unfold cursorOf at 1. rewrite Hcur, lookup_insert_eq.
    destruct (run_delivered run); reflexivity. }
  repeat (split; [assumption|]). split; [|exact Hrs].
  rewrite Hc, Hcur. destruct (run_delivered run); reflexivity.
Qed.

Lemma runAgent_trace run group prompt chatJid cb :
  preserves (emitting (fun _ => True)) (runAgent run group prompt chatJid (Some (onOutput cb))).
Proof.
  unfold runAgent, runContainerAgent, storeNewSession, onOutput, resetIdleTimer,
    fireTimer, runTimerCallback.
  cbn [fmap option_fmap option_map]. unfold_ops.
  frame_with ltac:(first [ apply emitting_silent; reflexivity
                         | apply emitting_one; exact I ]).
Qed.

Ltac split_call :=
  match goal with
  | |- context [ bind (external_call ?w) ?k ?s ] =>
      let E := fresh "Ec" in
      destruct (external_call w s) as [? [[]|?]] eqn:E;
      [ rewrite (bind_returned _ _ _ _ _ E)
      | rewrite (bind_thrown _ _ _ _ _ E) ];
      apply external_call_inv in E as [? ->]
  end.

Lemma processGroupMessages_persist_first run chatJid st st' r :
  processGroupMessages run chatJid st = (st', r) ->
  emitting (fun e => is_worker_start e = false) st st' \/
  exists newest A B,
    last (backlog chatJid st) = Some newest /\
    Forall (fun e => is_worker_start e = false) A /\
    trace (world st') =
      (trace (world st) ++ A ++
       ESetRouterState "last_agent_timestamp"
         (JSON_stringify
            (<[chatJid := timestamp newest]> (lastAgentTimestamp (core st))))
       :: B)%list.
Proof.
  unfold processGroupMessages. rewrite bind_gets.
  destruct (groupOf chatJid st) as [group|].
  2: { intros [= <- _]. left. reflexivity. }
  unfold saveState, lastTimestampOf. unfold_ops. repeat step.
  split_call.
  2: { intros [= <- _]. left. apply emitting_silent. reflexivity. }
  repeat step. norm. fold (backlog chatJid st).
  case_bool_decide as Hne.
  { intros [= <- _]. left. apply emitting_silent. reflexivity. }
  destruct (needsTrigger group && negb (hasTrigger (backlog chatJid st))).
  { intros [= <- _]. left. apply emitting_silent. reflexivity. }
  destruct (last (backlog chatJid st)) as [newest|] eqn:Elast.
  2: { repeat step. intros [= <- _]. left. apply emitting_silent. reflexivity. }
  repeat step. norm. split_call.
  2: { intros [= <- _]. left. apply emitting_silent. reflexivity. }
  repeat step. norm. split_call.
  2: { intros [= <- _]. left. norm.
       exists [ESetRouterState "last_timestamp" (lastTimestamp (core st))].
       split; [reflexivity|]. repeat constructor. }
  repeat step. norm.
  intros Hrun. right. exists newest.
  match type of Hrun with ?K ?s = _ => set (k := K) in *; set (s2 := s) in * end.
  assert (Hk : preserves (emitting (fun _ => True)) k).
  { subst k.
    apply preserves_bind; [typeclasses eauto| |intros ?].
    { apply runAgent_trace. }
    frame_with ltac:(first [ apply emitting_silent; reflexivity
                           | apply emitting_one; exact I ]). }
  destruct (preserves_run _ _ _ _ _ Hk Hrun) as (B & Htr & _).
  subst s2. norm_all.
  eexists [ESetRouterState "last_timestamp" (lastTimestamp (core st))], _.
  split; [reflexivity|]. split; [repeat constructor|].
  rewrite Htr, <- !app_assoc. cbn [app]. reflexivity.
Qed.

(** C3. Under any fault schedule, a call of [runContainerAgent] in the
    trace of [processGroupMessages] comes after the write of
    last_agent_timestamp that holds the cursor map in which the group's
    cursor is the timestamp of the newest backlog message.  And on a
    reachable store a call with a non-empty backlog that passes the trigger
    check does start the worker: its trace is that write, the typing signal
    and the snapshots, then the call of [runContainerAgent], then whatever
    the run produces. *)
Theorem cursor_persisted_before_worker_starts :
  (forall run chatJid st before e after,
     trace (world (processGroupMessages run chatJid st).1) =
       (trace (world st) ++ before ++ e :: after)%list ->
     is_worker_start e = true ->
     exists newest,
       last (backlog chatJid st) = Some newest /\
       ESetRouterState "last_agent_timestamp"
         (JSON_stringify
            (<[chatJid := timestamp newest]> (lastAgentTimestamp (core st))))
       ∈ before) /\
  (forall run chatJid group st,
     registeredGroups (core st) !! chatJid = Some group ->
     faults (world st) = [] ->
     backlog chatJid st <> [] ->
     needsTrigger group && negb (hasTrigger (backlog chatJid st)) = false ->
     exists st' answer newest during,
       last (backlog chatJid st) = Some newest /\
       processGroupMessages run chatJid st = (st', Returned answer) /\
       trace (world st') =
         (trace (world st) ++
          [ESetRouterState "last_timestamp" (lastTimestamp (core st));
           ESetRouterState "last_agent_timestamp"
             (JSON_stringify
                (<[chatJid := timestamp newest]>
                   (lastAgentTimestamp (core st))));
           ELog LInfo "Processing messages";
           EChannelSetTyping chatJid true;
           EWriteTasksSnapshot (folder group)
             (bool_decide (folder group = MAIN_GROUP_FOLDER));
           EWriteGroupsSnapshot (folder group)
             (bool_decide (folder group = MAIN_GROUP_FOLDER))] ++
          ERunContainerAgent (formatMessages (backlog chatJid st))
            (sessions (core st) !! folder group) (folder group) chatJid
            (bool_decide (folder group = MAIN_GROUP_FOLDER)) :: during)%list).
Proof.
  split.
  - intros run chatJid st before e after Htr He.
    destruct (processGroupMessages run chatJid st) as [st' r] eqn:Erun.
    cbn [fst] in Htr.
    destruct (processGroupMessages_persist_first _ _ _ _ _ Erun)
      as [(evs & Hevs & Hquiet)|(newest & A & B & Hlast & HA & Hevs)].
    + rewrite Hevs in Htr. apply app_inv_head in Htr. subst evs.
      apply Forall_app in Hquiet as [_ Hquiet].
      apply Forall_cons in Hquiet as [Hquiet _]. congruence.
    + exists newest. split; [exact Hlast|].
      rewrite Hevs in Htr. apply app_inv_head in Htr.
      eapply first_start_after; eauto.
  - intros run chatJid group st Hreg Hf Hne Hgate.
    destruct (processGroupMessages_spec run chatJid group st Hreg Hf Hne Hgate)
      as (st' & newest & evs & Hlast & Hrun & _ & _ & Htr & _).
    exists st', (negb (run_failed run) || run_delivered run), newest, evs.
    split; [exact Hlast|]. split; [exact Hrun|]. exact Htr.
Qed.

(** C9. An output whose visible text is empty sends nothing to the channel
    and leaves the delivered flag as it was; so a dispatched invocation
    all of whose outputs are of that kind (or carry no result at all), and
    which fails, answers false with the group's cursor back at its
    pre-dispatch value, persisted, and without any message to the user. *)
Theorem internal_only_failure_is_rolled_back run chatJid group st :
  registeredGroups (core st) !! chatJid = Some group ->
  faults (world st) = [] ->
  backlog chatJid st <> [] ->
  needsTrigger group && negb (hasTrigger (backlog chatJid st)) = false ->
  (forall output,
     StepOutput output ∈ steps run ->
     visibleText output = "" \/ result_truthy (result output) = false) ->
  run_failed run = true ->
  (forall jid output s,
     visibleText output = "" ->
     outputSentToUser (locals (onOutput jid output s).1) =
       outputSentToUser (locals s) /\
     emitting (fun e => is_channel_send e = false) s (onOutput jid output s).1) /\
  exists st' newest evs,
    processGroupMessages run chatJid st = (st', Returned false) /\
    trace (world st') =
      (trace (world st) ++ dispatch_prefix chatJid group newest st ++ evs)%list /\
    existsb is_channel_send evs = false /\
    cursorOf chatJid st' = cursorOf chatJid st /\
    lastAgentTimestamp (core st') =
      <[chatJid := cursorOf chatJid st]> (lastAgentTimestamp (core st)) /\
    router_state (world st') !! "last_agent_timestamp" =
      Some (JSON_stringify (lastAgentTimestamp (core st'))).
Proof.
  intros Hreg Hf Hne Hgate Hall Hfail.
  split; [intros jid output s; apply onOutput_internal_only|].
  pose proof (run_delivered_internal_only run Hall) as Hnone.
  destruct (processGroupMessages_spec run chatJid group st Hreg Hf Hne Hgate)
    as (st' & newest & evs & Hlast & Hrun & Hcur & Hrs & Htr & Hsend).
  rewrite Hfail, Hnone in Hrun, Hcur. rewrite Hnone in Hsend.
  cbn [negb orb andb] in Hrun, Hcur.
  exists st', newest, evs.
  repeat (split; [assumption|]). split; [|split; assumption].
  unfold cursorOf at 1. rewrite Hcur, lookup_insert_eq.
  unfold cursorOf, or_empty. destruct (lastAgentTimestamp (core st) !! chatJid); reflexivity.
Qed.

(** C6, as the code has it.  An output with a non-empty result replaces
    the idle timer by a fresh one that closes the stdin of the chat; an
    output with a null or empty result leaves the timer alone.  When such
    a timer comes due it logs, closes the stdin of the chat and does
    nothing else. *)
Theorem idle_timer_rearmed_by_outputs_with_result chatJid output st :
  let st' := (onOutput chatJid output st).1 in
  (result_truthy (result output) = true ->
   idleTimer (locals st') = Some (next_timer (world st)) /\
   next_timer (world st') = S (next_timer (world st)) /\
   pending_timers (world st') =
     <[next_timer (world st) := CloseStdinOnIdle chatJid]>
       (match idleTimer (locals st) with
        | Some old => delete old (pending_timers (world st))
        | None => pending_timers (world st)
        end)) /\
  (result_truthy (result output) = false ->
   idleTimer (locals st') = idleTimer (locals st) /\
   next_timer (world st') = next_timer (world st) /\
   pending_timers (world st') = pending_timers (world st)) /\
  (forall handle jid s,
     pending_timers (world s) !! handle = Some (CloseStdinOnIdle jid) ->
     exists s',
       fireTimer handle s = (s', Returned tt) /\
       core s' = core s /\
       locals s' = locals s /\
       pending_timers (world s') = delete handle (pending_timers (world s)) /\
       queue_active (world s') = queue_active (world s) ∖ {[jid]} /\
       trace (world s') =
         (trace (world s) ++
          [ELog LDebug "Idle timeout, closing container stdin";
           EQueueCloseStdin jid])%list).
Proof.
  cbv zeta. split; [|split].
  - intros Hr. unfold onOutput, resetIdleTimer. rewrite Hr.
    destruct (JsString.truthy _);
      destruct (idleTimer (locals st)) as [old|] eqn:Et;
      destruct (status output); exec; rewrite ?Et; exec;
      repeat split.
  - intros Hr. unfold onOutput. rewrite Hr.
    destruct (status output); exec; repeat split.
  - intros handle jid s Hp. unfold fireTimer, runTimerCallback.
    rewrite bind_gets, Hp. exec. eexists. split; [reflexivity|]. norm.
    repeat split. rewrite <- app_assoc. reflexivity.
Qed.

End Invocation.

(** ** The statements at work on the family group *)

Section Scenarios.

#[local] Existing Instance Demo.env.

Example trim_spaces : JsString.trim "  @Andy hi	 " = "@Andy hi".
Proof. reflexivity. Qed.

Example strip_internal_only :
  JsString.strip_internal "<internal>plan</internal>  " = "".
Proof. reflexivity. Qed.

Example strip_internal_mixed :
  JsString.strip_internal " a<internal>b</internal>c<internal>d " =
  "ac<internal>d".
Proof. reflexivity. Qed.

Example strip_internal_lazy :
  JsString.strip_internal "<internal><internal>x</internal></internal>" =
  "</internal>".
Proof. reflexivity. Qed.

Example parse_after_stringify :
  Demo.parse (Demo.stringify {[ Demo.family := "2024-01-01T10:05:00.000Z" ]}) =
  Some {[ Demo.family := "2024-01-01T10:05:00.000Z" ]}.
Proof. vm_compute. reflexivity. Qed.

Example messagesByGroup_keeps_order :
  messagesByGroup
    [Demo.asked; Demo.message "main@g.us" "t" "carol" "hi"; Demo.added] =
  [(Demo.family, [Demo.asked; Demo.added]);
   ("main@g.us", [Demo.message "main@g.us" "t" "carol" "hi"])].
Proof. reflexivity. Qed.

(** The main group is dispatched without a trigger: all three messages go
    into one prompt and the cursor ends at the third. *)
Example main_group_dispatches_whole_backlog :
  let st' :=
    (processGroupMessages Demo.answeredThenSessionUpdate "main@g.us"
       Demo.mainBacklog).1 in
  cursorOf "main@g.us" st' = "2024-01-01T08:02:00.000Z" /\
  trace (world st') !! 6 =
    Some (ERunContainerAgent
            (Demo.format_messages (db_messages (world Demo.mainBacklog)))
            None "main" "main@g.us" true).
Proof. split; vm_compute; reflexivity. Qed.

(** C1 at work: the worker answered, then failed; the answer is true and
    the cursor stays at the newest backlog message. *)
Lemma answered_then_failed_keeps_cursor :
  exists st',
    processGroupMessages (H := Demo.env) Demo.answeredThenFailed
      Demo.family Demo.pending = (st', Returned true) /\
    cursorOf Demo.family st' = timestamp Demo.added /\
    router_state (world st') !! "last_agent_timestamp" =
      Some (Demo.stringify {[ Demo.family := timestamp Demo.added ]}).
Proof.
  destruct (@failed_invocation_rolls_back_iff_undelivered Demo.env
              Demo.answeredThenFailed Demo.family Demo.familyGroup
              Demo.pending)
    as (st' & newest & evs & Hlast & Hrun & _ & _ & Hc & Hmap & Hrs).
  - vm_compute. reflexivity.
  - reflexivity.
  - vm_compute. discriminate.
  - vm_compute. reflexivity.
  - vm_compute. reflexivity.
  - exists st'. vm_compute in Hlast. injection Hlast as <-.
    split; [exact Hrun|]. split; [exact Hc|].
    rewrite Hrs, Hmap, Hc. vm_compute. reflexivity.
Defined.

(** C3 at work: the cursor map is written before the worker is started. *)
Lemma family_cursor_written_before_worker :
  exists st' answer during,
    processGroupMessages (H := Demo.env) Demo.failedSilently
      Demo.family Demo.pending = (st', Returned answer) /\
    trace (world st') =
      ([ESetRouterState "last_timestamp" "";
        ESetRouterState "last_agent_timestamp"
          (Demo.stringify {[ Demo.family := timestamp Demo.added ]});
        ELog LInfo "Processing messages";
        EChannelSetTyping Demo.family true;
        EWriteTasksSnapshot "family" false;
        EWriteGroupsSnapshot "family" false] ++
       ERunContainerAgent (Demo.format_messages [Demo.asked; Demo.added])
         None "family" Demo.family false :: during)%list.
Proof.
  destruct (proj2 (@cursor_persisted_before_worker_starts Demo.env)
              Demo.failedSilently Demo.family Demo.familyGroup Demo.pending)
    as (st' & answer & newest & during & Hlast & Hrun & Htr).
  - vm_compute. reflexivity.
  - reflexivity.
  - vm_compute. discriminate.
  - vm_compute. reflexivity.
  - exists st', answer, during. vm_compute in Hlast. injection Hlast as <-.
    split; [exact Hrun|]. rewrite Htr. vm_compute. reflexivity.
Defined.

(** C9 at work: the worker only produced internal text and failed; the
    answer is false and the cursor is back at the empty pre-dispatch
    value. *)
Lemma thought_then_failed_is_retried :
  exists st',
    processGroupMessages (H := Demo.env) Demo.thoughtThenFailed
      Demo.family Demo.pending = (st', Returned false) /\
    cursorOf Demo.family st' = "" /\
    router_state (world st') !! "last_agent_timestamp" =
      Some (Demo.stringify {[ Demo.family := "" ]}).
Proof.
  destruct (@internal_only_failure_is_rolled_back Demo.env
              Demo.thoughtThenFailed Demo.family Demo.familyGroup
              Demo.pending)
    as (_ & st' & newest & evs & Hrun & _ & _ & Hc & Hmap & Hrs).
  - vm_compute. reflexivity.
  - reflexivity.
  - vm_compute. discriminate.
  - vm_compute. reflexivity.
  - intros output Hin. cbn [Demo.thoughtThenFailed steps] in Hin.
    apply elem_of_cons in Hin as [[=]|Hin].
    apply list_elem_of_singleton in Hin as [= ->]. left. vm_compute.
    reflexivity.
  - vm_compute. reflexivity.
  - exists st'. split; [exact Hrun|]. split; [exact Hc|].
    rewrite Hrs, Hmap. vm_compute. reflexivity.
Defined.

(** C5 at work: small talk in a group that needs the trigger moves
    neither its cursor nor the queue. *)
Lemma small_talk_is_skipped :
  lastAgentTimestamp (core (tick (H := Demo.env) Demo.smallTalk).1)
    !! Demo.family = None /\
  emitting (fun e => ~ acts_for Demo.family e) Demo.smallTalk
    (tick (H := Demo.env) Demo.smallTalk).1.
Proof.
  destruct (@untriggered_group_is_skipped Demo.env Demo.smallTalk
              Demo.family Demo.familyGroup) as (Htick & _ & _).
  - vm_compute. reflexivity.
  - intros E. vm_compute in E. discriminate E.
  - discriminate.
  - destruct Htick as [Hc He].
    + intros m Hm _. vm_compute in Hm.
      apply list_elem_of_singleton in Hm as ->. vm_compute. reflexivity.
    + split; [rewrite Hc; vm_compute; reflexivity | exact He].
Defined.

(** C2 (as the code has it) at work: with a backlog of two messages the
    piped text is the formatted backlog. *)
Lemma piped_text_is_the_backlog :
  passesTrigger (H := Demo.env) Demo.family
    (batchOf Demo.family Demo.pendingActive) Demo.pendingActive /\
  Demo.format_messages [Demo.asked; Demo.added] =
    formatMessages (backlog (H := Demo.env) Demo.family Demo.pendingActive).
Proof.
  destruct (@tick_forwards_backlog_or_batch Demo.env Demo.pendingActive
              (trace (world (tick (H := Demo.env) Demo.pendingActive).1))
              Demo.family (Demo.format_messages [Demo.asked; Demo.added])
              true) as (Hp & Hfull & _).
  - reflexivity.
  - apply list_elem_of_lookup. exists 3. vm_compute. reflexivity.
  - split; [exact Hp|]. apply Hfull. vm_compute. discriminate.
Defined.

(** C4 (as the code has it) at work: the first write fails, the tick
    ends, the cursor in memory has moved and is not the persisted one. *)
Lemma failed_write_ends_the_tick :
  exists st',
    tick (H := Demo.env) Demo.storeFailing = (st', Returned tt) /\
    lastTimestamp (core st') = timestamp Demo.added /\
    router_state (world st') = ∅ /\
    trace (world st') =
      [ELog LInfo "New messages"; ELog LError "Error in message loop";
       ESleep 2000].
Proof.
  destruct (@tick_cursor_persisted_unless_first_write_fails Demo.env
              Demo.storeFailing)
    as [Hsame|[Hpersisted|(rest & st' & _ & _ & Hrun & Hts & Hrs & _ & Htr)]].
  - vm_compute in Hsame. discriminate Hsame.
  - unfold cursor_persisted in Hpersisted. vm_compute in Hpersisted.
    discriminate Hpersisted.
  - exists st'. split; [exact Hrun|]. split; [exact Hts|].
    split; [exact Hrs | exact Htr].
Defined.

(** C7 at work: a store whose cursor map is not JSON. *)
Lemma corrupted_store_loads :
  exists st',
    loadState (H := Demo.env) Demo.corruptedStore = (st', Returned tt) /\
    lastTimestamp (core st') = "2024-01-01T09:00:00.000Z" /\
    lastAgentTimestamp (core st') = ∅ /\
    trace (world st') =
      [ELog LWarn "Corrupted last_agent_timestamp in DB, resetting";
       ELog LInfo "State loaded"].
Proof.
  destruct (@loadState_survives_corrupted_cursors Demo.env
              Demo.corruptedStore eq_refl)
    as (st' & Hrun & Hts & _ & _ & Hbad).
  destruct (Hbad "{oops") as [Hempty Htr].
  - vm_compute. reflexivity.
  - reflexivity.
  - vm_compute. reflexivity.
  - exists st'. split; [exact Hrun|]. split; [rewrite Hts; vm_compute; reflexivity|].
    split; [exact Hempty | exact Htr].
Defined.

(** C10 at work: a chat nobody registered is ignored; a chat nobody
    registered whose id is "constructor" is not: the store is asked for
    its backlog, and the failure of the store ends the call. *)
Lemma constructor_reaches_the_store :
  processGroupMessages (H := Demo.env) Demo.answeredThenFailed
    "stranger@g.us" Demo.pending = (Demo.pending, Returned true) /\
  processGroupMessages (H := Demo.env) Demo.answeredThenFailed
    "constructor" Cases.storeDown =
    (on_world (set_faults []) Cases.storeDown, Thrown "getMessagesSince").
Proof.
  split.
  - apply (@processGroupMessages_unregistered Demo.env
             Demo.answeredThenFailed "stranger@g.us" Demo.pending).
    + vm_compute. reflexivity.
    + apply (bool_decide_eq_false_1 ("stranger@g.us" ∈ inheritedProperties)).
      vm_compute. reflexivity.
  - apply (@processGroupMessages_unregistered Demo.env
             Demo.answeredThenFailed "constructor" Cases.storeDown).
    + vm_compute. reflexivity.
    + left.
    + reflexivity.
Defined.

(** C8 at work: two iterations on a store that rejects the first write. *)
Lemma loop_outlives_store_failure :
  exists st',
    messageLoop [[]; []] Demo.storeFailing = (st', Returned tt) /\
    sleeps (trace (world st')) = 2.
Proof.
  destruct (proj1 (proj2 (@messageLoop_survives_tick_errors Demo.env))
              [[]; []] Demo.storeFailing) as (st' & Hrun & Hs).
  exists st'. split; [exact Hrun | exact Hs].
Defined.

(** C6 (as the code has it) at work: the first answer arms timer 1. *)
Lemma first_answer_arms_the_timer :
  idleTimer
    (locals (onOutput Demo.family
               (Demo.reply StatusSuccess (RString "Pasta.") None)
               Demo.pending).1) = Some 1 /\
  pending_timers
    (world (onOutput Demo.family
              (Demo.reply StatusSuccess (RString "Pasta.") None)
              Demo.pending).1) = {[ 1 := CloseStdinOnIdle Demo.family ]}.
Proof.
  destruct (proj1 (@idle_timer_rearmed_by_outputs_with_result Demo.env
                     Demo.family
                     (Demo.reply StatusSuccess (RString "Pasta.") None)
                     Demo.pending) eq_refl) as (Ht & _ & Hp).
  split; [exact Ht | exact Hp].
Defined.

(** C2 as stated fails: the group's cursor is already at the only stored
    message, so the backlog is empty, and the tick pipes the batch it
    fetched from the empty global cursor. *)
Lemma forwarded_text_is_not_the_backlog :
  backlog (H := Demo.env) Demo.family Demo.cursorAhead = [] /\
  trace (world Demo.cursorAhead) = [] /\
  trace (world (tick (H := Demo.env) Demo.cursorAhead).1) !! 3 =
    Some (EQueueSendMessage Demo.family
            (Demo.format_messages [Demo.asked]) true) /\
  Demo.format_messages [Demo.asked] <>
    formatMessages (backlog (H := Demo.env) Demo.family Demo.cursorAhead).
Proof.
  split; [vm_compute; reflexivity|]. split; [reflexivity|].
  split; [vm_compute; reflexivity|]. vm_compute. discriminate.
Qed.

(** C4 as stated fails: the store rejects the write, nothing is persisted,
    and the global cursor the next tick reads has moved from the empty
    string to the newest fetched timestamp. *)
Lemma failed_write_leaves_cursor_advanced :
  faults (world Demo.storeFailing) = [false; true] /\
  lastTimestamp (core Demo.storeFailing) = "" /\
  lastTimestamp (core (tick (H := Demo.env) Demo.storeFailing).1) =
    "2024-01-01T10:05:00.000Z" /\
  router_state (world (tick (H := Demo.env) Demo.storeFailing).1)
    !! "last_timestamp" = None.
Proof. repeat split; vm_compute; reflexivity. Qed.

(** C6 as stated fails: the second output carries a session id and no
    result; the timer set by the first output is neither cleared nor set
    again until the invocation ends. *)
Lemma session_update_leaves_timer_alone :
  idleTimer
    (locals (onOutput (H := Demo.env) Demo.family
               (Demo.reply StatusSuccess RNull (Some "s2")) Demo.pending).1) =
    None /\
  trace
    (world (onOutput (H := Demo.env) Demo.family
              (Demo.reply StatusSuccess RNull (Some "s2")) Demo.pending).1) =
    [] /\
  List.filter Demo.is_timer_event
    (trace
       (world (processGroupMessages (H := Demo.env)
                 Demo.answeredThenSessionUpdate Demo.family Demo.pending).1)) =
    [ESetTimeout 1 1800000; EClearTimeout 1].
Proof. repeat split; vm_compute; reflexivity. Qed.

End Scenarios.

(** * Further properties of the code *)

Ltac unfold_ops ::=
  unfold getRouterState, setRouterState, getAllSessions, getAllRegisteredGroups,
    setSession, getMessagesSince, getNewMessages, getAllTasks, getAllChats,
    channel_sendMessage, channel_setTyping, setTimeout, clearTimeout,
    queue_sendMessage, queue_enqueueMessageCheck, queue_closeStdin,
    queue_registerProcess, set_cursor, setRegisteredGroup, mkdirSync,
    log, emit.

Ltac norm ::=
  cbn [core locals world
       lastTimestamp sessions registeredGroups lastAgentTimestamp
       messageLoopRunning idleTimer hadError outputSentToUser
       router_state db_messages db_sessions db_groups queue_active
       next_timer pending_timers faults trace
       on_core on_locals on_world
       set_lastTimestamp set_sessions set_registeredGroups
       set_lastAgentTimestamp set_messageLoopRunning
       set_idleTimer set_hadError set_outputSentToUser
       set_router_state set_db_messages set_db_sessions set_db_groups
       set_queue_active set_timers set_faults set_trace fst snd].

Ltac norm_all ::=
  cbn [core locals world
       lastTimestamp sessions registeredGroups lastAgentTimestamp
       messageLoopRunning idleTimer hadError outputSentToUser
       router_state db_messages db_sessions db_groups queue_active
       next_timer pending_timers faults trace
       on_core on_locals on_world
       set_lastTimestamp set_sessions set_registeredGroups
       set_lastAgentTimestamp set_messageLoopRunning
       set_idleTimer set_hadError set_outputSentToUser
       set_router_state set_db_messages set_db_sessions set_db_groups
       set_queue_active set_timers set_faults set_trace fst snd] in *.

Ltac leaf_emit :=
  first [ apply emitting_silent; reflexivity
        | apply emitting_one; first [ exact I | reflexivity ] ].

Section Isolation.

Context `{Env}.

(** X1. Whatever the worker does and whatever the store does, a call of
    [processGroupMessages] for one chat leaves the registry, the global
    cursor, the messages table and the cursor of every other chat as they
    were. *)
Theorem processGroupMessages_touches_one_cursor run chatJid st :
  registeredGroups (core (processGroupMessages run chatJid st).1) =
    registeredGroups (core st) /\
  lastTimestamp (core (processGroupMessages run chatJid st).1) =
    lastTimestamp (core st) /\
  db_messages (world (processGroupMessages run chatJid st).1) =
    db_messages (world st) /\
  forall jid,
    jid <> chatJid ->
    lastAgentTimestamp (core (processGroupMessages run chatJid st).1) !! jid =
    lastAgentTimestamp (core st) !! jid.
Proof.
  pose (m := processGroupMessages run chatJid).
  assert (H1 : preserves (same_on (fun s => registeredGroups (core s))) m);
    [|assert (H2 : preserves (same_on (fun s => lastTimestamp (core s))) m);
      [|assert (H3 : preserves (same_on (fun s => db_messages (world s))) m);
        [|assert (H4 : forall jid, jid <> chatJid ->
                    preserves
                      (same_on (fun s => lastAgentTimestamp (core s) !! jid))
                      m);
          [intros jid Hne|]]]].
  1-4: subst m;
       unfold processGroupMessages, runAgent, runContainerAgent,
         storeNewSession, onOutput, resetIdleTimer, fireTimer,
         runTimerCallback, saveState, lastTimestampOf;
       cbn [fmap option_fmap option_map]; unfold_ops;
       frame_with leaf_same.
  split; [exact (H1 st)|]. split; [exact (H2 st)|]. split; [exact (H3 st)|].
  intros jid Hne. exact (H4 jid Hne st).
Qed.

End Isolation.

Section Outcomes.

Context `{Env}.

(** X2. On a reachable store, a dispatched invocation that does not fail
    answers true and leaves the group's cursor, in memory and in the
    store, at the timestamp of the newest backlog message. *)
Theorem successful_invocation_keeps_advance run chatJid group st :
  registeredGroups (core st) !! chatJid = Some group ->
  faults (world st) = [] ->
  backlog chatJid st <> [] ->
  needsTrigger group && negb (hasTrigger (backlog chatJid st)) = false ->
  run_failed run = false ->
  exists st' newest,
    last (backlog chatJid st) = Some newest /\
    processGroupMessages run chatJid st = (st', Returned true) /\
    lastAgentTimestamp (core st') =
      <[chatJid := timestamp newest]> (lastAgentTimestamp (core st)) /\
    router_state (world st') !! "last_agent_timestamp" =
      Some (JSON_stringify (lastAgentTimestamp (core st'))).
Proof.
  intros Hreg Hf Hne Hgate Hok.
  destruct (processGroupMessages_spec run chatJid group st Hreg Hf Hne Hgate)
    as (st' & newest & evs & Hlast & Hrun & Hcur & Hrs & _).
  rewrite Hok in Hrun, Hcur. cbn [negb orb andb] in Hrun, Hcur.
  exists st', newest. auto.
Qed.

(** X3. With nothing in the backlog of a registered group, on a reachable
    store, [processGroupMessages] answers true and changes nothing: no
    cursor moves, nothing is written, no worker is started. *)
Theorem empty_backlog_is_a_no_op run chatJid group st :
  registeredGroups (core st) !! chatJid = Some group ->
  faults (world st) = [] ->
  backlog chatJid st = [] ->
  processGroupMessages run chatJid st = (st, Returned true).
Proof.
  intros Hreg Hf Hempty. unfold processGroupMessages.
  rewrite bind_gets, (groupOf_registered _ _ _ Hreg). exec.
  fold (backlog chatJid st).
  rewrite bool_decide_eq_true_2 by exact Hempty. reflexivity.
Qed.

(** X4. A store that fails right after the cursor was advanced leaves
    the advance in memory: when the first write of [saveState] throws,
    [processGroupMessages] ends by that exception with the group's cursor
    at the newest backlog message, nothing persisted, nothing emitted and
    no worker started; the rollback is never reached. *)
Theorem failed_persist_is_not_rolled_back run chatJid group st rest :
  registeredGroups (core st) !! chatJid = Some group ->
  faults (world st) = false :: true :: rest ->
  backlog chatJid st <> [] ->
  needsTrigger group && negb (hasTrigger (backlog chatJid st)) = false ->
  exists st' newest,
    last (backlog chatJid st) = Some newest /\
    processGroupMessages run chatJid st = (st', Thrown "setRouterState") /\
    lastAgentTimestamp (core st') =
      <[chatJid := timestamp newest]> (lastAgentTimestamp (core st)) /\
    router_state (world st') = router_state (world st) /\
    trace (world st') = trace (world st).
Proof.
  intros Hreg Hf Hne Hgate.
  destruct (last (backlog chatJid st)) as [newest|] eqn:Elast.
  2: { apply last_None in Elast. contradiction. }
  unfold processGroupMessages.
  rewrite bind_gets, (groupOf_registered _ _ _ Hreg).
  unfold saveState, lastTimestampOf. unfold_ops. repeat step.
  rewrite (bind_external_passes _ _ _ _ Hf). repeat step. norm.
  fold (backlog chatJid st).
  rewrite bool_decide_eq_false_2 by exact Hne. rewrite Hgate.
  unfold cursorOf at 1. norm. fold (cursorOf chatJid st).
  fold (backlog chatJid st). rewrite Elast. repeat step.
  rewrite bind_external_fails with (rest := rest) by reflexivity.
  eexists _, newest. split; [reflexivity|]. split; [reflexivity|]. norm.
  repeat split.
Qed.

(** X5. Nor is a failure of the snapshot reads rolled back: when the
    store accepts the cursor writes and then fails the read of the tasks
    in [runAgent], which stands before its try block,
    [processGroupMessages] ends by that exception with the cursor advanced
    in memory and in the store, the typing signal still on and no worker
    started. *)
Theorem failed_snapshot_is_not_rolled_back run chatJid group st rest :
  registeredGroups (core st) !! chatJid = Some group ->
  faults (world st) = false :: false :: false :: true :: rest ->
  backlog chatJid st <> [] ->
  needsTrigger group && negb (hasTrigger (backlog chatJid st)) = false ->
  exists st' newest,
    last (backlog chatJid st) = Some newest /\
    processGroupMessages run chatJid st = (st', Thrown "getAllTasks") /\
    lastAgentTimestamp (core st') =
      <[chatJid := timestamp newest]> (lastAgentTimestamp (core st)) /\
    router_state (world st') !! "last_agent_timestamp" =
      Some (JSON_stringify (lastAgentTimestamp (core st'))) /\
    trace (world st') =
      (trace (world st) ++
       [ESetRouterState "last_timestamp" (lastTimestamp (core st));
        ESetRouterState "last_agent_timestamp"
          (JSON_stringify
             (<[chatJid := timestamp newest]> (lastAgentTimestamp (core st))));
        ELog LInfo "Processing messages";
        EChannelSetTyping chatJid true])%list.
Proof.
  intros Hreg Hf Hne Hgate.
  destruct (last (backlog chatJid st)) as [newest|] eqn:Elast.
  2: { apply last_None in Elast. contradiction. }
  unfold processGroupMessages.
  rewrite bind_gets, (groupOf_registered _ _ _ Hreg).
  unfold saveState, lastTimestampOf, runAgent. unfold_ops. repeat step.
  rewrite (bind_external_passes _ _ _ _ Hf). repeat step. norm.
  fold (backlog chatJid st).
  rewrite bool_decide_eq_false_2 by exact Hne. rewrite Hgate.
  unfold cursorOf at 1. norm. fold (cursorOf chatJid st).
  fold (backlog chatJid st). rewrite Elast. repeat step.
  rewrite bind_external_passes with (rest := false :: true :: rest)
    by reflexivity.
  repeat step.
  rewrite bind_external_passes with (rest := true :: rest) by reflexivity.
  repeat step.
  rewrite bind_external_fails with (rest := rest) by reflexivity.
  eexists _, newest. split; [reflexivity|]. split; [reflexivity|]. norm.
  split; [reflexivity|]. split; [apply lookup_insert_eq|].
  rewrite <- !app_assoc. reflexivity.
Qed.

End Outcomes.

(** ** Session ids announced by the worker *)

Section Sessions.

Context `{Env}.

Lemma storeNewSession_announce groupFolder output st :
  faults (world st) = [] ->
  sessions (core (storeNewSession groupFolder output st).1) =
    announce groupFolder output (sessions (core st)) /\
  db_sessions (world (storeNewSession groupFolder output st).1) =
    announce groupFolder output (db_sessions (world st)).
Proof.
  intros Hf. unfold storeNewSession, announce.
  destruct (truthy_opt (newSessionId output)); exec; split; reflexivity.
Qed.

Lemma onOutput_keeps_sessions chatJid output :
  preserves (same_on (fun s => sessions (core s))) (onOutput chatJid output) /\
  preserves (same_on (fun s => db_sessions (world s)))
    (onOutput chatJid output).
Proof.
  split; unfold onOutput, resetIdleTimer; unfold_ops; frame_with leaf_same.
Qed.

Lemma steps_announce group chatJid steps : forall st,
  faults (world st) = [] ->
  let st' :=
    (for_each steps (fun step =>
       match step with
       | StepSpawn containerName =>
           queue_registerProcess chatJid containerName (folder group)
       | StepOutput output =>
           storeNewSession (folder group) output ;; onOutput chatJid output
       | StepTimerFires handle => fireTimer handle
       end) st).1 in
  sessions (core st') =
    foldl (fun t step =>
             match step with
             | StepOutput output => announce (folder group) output t
             | _ => t
             end) (sessions (core st)) steps /\
  db_sessions (world st') =
    foldl (fun t step =>
             match step with
             | StepOutput output => announce (folder group) output t
             | _ => t
             end) (db_sessions (world st)) steps.
Proof.
  induction steps as [|step steps IH]; intros st Hf; cbn [for_each foldl].
  - split; reflexivity.
  - destruct (step_effect group chatJid step st Hf) as (st1 & e1 & Hrun1 & Heff1).
    rewrite (bind_returned _ _ _ _ _ Hrun1).
    destruct (IH st1) as [Hs Hd]; [apply Heff1|]. cbv zeta in Hs, Hd.
    cbv zeta. rewrite Hs, Hd. clear Hs Hd IH.
    assert (Hst1 : st1 = (match step with
       | StepSpawn containerName =>
           queue_registerProcess chatJid containerName (folder group)
       | StepOutput output =>
           storeNewSession (folder group) output ;; onOutput chatJid output
       | StepTimerFires handle => fireTimer handle
       end st).1) by (rewrite Hrun1; reflexivity).
    destruct step as [containerName|output|handle].
    + rewrite Hst1. split; reflexivity.
    + destruct (storeNewSession_effect (folder group) output st Hf)
        as (st0 & e0 & Hrun0 & Heff0).
      rewrite (bind_returned _ _ _ _ _ Hrun0) in Hst1.
      destruct (storeNewSession_announce (folder group) output st Hf)
        as [Ha Hb].
      rewrite Hrun0 in Ha, Hb. cbn [fst] in Ha, Hb.
      rewrite <- Ha, <- Hb, Hst1.
      destruct (onOutput_keeps_sessions chatJid output) as [Hk1 Hk2].
      split; f_equal; [apply Hk1 | apply Hk2].
    + rewrite Hst1. unfold fireTimer. rewrite bind_gets.
      destruct (pending_timers (world st) !! handle) as [[jid]|];
        split; reflexivity.
Qed.

(** X6. On a reachable store, [runAgent] returns the status of the run
    and has recorded, in memory and in the sessions table, every session
    id the worker announced, streamed or final, whatever the status of
    the output that carried it; the last one announced is the one the
    next invocation of the group resumes. *)
Theorem runAgent_stores_announced_sessions run group prompt chatJid st :
  faults (world st) = [] ->
  exists st',
    runAgent run group prompt chatJid (Some (onOutput chatJid)) st =
      (st', Returned (agent_status run)) /\
    sessions (core st') =
      announced (folder group) run (sessions (core st)) /\
    db_sessions (world st') =
      announced (folder group) run (db_sessions (world st)).
Proof.
  intros Hf.
  destruct (runAgent_effect run group prompt chatJid st Hf)
    as (st' & evs & Hrun & _).
  exists st'. split; [exact Hrun|].
  assert (Est : st' = (runAgent run group prompt chatJid
                         (Some (onOutput chatJid)) st).1)
    by (rewrite Hrun; reflexivity).
  clear Hrun. subst st'.
  unfold runAgent, runContainerAgent, announced.
  cbn [fmap option_fmap option_map].
  unfold getAllTasks, getAllChats, emit. repeat step. norm.
  match goal with
  | |- context [ bind (for_each _ _) _ ?s ] => set (st0 := s)
  end.
  destruct (steps_effect group chatJid (steps run) st0 Hf)
    as (st1 & e1 & Hrun1 & Heff1).
  destruct (steps_announce group chatJid (steps run) st0 Hf) as [Hs Hd].
  rewrite Hrun1 in Hs, Hd. cbn [fst] in Hs, Hd.
  change (sessions (core st0)) with (sessions (core st)) in Hs.
  change (db_sessions (world st0)) with (db_sessions (world st)) in Hd.
  rewrite (bind_returned _ _ _ _ _ Hrun1).
  assert (Hf1 : faults (world st1) = []) by apply Heff1.
  rewrite <- Hs, <- Hd.
  destruct (final run) as [output|].
  - repeat step.
    destruct (storeNewSession_effect (folder group) output st1 Hf1)
      as (st2 & e2 & Hrun2 & Heff2).
    destruct (storeNewSession_announce (folder group) output st1 Hf1)
      as [Ha Hb].
    rewrite Hrun2 in Ha, Hb. cbn [fst] in Ha, Hb.
    rewrite (bind_returned _ _ _ _ _ Hrun2), <- Ha, <- Hb.
    destruct (status output); exec; split; reflexivity.
  - exec. split; reflexivity.
Qed.

End Sessions.

(** ** The idle timer of an invocation *)

Ltac leaf_timers :=
  unfold keeping, timers_within; norm;
  let HI := fresh "HI" in
  let h := fresh "h" in
  let Hh := fresh "Hh" in
  intros HI h Hh;
  first [ apply HI; exact Hh
        | apply dom_delete, elem_of_difference in Hh as [Hh _];
          apply HI; exact Hh ].

Section IdleTimer.

Context `{Env}.

Lemma resetIdleTimer_within known chatJid :
  preserves (keeping (timers_within known)) (resetIdleTimer chatJid).
Proof.
  intros st HI. unfold resetIdleTimer.
  destruct (idleTimer (locals st)) as [old|] eqn:Eo; exec; rewrite Eo; exec;
    intros h Hh; norm_all.
  - apply dom_insert, elem_of_union in Hh as [Hh|Hh].
    + apply elem_of_singleton in Hh as ->. right. reflexivity.
    + apply dom_delete, elem_of_difference in Hh as [Hh Hne].
      destruct (HI h Hh) as [Hk|Hi]; [left; exact Hk|].
      rewrite Eo in Hi. injection Hi as ->.
      exfalso. apply Hne, elem_of_singleton. reflexivity.
  - apply dom_insert, elem_of_union in Hh as [Hh|Hh].
    + apply elem_of_singleton in Hh as ->. right. reflexivity.
    + destruct (HI h Hh) as [Hk|Hi]; [left; exact Hk|].
      rewrite Eo in Hi. discriminate Hi.
Qed.

Lemma guarded_run_within known run group prompt sessionId chatJid :
  preserves (keeping (timers_within known))
    (try_catch
       (output <- runContainerAgent run prompt sessionId (folder group) chatJid
                    (bool_decide (folder group = MAIN_GROUP_FOLDER))
                    (fun containerName =>
                       queue_registerProcess chatJid containerName
                         (folder group))
                    (Some (fun output =>
                       storeNewSession (folder group) output ;;
                       onOutput chatJid output)) ;;
        storeNewSession (folder group) output ;;
        match status output with
        | StatusError => log LError "Container agent error" ;; ret StatusError
        | StatusSuccess => ret StatusSuccess
        end)
       (fun _ => log LError "Agent error" ;; ret StatusError)).
Proof.
  unfold runContainerAgent, storeNewSession, onOutput, fireTimer,
    runTimerCallback.
  pose proof (resetIdleTimer_within known chatJid) as Hreset. revert Hreset.
  generalize (resetIdleTimer chatJid). intros reset Hreset.
  unfold_ops. frame_with leaf_timers; exact Hreset.
Qed.

Lemma guarded_run_returns {A} (body : M A) (fallback : string -> M A) st :
  (forall err s, exists s' a, fallback err s = (s', Returned a)) ->
  exists st' a, try_catch body fallback st = (st', Returned a).
Proof.
  intros Hh. rewrite run_try_catch.
  destruct (body st) as [st1 [a|err]]; [eauto | apply Hh].
Qed.

Lemma guarded_run_trace run group prompt sessionId chatJid :
  preserves (emitting (fun _ => True))
    (try_catch
       (output <- runContainerAgent run prompt sessionId (folder group) chatJid
                    (bool_decide (folder group = MAIN_GROUP_FOLDER))
                    (fun containerName =>
                       queue_registerProcess chatJid containerName
                         (folder group))
                    (Some (fun output =>
                       storeNewSession (folder group) output ;;
                       onOutput chatJid output)) ;;
        storeNewSession (folder group) output ;;
        match status output with
        | StatusError => log LError "Container agent error" ;; ret StatusError
        | StatusSuccess => ret StatusSuccess
        end)
       (fun _ => log LError "Agent error" ;; ret StatusError)).
Proof.
  unfold runContainerAgent, storeNewSession, onOutput, resetIdleTimer,
    fireTimer, runTimerCallback. unfold_ops.
  frame_with leaf_emit.
Qed.

Lemma quiet_trace_is_cleared chatJid evs :
  Forall (fun e => is_worker_start e = false) evs ->
  typing_cleared_after_start chatJid evs.
Proof.
  intros Hquiet before e after -> Hstart.
  apply Forall_app in Hquiet as [_ Hquiet].
  apply Forall_cons in Hquiet as [He _]. congruence.
Qed.

Lemma cleared_trace_shape chatJid during after_run :
  Forall (fun e => is_worker_start e = false) after_run ->
  typing_cleared_after_start chatJid
    (during ++ EChannelSetTyping chatJid false :: after_run).
Proof.
  intros Hquiet. induction during as [|a during IH];
    intros before e after Heq Hstart.
  - exfalso. cbn [app] in Heq.
    assert (Hall : Forall (fun e => is_worker_start e = false)
                     (EChannelSetTyping chatJid false :: after_run))
      by (apply Forall_cons; split; [reflexivity | exact Hquiet]).
    rewrite Heq in Hall. apply Forall_app in Hall as [_ Hall].
    apply Forall_cons in Hall as [He _]. congruence.
  - destruct before as [|b before]; cbn [app] in Heq.
    + injection Heq as _ <-. apply elem_of_app. right. left.
    + injection Heq as _ Heq. exact (IH _ _ _ Heq Hstart).
Qed.

Ltac quiet_exit :=
  split;
  [ norm; reflexivity
  | eexists; split;
    [ norm; first [ symmetry; apply app_nil_r
                  | rewrite <- ?app_assoc; reflexivity ]
    | apply quiet_trace_is_cleared; repeat constructor ] ].

(** X7. However the worker behaves and whatever the store does, when
    [processGroupMessages] is over, by a value or by an exception, it has
    cleaned up after itself: no timer is pending that was not pending
    before the call, the idle timer it armed being cleared on every path,
    and a worker that was started has been followed by the typing signal
    going off. *)
Theorem processGroupMessages_cleans_up run chatJid st :
  dom (pending_timers (world (processGroupMessages run chatJid st).1)) ⊆
    dom (pending_timers (world st)) /\
  exists evs,
    trace (world (processGroupMessages run chatJid st).1) =
      (trace (world st) ++ evs)%list /\
    typing_cleared_after_start chatJid evs.
Proof.
  unfold processGroupMessages. rewrite bind_gets.
  destruct (groupOf chatJid st) as [group|];
    [|quiet_exit].
  unfold saveState, lastTimestampOf, runAgent.
  cbn [fmap option_fmap option_map]. unfold_ops. repeat step.
  on_call; [|quiet_exit].
  repeat step. norm.
  case_bool_decide; [quiet_exit|].
  destruct (needsTrigger group && negb _); [quiet_exit|].
  destruct (last _) as [newest|]; [|repeat step; quiet_exit].
  repeat step. norm. on_call; [|quiet_exit].
  repeat step. norm. on_call; [|quiet_exit].
  repeat step. norm. on_call; [|quiet_exit].
  repeat step. norm. on_call; [|quiet_exit].
  repeat (first [ rewrite bind_bind | rewrite bind_ret | rewrite bind_gets
                | rewrite bind_modify ]; cbv beta iota).
  match goal with
  | |- context [ bind (try_catch ?body ?fallback) ?k ?s ] =>
      destruct (guarded_run_returns body fallback s) as (s1 & out & Erun);
        [ intros err s'; eexists _, _; exec; reflexivity |];
      pose proof (guarded_run_within (dom (pending_timers (world st)))
                    run group
                    (formatMessages
                       (select_messages_since (db_messages (world st)) chatJid
                          (cursorOf chatJid st) ASSISTANT_NAME))
                    (sessions (core st) !! folder group) chatJid s) as HK;
      pose proof (guarded_run_trace run group
                    (formatMessages
                       (select_messages_since (db_messages (world st)) chatJid
                          (cursorOf chatJid st) ASSISTANT_NAME))
                    (sessions (core st) !! folder group) chatJid s) as HT;
      rewrite (bind_returned _ _ _ _ _ Erun)
  end.
  unfold keeping in HK.
  match type of Erun with
  | ?m ?s = _ =>
      change (timers_within (dom (pending_timers (world st))) s ->
              timers_within (dom (pending_timers (world st))) (m s).1) in HK;
      change (emitting (fun _ => True) s (m s).1) in HT;
      rewrite Erun in HK, HT
  end.
  cbn [fst] in HK, HT.
  assert (Hwithin : timers_within (dom (pending_timers (world st))) s1).
  { apply HK. intros h Hh. left. exact Hh. }
  destruct HT as (during & Hduring & _). norm_all.
  clear HK Erun.
  assert (Hsettled :
            forall s2 cleared,
              dom (pending_timers (world s2)) ⊆ dom (pending_timers (world st)) ->
              Forall (fun e => is_worker_start e = false) cleared ->
              trace (world s2) =
                (trace (world s1) ++
                 EChannelSetTyping chatJid false :: cleared)%list ->
              forall tail : M bool,
                preserves (same_on (fun s => pending_timers (world s))) tail ->
                preserves (emitting (fun e => is_worker_start e = false))
                  tail ->
                dom (pending_timers (world (tail s2).1)) ⊆
                  dom (pending_timers (world st)) /\
                exists evs,
                  trace (world (tail s2).1) = (trace (world st) ++ evs)%list /\
                  typing_cleared_after_start chatJid evs).
  { intros s2 cleared Hs2 Hquiet Htrace tail Htimers Hemits. split.
    - rewrite (Htimers s2). exact Hs2.
    - destruct (Hemits s2) as (later & Hlater & Hquiet').
      eexists. split.
      + rewrite Hlater, Htrace, Hduring, <- !app_assoc. cbn [app].
        reflexivity.
      + rewrite !app_comm_cons, !app_assoc.
        rewrite <- app_assoc.
        match goal with
        | |- typing_cleared_after_start _ (?A ++ ?B ++ ?C)%list =>
            change (typing_cleared_after_start chatJid
                      (A ++ EChannelSetTyping chatJid false ::
                         (cleared ++ later))%list)
        end.
        apply cleared_trace_shape, Forall_app. split; assumption. }
  repeat step. norm.
  destruct (idleTimer (locals s1)) as [handle|] eqn:Ei; repeat step; norm.
  - apply Hsettled with (cleared := [EClearTimeout handle]).
    + norm. intros h Hh.
      apply dom_delete, elem_of_difference in Hh as [Hh Hne].
      destruct (Hwithin h Hh) as [Hk|Hi]; [exact Hk|].
      exfalso. apply Hne, elem_of_singleton. congruence.
    + repeat constructor.
    + norm. rewrite <- app_assoc. reflexivity.
    + frame_with leaf_same.
    + frame_with ltac:(first [ apply emitting_silent; reflexivity
                             | apply emitting_one; reflexivity ]).
  - apply Hsettled with (cleared := []).
    + norm. intros h Hh.
      destruct (Hwithin h Hh) as [Hk|Hi]; [exact Hk | congruence].
    + constructor.
    + norm. reflexivity.
    + frame_with leaf_same.
    + frame_with ltac:(first [ apply emitting_silent; reflexivity
                             | apply emitting_one; reflexivity ]).
Qed.

End IdleTimer.

(** ** What the dispatch loop leaves alone *)

Section LoopSteps.

Context `{Env}.

Lemma messageLoop_preserves (R : relation State) `{!PreOrder R} :
  (forall stored,
     preserves R
       (modify (on_world (fun w =>
          set_db_messages (db_messages w ++ stored)%list w)))) ->
  preserves R tick ->
  forall arrivals, preserves R (messageLoop arrivals).
Proof.
  intros Hstore Htick. induction arrivals as [|stored later IH];
    cbn [messageLoop].
  - apply preserves_ret. assumption.
  - apply preserves_bind; [assumption | apply Hstore | intros _].
    apply preserves_bind; [assumption | exact Htick | intros _; exact IH].
Qed.

End LoopSteps.

Ltac loop_frame leaf :=
  unfold startMessageLoop;
  frame_with leaf;
  (apply messageLoop_preserves;
   [ typeclasses eauto
   | intros ?; frame_with leaf
   | unfold tick, tickBody, dispatchGroup, saveState, lastTimestampOf;
     unfold_ops; frame_with leaf ]).

Ltac leaf_keep :=
  unfold keeping; norm;
  first [ intros _; reflexivity | intros Hkeep; exact Hkeep ].

Section LoopFrame.

Context `{Env}.

(** X8. Whatever the store does and whatever arrives, the dispatch loop
    started by [startMessageLoop] keeps to its own business: it changes
    neither the sessions, in memory or in the store, nor the set of
    registered groups, nor a timer, nor the queue's active invocations, nor
    the variables of a running invocation; it never starts a worker and
    never sends a message to a user, all it emits are log lines, writes of
    the cursors, calls to the queue, the typing signal and its sleeps; and
    once it was started the loop stays marked as running. *)
Theorem startMessageLoop_only_dispatches arrivals st :
  sessions (core (startMessageLoop arrivals st).1) = sessions (core st) /\
  registeredGroups (core (startMessageLoop arrivals st).1) =
    registeredGroups (core st) /\
  db_sessions (world (startMessageLoop arrivals st).1) =
    db_sessions (world st) /\
  db_groups (world (startMessageLoop arrivals st).1) = db_groups (world st) /\
  pending_timers (world (startMessageLoop arrivals st).1) =
    pending_timers (world st) /\
  queue_active (world (startMessageLoop arrivals st).1) =
    queue_active (world st) /\
  locals (startMessageLoop arrivals st).1 = locals st /\
  emitting loop_event st (startMessageLoop arrivals st).1 /\
  messageLoopRunning (core (startMessageLoop arrivals st).1) = true.
Proof.
  assert (H1 : preserves (same_on (fun s => sessions (core s)))
                 (startMessageLoop arrivals)) by loop_frame leaf_same.
  assert (H2 : preserves (same_on (fun s => registeredGroups (core s)))
                 (startMessageLoop arrivals)) by loop_frame leaf_same.
  assert (H3 : preserves (same_on (fun s => db_sessions (world s)))
                 (startMessageLoop arrivals)) by loop_frame leaf_same.
  assert (H4 : preserves (same_on (fun s => db_groups (world s)))
                 (startMessageLoop arrivals)) by loop_frame leaf_same.
  assert (H5 : preserves (same_on (fun s => pending_timers (world s)))
                 (startMessageLoop arrivals)) by loop_frame leaf_same.
  assert (H6 : preserves (same_on (fun s => queue_active (world s)))
                 (startMessageLoop arrivals)) by loop_frame leaf_same.
  assert (H7 : preserves (same_on locals) (startMessageLoop arrivals))
    by loop_frame leaf_same.
  assert (H8 : preserves (emitting loop_event) (startMessageLoop arrivals))
    by loop_frame leaf_emit.
  do 7 (split; [first [ exact (H1 st) | exact (H2 st) | exact (H3 st)
                      | exact (H4 st) | exact (H5 st) | exact (H6 st)
                      | exact (H7 st) ]|]).
  split; [exact (H8 st)|].
  unfold startMessageLoop. rewrite bind_gets.
  destruct (messageLoopRunning (core st)) eqn:Erunning.
  - exec. exact Erunning.
  - exec.
    assert (Hk : preserves
                   (keeping (fun s => messageLoopRunning (core s) = true))
                   (messageLoop arrivals)).
    { apply messageLoop_preserves;
        [ typeclasses eauto
        | intros ?; frame_with leaf_keep
        | unfold tick, tickBody, dispatchGroup, saveState, lastTimestampOf;
          unfold_ops; frame_with leaf_keep ]. }
    apply Hk. reflexivity.
Qed.

End LoopFrame.

(** ** A tick on a reachable store *)

Section TickRuns.

Context `{Env}.

(** X9. On a reachable store, a tick that fetches nothing does nothing
    but sleep: no cursor moves and nothing is written. *)
Theorem tick_without_news_only_sleeps st :
  faults (world st) = [] ->
  fetched st = [] ->
  tick st =
    (on_world (fun w => set_trace (trace w ++ [ESleep POLL_INTERVAL])%list w)
       st,
     Returned tt).
Proof.
  intros Hf Hnone. unfold fetched in Hnone.
  unfold tick, tickBody. exec.
  destruct (select_new_messages _ _ _ _) as [messages newTimestamp].
  cbn [fst] in Hnone. subst messages. cbv beta iota.
  rewrite bool_decide_eq_true_2 by reflexivity. exec. reflexivity.
Qed.

Lemma push_message_inhabited msg groups :
  Forall (fun entry => entry.2 <> []) groups ->
  Forall (fun entry => entry.2 <> []) (push_message msg groups).
Proof.
  induction groups as [|[jid existing] rest IH]; intros Hall;
    cbn [push_message].
  - apply Forall_cons. split; [discriminate | constructor].
  - apply Forall_cons in Hall as [Hhead Hrest]. case_bool_decide.
    + apply Forall_cons. split; [|exact Hrest]. cbn [snd].
      intros E. apply app_eq_nil in E as [_ E]. discriminate E.
    + apply Forall_cons. split; [exact Hhead | apply IH; exact Hrest].
Qed.

Lemma messagesByGroup_inhabited src :
  Forall (fun entry => entry.2 <> []) (messagesByGroup src).
Proof.
  unfold messagesByGroup.
  assert (Hgen : forall groups,
             Forall (fun entry => entry.2 <> []) groups ->
             Forall (fun entry : string * list NewMessage => entry.2 <> [])
               (fold_left (fun groups msg => push_message msg groups) src
                  groups)).
  { induction src as [|msg src IH]; intros groups Hall; cbn [fold_left].
    - exact Hall.
    - apply IH, push_message_inhabited, Hall. }
  apply Hgen. constructor.
Qed.

Lemma saveState_run st :
  faults (world st) = [] ->
  saveState st =
    (on_world (fun w =>
       set_trace
         (trace w ++
          [ESetRouterState "last_timestamp" (lastTimestamp (core st));
           ESetRouterState "last_agent_timestamp"
             (JSON_stringify (lastAgentTimestamp (core st)))])%list
         (set_router_state
            (<["last_agent_timestamp" :=
                 JSON_stringify (lastAgentTimestamp (core st))]>
               (<["last_timestamp" := lastTimestamp (core st)]>
                  (router_state w))) w)) st,
     Returned tt).
Proof.
  intros Hf. unfold saveState. exec. f_equal. destruct st as [c l w].
  unfold on_world. norm. f_equal. unfold set_trace, set_router_state. norm.
  rewrite <- app_assoc. reflexivity.
Qed.

Lemma dispatchGroup_run chatJid batch st :
  faults (world st) = [] ->
  batch <> [] ->
  exists st' evs,
    dispatchGroup (chatJid, batch) st = (st', Returned tt) /\
    trace (world st') = (trace (world st) ++ evs)%list /\
    faults (world st') = [] /\
    queue_active (world st') = queue_active (world st) /\
    lastTimestamp (core st') = lastTimestamp (core st) /\
    (synced st -> synced st') /\
    (passesTrigger chatJid batch st ->
     piped_or_enqueued chatJid batch st st' evs).
Proof.
  intros Hf Hbatch. unfold dispatchGroup. rewrite bind_gets.
  destruct (registeredGroups (core st) !! chatJid) as [group|] eqn:Eg.
  2: { exists st, []. rewrite app_nil_r. repeat (split; [auto; fail|]).
       intros (group & Hsome & _). congruence. }
  destruct (needsTrigger group && negb (hasTrigger batch)) eqn:Egate.
  { exists st, []. rewrite app_nil_r. repeat (split; [auto; fail|]).
    intros (group' & Hsome & Hpass). congruence. }
  unfold piped_or_enqueued, messagesToSend.
  exec. fold (backlog chatJid st).
  destruct (bool_decide (chatJid ∈ queue_active (world st))) eqn:Eactive;
    cbv beta iota.
  - set (toSend := if bool_decide (backlog chatJid st = []) then batch
                   else backlog chatJid st).
    destruct (last toSend) as [newest|] eqn:Elast.
    2: { apply last_None in Elast. subst toSend.
         case_bool_decide; congruence. }
    unfold lastTimestampOf. rewrite Elast. exec.
    rewrite bind_returned with (st' := _) (a := tt)
      by (apply saveState_run; norm; exact Hf).
    exec. eexists _, _. split; [reflexivity|]. norm.
    split; [rewrite <- !app_assoc; reflexivity|].
    split; [exact Hf|]. split; [reflexivity|]. split; [reflexivity|].
    split.
    + intros _. split; norm.
      * rewrite lookup_insert_ne by discriminate. apply lookup_insert_eq.
      * apply lookup_insert_eq.
    + intros _. exists newest. split; [reflexivity|].
      split; [apply lookup_insert_eq|]. cbn [app]. left.
  - exec. eexists _, _. split; [reflexivity|]. norm.
    split; [rewrite <- !app_assoc; reflexivity|].
    split; [exact Hf|]. split; [reflexivity|]. split; [reflexivity|].
    split; [trivial|]. intros _. split; [reflexivity|].
    cbn [app]. right. left.
Qed.

Lemma messagesToSend_transport chatJid batch st st' :
  db_messages (world st') = db_messages (world st) ->
  lastAgentTimestamp (core st') !! chatJid =
    lastAgentTimestamp (core st) !! chatJid ->
  messagesToSend chatJid batch st' = messagesToSend chatJid batch st.
Proof.
  intros Hm Hc. unfold messagesToSend, backlog, cursorOf.
  rewrite Hm, Hc. reflexivity.
Qed.

Lemma dispatch_loop_run entries : forall st,
  faults (world st) = [] ->
  NoDup entries.*1 ->
  Forall (fun entry => entry.2 <> []) entries ->
  exists st' evs,
    for_each entries dispatchGroup st = (st', Returned tt) /\
    trace (world st') = (trace (world st) ++ evs)%list /\
    faults (world st') = [] /\
    queue_active (world st') = queue_active (world st) /\
    lastTimestamp (core st') = lastTimestamp (core st) /\
    (synced st -> synced st') /\
    (forall jid batch,
       (jid, batch) ∈ entries ->
       passesTrigger jid batch st ->
       piped_or_enqueued jid batch st st' evs).
Proof.
  induction entries as [|[chatJid batch] rest IH]; intros st Hf Hnd Hall;
    cbn [for_each].
  - exists st, []. rewrite app_nil_r. repeat (split; [auto; fail|]).
    intros jid ms Hin. apply elem_of_nil in Hin. contradiction.
  - rewrite fmap_cons in Hnd. apply NoDup_cons in Hnd as [Hfresh Hnd].
    cbn [fst] in Hfresh. apply Forall_cons in Hall as [Hbatch Hall].
    cbn [snd] in Hbatch.
    destruct (dispatchGroup_run chatJid batch st Hf Hbatch)
      as (st1 & e1 & Hrun1 & Ht1 & Hf1 & Hq1 & Hl1 & Hs1 & Hd1).
    destruct (dispatchGroup_spec _ _ _ _ _ Hrun1)
      as (Hg1 & Hm1 & Hc1 & _ & _).
    rewrite (bind_returned _ _ _ _ _ Hrun1).
    destruct (IH st1 Hf1 Hnd Hall)
      as (st2 & e2 & Hrun2 & Ht2 & Hf2 & Hq2 & Hl2 & Hs2 & Hd2).
    destruct (dispatch_loop_spec _ _ _ _ Hnd Hrun2) as (_ & _ & Hc2 & _).
    exists st2, (e1 ++ e2)%list. split; [exact Hrun2|].
    split; [rewrite Ht2, Ht1, app_assoc; reflexivity|].
    split; [exact Hf2|]. split; [congruence|]. split; [congruence|].
    split; [auto|].
    intros jid ms Hin Hpass. apply elem_of_cons in Hin as [[= -> ->]|Hin].
    + specialize (Hd1 Hpass). unfold piped_or_enqueued in *.
      assert (Hkept : lastAgentTimestamp (core st2) !! chatJid =
                      lastAgentTimestamp (core st1) !! chatJid).
      { apply Hc2. intros ms Hin. exfalso. apply Hfresh.
        apply list_elem_of_fmap. exists (chatJid, ms). split; [reflexivity | exact Hin]. }
      destruct (bool_decide (chatJid ∈ queue_active (world st))).
      * destruct Hd1 as (newest & Hlast & Hcur & Hev). exists newest.
        split; [exact Hlast|]. split; [congruence|].
        apply elem_of_app. left. exact Hev.
      * destruct Hd1 as [Hcur Hev]. split; [congruence|].
        apply elem_of_app. left. exact Hev.
    + assert (Hne : jid <> chatJid).
      { intros ->. apply Hfresh. apply list_elem_of_fmap.
        exists (chatJid, ms). split; [reflexivity | exact Hin]. }
      assert (Hpass1 : passesTrigger jid ms st1)
        by (apply (passesTrigger_transport _ _ _ _ Hg1); exact Hpass).
      specialize (Hd2 jid ms Hin Hpass1). unfold piped_or_enqueued in *.
      rewrite Hq1 in Hd2.
      rewrite (messagesToSend_transport jid ms st st1 Hm1 (Hc1 jid Hne)) in Hd2.
      rewrite (Hc1 jid Hne) in Hd2.
      destruct (bool_decide (jid ∈ queue_active (world st))).
      * destruct Hd2 as (newest & Hlast & Hcur & Hev). exists newest.
        split; [exact Hlast|]. split; [exact Hcur|].
        apply elem_of_app. right. exact Hev.
      * destruct Hd2 as [Hcur Hev]. split; [exact Hcur|].
        apply elem_of_app. right. exact Hev.
Qed.

(** X10. On a reachable store, a tick that fetched messages returns with
    the global cursor at the timestamp the fetch reported and with both
    cursors persisted as they are in memory; and for every chat whose
    fetched batch passes the trigger gate it did one of two things: with
    an invocation of the chat accepting input the pending text was piped
    to it and the chat's cursor stands at the newest message sent;
    without one the cursor stayed and the queue was asked to check the
    chat's messages. *)
Theorem tick_pipes_or_enqueues st :
  faults (world st) = [] ->
  fetched st <> [] ->
  exists st' evs,
    tick st = (st', Returned tt) /\
    trace (world st') = (trace (world st) ++ evs)%list /\
    lastTimestamp (core st') =
      (select_new_messages (db_messages (world st))
         (elements (dom (registeredGroups (core st))))
         (lastTimestamp (core st)) ASSISTANT_NAME).2 /\
    synced st' /\
    forall chatJid,
      batchOf chatJid st <> [] ->
      passesTrigger chatJid (batchOf chatJid st) st ->
      piped_or_enqueued chatJid (batchOf chatJid st) st st' evs.
Proof.
  intros Hf Hnews. unfold batchOf, fetched in *.
  unfold tick, tickBody. exec.
  destruct (select_new_messages _ _ _ _) as [messages newTimestamp].
  cbn [fst snd] in *. cbv beta iota.
  rewrite bool_decide_eq_false_2 by exact Hnews. exec.
  rewrite bind_returned with (st' := _) (a := tt)
    by (apply saveState_run; norm; exact Hf).
  norm.
  match goal with
  | |- context [ for_each _ dispatchGroup ?s ] => set (st1 := s)
  end.
  pose proof (messagesByGroup_grouped messages) as (Hnd & Hkeys & Hent).
  destruct (dispatch_loop_run (messagesByGroup messages) st1)
    as (st2 & e2 & Hrun2 & Ht2 & Hf2 & Hq2 & Hl2 & Hs2 & Hd2);
    [exact Hf | exact Hnd | apply messagesByGroup_inhabited |].
  rewrite Hrun2. exec. subst st1. norm_all.
  eexists _, _. split; [reflexivity|]. norm.
  split; [rewrite Ht2; rewrite <- !app_assoc; reflexivity|].
  split; [rewrite Hl2; reflexivity|].
  split.
  { destruct Hs2 as [Hs2a Hs2b].
    - split; norm.
      + rewrite lookup_insert_ne by discriminate. apply lookup_insert_eq.
      + apply lookup_insert_eq.
    - split; assumption. }
  intros chatJid Hbatch Hpass.
  assert (Hin : (chatJid, filter (fun m => chat_jid m = chatJid) messages)
                ∈ messagesByGroup messages).
  { destruct (filter (fun m => chat_jid m = chatJid) messages)
      as [|m ms] eqn:Efilter; [congruence|].
    assert (Hm : m ∈ filter (fun m => chat_jid m = chatJid) messages)
      by (rewrite Efilter; left).
    apply list_elem_of_filter in Hm as [Hjid Hm].
    specialize (Hkeys m Hm). rewrite Hjid in Hkeys.
    apply list_elem_of_fmap in Hkeys as ([jid ms'] & Ejid & Hin').
    cbn [fst] in Ejid. subst jid.
    rewrite <- Efilter, <- (Hent _ _ Hin'). exact Hin'. }
  specialize (Hd2 _ _ Hin Hpass).
  unfold piped_or_enqueued in *. norm_all.
  destruct (bool_decide (chatJid ∈ queue_active (world st))).
  - destruct Hd2 as (newest & Hlast & Hcur & Hev). exists newest.
    split; [exact Hlast|]. split; [exact Hcur|].
    rewrite !elem_of_app. tauto.
  - destruct Hd2 as [Hcur Hev]. split; [exact Hcur|].
    rewrite !elem_of_app. tauto.
Qed.

End TickRuns.

(** ** Grouping, persistence, registration and recovery *)

Section Bookkeeping.

Context `{Env}.

(** X11. [messagesByGroup] partitions what was fetched: the chats of its
    entries are pairwise distinct, and its entries are exactly the
    non-empty per-chat selections of the fetched rows, each in the order
    fetched. *)
Theorem messagesByGroup_partitions src :
  NoDup (messagesByGroup src).*1 /\
  forall jid ms,
    (jid, ms) ∈ messagesByGroup src <->
    ms = filter (fun m => chat_jid m = jid) src /\ ms <> [].
Proof.
  pose proof (messagesByGroup_grouped src) as (Hnd & Hkeys & Hent).
  split; [exact Hnd|]. intros jid ms. split.
  - intros Hin. split; [apply Hent; exact Hin|].
    pose proof (messagesByGroup_inhabited src) as Hall.
    rewrite Forall_forall in Hall. apply (Hall _ Hin).
  - intros [-> Hne].
    destruct (filter (fun m => chat_jid m = jid) src) as [|m ms] eqn:Efilter;
      [congruence|].
    assert (Hm : m ∈ filter (fun m => chat_jid m = jid) src)
      by (rewrite Efilter; left).
    apply list_elem_of_filter in Hm as [Hjid Hm].
    specialize (Hkeys m Hm). rewrite Hjid in Hkeys.
    apply list_elem_of_fmap in Hkeys as ([jid' ms'] & Ejid & Hin').
    cbn [fst] in Ejid. subst jid'.
    rewrite <- Efilter, <- (Hent _ _ Hin'). exact Hin'.
Qed.

(** X12. What [saveState] wrote is what [loadState] reads after a restart:
    on a reachable store, provided the text of the cursor map parses back
    to the map, a fresh core loading the saved store has the two cursors
    of the core that saved them, and the sessions and groups of the
    store. *)
Theorem saved_cursors_load_back st fresh vars :
  faults (world st) = [] ->
  JsString.truthy (JSON_stringify (lastAgentTimestamp (core st))) = true ->
  JSON_parse (JSON_stringify (lastAgentTimestamp (core st))) =
    Some (lastAgentTimestamp (core st)) ->
  exists saved st',
    saveState st = (saved, Returned tt) /\
    loadState {| core := fresh; locals := vars; world := world saved |} =
      (st', Returned tt) /\
    lastTimestamp (core st') = lastTimestamp (core st) /\
    lastAgentTimestamp (core st') = lastAgentTimestamp (core st) /\
    sessions (core st') = db_sessions (world st) /\
    registeredGroups (core st') = db_groups (world st).
Proof.
  intros Hf Htruthy Hparse.
  eexists _, _. split; [apply (saveState_run st Hf)|].
  unfold loadState, or_empty, truthy_opt. exec.
  rewrite (lookup_insert_ne _ "last_agent_timestamp" "last_timestamp")
    by discriminate.
  rewrite !lookup_insert_eq.
  cbv beta iota. rewrite Htruthy, Hparse. exec.
  split; [reflexivity|]. norm. repeat split.
Qed.

(** X13. [registerGroup] registers in memory first: whatever the store
    does the group is in the registry afterwards; on a reachable store the
    call returns with the group's row written as well; and when the write
    of the row throws, the call ends by that exception with the group
    registered in memory only. *)
Theorem registerGroup_registers_in_memory_first jid group st :
  registeredGroups (core (registerGroup jid group st).1) =
    <[jid := group]> (registeredGroups (core st)) /\
  (faults (world st) = [] ->
   exists st',
     registerGroup jid group st = (st', Returned tt) /\
     db_groups (world st') = <[jid := group]> (db_groups (world st)) /\
     trace (world st') =
       (trace (world st) ++ [ELog LInfo "Group registered"])%list) /\
  (forall rest,
     faults (world st) = true :: rest ->
     exists st',
       registerGroup jid group st = (st', Thrown "setRegisteredGroup") /\
       db_groups (world st') = db_groups (world st) /\
       trace (world st') = trace (world st)).
Proof.
  split; [|split].
  - unfold registerGroup. rewrite bind_modify.
    match goal with
    | |- registeredGroups (core (?m ?s).1) = _ =>
        assert (Hk : preserves (same_on (fun x => registeredGroups (core x)))
                       m)
          by (unfold_ops; frame_with leaf_same);
        rewrite (Hk s)
    end.
    reflexivity.
  - intros Hf. unfold registerGroup. exec.
    eexists. split; [reflexivity|]. norm. split; reflexivity.
  - intros rest Hf. unfold registerGroup. unfold_ops. repeat step.
    rewrite bind_external_fails with (rest := rest) by (norm; exact Hf).
    eexists. split; [reflexivity|]. norm. split; reflexivity.
Qed.

Lemma recovery_loop entries : forall st,
  faults (world st) = [] ->
  exists evs,
    for_each entries (fun entry =>
      let '(chatJid, group) := (entry : string * RegisteredGroup) in
      sinceTimestamp <- gets (cursorOf chatJid) ;;
      pending <- getMessagesSince chatJid sinceTimestamp ASSISTANT_NAME ;;
      if bool_decide (pending = []) then ret tt
      else
        log LInfo "Recovery: found unprocessed messages" ;;
        queue_enqueueMessageCheck chatJid) st =
      (on_world (fun w => set_trace (trace w ++ evs)%list w) st,
       Returned tt) /\
    enqueued evs =
      filter (fun jid => backlog jid st <> []) entries.*1 /\
    Forall (fun e => match e with
                     | ELog _ _ | EQueueEnqueueMessageCheck _ => True
                     | _ => False
                     end) evs.
Proof.
  induction entries as [|[chatJid group] rest IH]; intros st Hf;
    cbn [for_each].
  - exists []. split; [|split; [reflexivity | constructor]].
    rewrite run_ret. f_equal. destruct st as [c l w]. destruct w.
    unfold on_world, set_trace. norm. rewrite app_nil_r. reflexivity.
  - rewrite fmap_cons. cbn [fst].
    exec. fold (backlog chatJid st).
    destruct (decide (backlog chatJid st <> [])) as [Hsome|Hnone].
    + rewrite filter_cons_True by exact Hsome.
      rewrite bool_decide_eq_false_2 by exact Hsome. exec.
      match goal with
      | |- context [ for_each rest _ ?s ] => set (st1 := s)
      end.
      destruct (IH st1 Hf) as (evs & Hrun & Henq & Hall).
      exists ([ELog LInfo "Recovery: found unprocessed messages";
               EQueueEnqueueMessageCheck chatJid] ++ evs)%list.
      split; [|split].
      * etransitivity; [exact Hrun|].
        f_equal. subst st1. destruct st as [c l w]. destruct w.
        unfold on_world, set_trace. norm. rewrite <- !app_assoc. reflexivity.
      * cbn [app]. unfold enqueued in *. cbn [omap list_omap]. f_equal.
        exact Henq.
      * apply Forall_cons. split; [exact I|].
        apply Forall_cons. split; [exact I | exact Hall].
    + rewrite filter_cons_False by exact Hnone.
      apply dec_stable in Hnone.
      rewrite bool_decide_eq_true_2 by exact Hnone. exec.
      destruct (IH st Hf) as (evs & Hrun & Henq & Hall).
      exists evs. split; [exact Hrun|]. split; [exact Henq | exact Hall].
Qed.

Lemma recoverPendingMessages_run st :
  faults (world st) = [] ->
  exists evs,
    recoverPendingMessages st =
      (on_world (fun w => set_trace (trace w ++ evs)%list w) st,
       Returned tt) /\
    enqueued evs =
      filter (fun jid => backlog jid st <> [])
        (map_to_list (registeredGroups (core st))).*1 /\
    Forall (fun e => match e with
                     | ELog _ _ | EQueueEnqueueMessageCheck _ => True
                     | _ => False
                     end) evs.
Proof.
  intros Hf. unfold recoverPendingMessages. rewrite bind_gets.
  apply recovery_loop. exact Hf.
Qed.

(** X14. On a reachable store, [recoverPendingMessages] asks the queue
    for a message check for exactly the registered chats that have a
    backlog, once each, and changes nothing else: the cursors, the
    registry and the store stay as they are and nothing but log lines and
    those requests is emitted. *)
Theorem recoverPendingMessages_enqueues_backlogs st :
  faults (world st) = [] ->
  exists evs,
    recoverPendingMessages st =
      (on_world (fun w => set_trace (trace w ++ evs)%list w) st,
       Returned tt) /\
    NoDup (enqueued evs) /\
    (forall jid,
       jid ∈ enqueued evs <->
       is_Some (registeredGroups (core st) !! jid) /\ backlog jid st <> []) /\
    Forall (fun e => match e with
                     | ELog _ _ | EQueueEnqueueMessageCheck _ => True
                     | _ => False
                     end) evs.
Proof.
  intros Hf.
  destruct (recoverPendingMessages_run st Hf) as (evs & Hrun & Henq & Hall).
  exists evs. split; [exact Hrun|]. rewrite Henq.
  split; [|split; [|exact Hall]].
  - apply NoDup_filter, NoDup_fst_map_to_list.
  - intros jid. rewrite list_elem_of_filter, list_elem_of_fmap. split.
    + intros [Hsome ([jid' group] & -> & Hin)]. cbn [fst] in *.
      apply elem_of_map_to_list in Hin. split; [eauto | exact Hsome].
    + intros [[group Hin] Hsome]. split; [exact Hsome|].
      exists (jid, group). split; [reflexivity|].
      apply elem_of_map_to_list. exact Hin.
Qed.

(** X15. Recovery keeps no record of what it asked for: run again on the
    state it left, on a reachable store, [recoverPendingMessages] asks the
    queue for the same chats in the same order a second time. *)
Theorem recoverPendingMessages_asks_again st :
  faults (world st) = [] ->
  exists first second st',
    (recoverPendingMessages ;; recoverPendingMessages) st =
      (st', Returned tt) /\
    trace (world st') = (trace (world st) ++ first ++ second)%list /\
    enqueued second = enqueued first.
Proof.
  intros Hf.
  destruct (recoverPendingMessages_run st Hf) as (e1 & Hrun1 & Henq1 & _).
  rewrite (bind_returned _ _ _ _ _ Hrun1).
  match goal with
  | |- context [ recoverPendingMessages ?s ] => set (st1 := s)
  end.
  destruct (recoverPendingMessages_run st1 Hf) as (e2 & Hrun2 & Henq2 & _).
  exists e1, e2. eexists. split; [exact Hrun2|]. subst st1. norm.
  split; [rewrite app_assoc; reflexivity|].
  rewrite Henq1, Henq2. reflexivity.
Qed.

End Bookkeeping.

(** ** Text without a complete internal block *)

Section InternalTags.

Import JsString.

Lemma find_sub_later pat c l :
  find_sub pat l <> None -> find_sub pat (c :: l) <> None.
Proof.
  intros Hl. cbn [find_sub]. destruct (is_prefix pat (c :: l)); [discriminate|].
  destruct (find_sub pat l); [discriminate | contradiction].
Qed.

Lemma find_sub_drop pat n : forall l,
  find_sub pat (drop n l) <> None -> find_sub pat l <> None.
Proof.
  induction n as [|n IH]; intros l; [rewrite drop_0; trivial|].
  destruct l as [|c l]; [rewrite drop_nil; trivial|].
  cbn [drop]. intros Hl. apply find_sub_later, IH, Hl.
Qed.

Lemma find_sub_tail pat c l :
  find_sub pat (c :: l) = None -> find_sub pat l = None.
Proof.
  intros Hl. destruct (find_sub pat l) eqn:El; [|reflexivity].
  exfalso. apply (find_sub_later pat c l); [rewrite El; discriminate | exact Hl].
Qed.

Lemma match_internal_none l :
  find_sub open_tag l = None \/ find_sub close_tag l = None ->
  match_internal l = None.
Proof.
  intros Hl. unfold match_internal.
  destruct (is_prefix open_tag l) eqn:Eopen; [|reflexivity].
  destruct Hl as [Hl|Hl].
  - destruct l; cbn [find_sub] in Hl; rewrite Eopen in Hl; discriminate Hl.
  - destruct (find_sub close_tag (drop (List.length open_tag) l)) eqn:Ec;
      [|reflexivity].
    exfalso. apply (find_sub_drop close_tag (List.length open_tag) l);
      [rewrite Ec; discriminate | exact Hl].
Qed.

Lemma remove_internal_none l :
  find_sub open_tag l = None \/ find_sub close_tag l = None ->
  remove_internal 0 l = l.
Proof.
  induction l as [|c l IH]; intros Hl; [reflexivity|].
  cbn [remove_internal]. rewrite (match_internal_none _ Hl).
  f_equal. apply IH.
  destruct Hl as [Hl|Hl]; [left | right]; exact (find_sub_tail _ _ _ Hl).
Qed.

(** X16. Only complete blocks are cut: a text with no opening tag, or
    with no closing tag, so also one whose internal block was never
    closed, comes out of [strip_internal] merely trimmed. *)
Theorem strip_internal_needs_both_tags raw :
  find_sub open_tag (chars raw) = None \/
  find_sub close_tag (chars raw) = None ->
  strip_internal raw = trim raw.
Proof.
  intros Hraw. unfold strip_internal.
  rewrite (remove_internal_none _ Hraw). unfold text, chars.
  rewrite string_of_list_ascii_of_string. reflexivity.
Qed.

End InternalTags.

(** ** Trimming *)

Section Trim.

Import JsString.

Lemma drop_leading_fixed table : forall l skip,
  drop_leading table 0 (drop_leading table skip l) =
  drop_leading table skip l.
Proof.
  induction l as [|c t IH]; intros skip; [reflexivity|].
  destruct skip as [|k]; cbn [drop_leading]; [|apply IH].
  destruct (width_at table (c :: t)) as [|k] eqn:Ew; [|apply IH].
  cbn [drop_leading]. rewrite Ew. reflexivity.
Qed.

Lemma drop_leading_suffix table : forall l skip,
  exists dropped, l = (dropped ++ drop_leading table skip l)%list.
Proof.
  induction l as [|c t IH]; intros skip; [exists []; reflexivity|].
  destruct skip as [|k]; cbn [drop_leading].
  - destruct (width_at table (c :: t)) as [|k]; [exists []; reflexivity|].
    destruct (IH k) as [dropped Hd]. exists (c :: dropped).
    cbn [app]. f_equal. exact Hd.
  - destruct (IH k) as [dropped Hd]. exists (c :: dropped).
    cbn [app]. f_equal. exact Hd.
Qed.

Lemma is_prefix_app p : forall l rest,
  is_prefix p l = true -> is_prefix p (l ++ rest) = true.
Proof.
  induction p as [|a p IH]; intros l rest Hp; [reflexivity|].
  destruct l as [|b l]; [discriminate Hp|].
  cbn [is_prefix app] in *. apply andb_true_iff in Hp as [Hab Hp].
  rewrite Hab. cbn [andb]. apply IH, Hp.
Qed.

Lemma find_prefix_shorter table l rest :
  List.find (fun p => is_prefix p (l ++ rest)) table = None ->
  List.find (fun p => is_prefix p l) table = None.
Proof.
  induction table as [|p table IH]; [reflexivity|]. cbn [List.find].
  destruct (is_prefix p (l ++ rest)) eqn:Elong; [discriminate|].
  intros Hrest. destruct (is_prefix p l) eqn:Eshort.
  - rewrite (is_prefix_app _ _ rest Eshort) in Elong. discriminate Elong.
  - apply IH, Hrest.
Qed.

Lemma width_at_none table l :
  Forall (fun p => p <> []) table ->
  width_at table l = 0 ->
  List.find (fun p => is_prefix p l) table = None.
Proof.
  intros Hfull. unfold width_at.
  destruct (List.find (fun p => is_prefix p l) table) as [p|] eqn:Efind;
    [|reflexivity].
  intros Hlen. apply find_some in Efind as [Hin _].
  rewrite Forall_forall in Hfull.
  destruct p; [|discriminate Hlen].
  exfalso. apply (Hfull []); [|reflexivity].
  apply list_elem_of_In. exact Hin.
Qed.

Lemma drop_leading_shorter table : forall l skip,
  List.length (drop_leading table skip l) <= List.length l.
Proof.
  induction l as [|c t IH]; intros skip; [reflexivity|].
  destruct skip as [|k]; cbn [drop_leading].
  - destruct (width_at table (c :: t)) as [|k]; [reflexivity|].
    specialize (IH k). cbn [List.length]. lia.
  - specialize (IH k). cbn [List.length]. lia.
Qed.

(** A list that [drop_leading] keeps whole stays whole when cut at the
    end. *)
Lemma drop_leading_prefix table l rest :
  Forall (fun p => p <> []) table ->
  drop_leading table 0 (l ++ rest) = (l ++ rest)%list ->
  drop_leading table 0 l = l.
Proof.
  intros Hfull Hwhole. destruct l as [|c t]; [reflexivity|].
  cbn [app drop_leading] in *.
  destruct (width_at table (c :: t ++ rest)) as [|k] eqn:Ew.
  - apply (width_at_none _ _ Hfull) in Ew.
    change (c :: (t ++ rest))%list with ((c :: t) ++ rest)%list in Ew.
    apply find_prefix_shorter in Ew. unfold width_at. rewrite Ew.
    reflexivity.
  - exfalso. pose proof (drop_leading_shorter table (t ++ rest) k) as Hlen.
    rewrite Hwhole in Hlen. cbn [List.length] in Hlen. lia.
Qed.

Lemma whitespace_full : Forall (fun p : list ascii => p <> []) whitespace.
Proof. unfold whitespace. repeat constructor; discriminate. Qed.

Lemma trim_trim s : trim (trim s) = trim s.
Proof.
  unfold trim, text, chars. rewrite list_ascii_of_string_of_list_ascii.
  set (front := drop_leading whitespace 0 (list_ascii_of_string s)).
  set (back := drop_leading (map (@rev ascii) whitespace) 0 (rev front)).
  assert (Hfront : drop_leading whitespace 0 (rev back) = rev back).
  { destruct (drop_leading_suffix (map (@rev ascii) whitespace) (rev front) 0)
      as [dropped Hd].
    fold back in Hd.
    apply (drop_leading_prefix whitespace (rev back) (rev dropped)
             whitespace_full).
    rewrite <- rev_app_distr, <- Hd, rev_involutive.
    apply drop_leading_fixed. }
  rewrite Hfront, rev_involutive.
  unfold back at 1. rewrite drop_leading_fixed. reflexivity.
Qed.

End Trim.

(** ** The terminal channel *)

Section Channel.

Import CLIChannel.

Variable stripInternalTags : string -> string.

Lemma drawn_app indicator outs out :
  drawn indicator (outs ++ [out]) =
  match drawn indicator outs with
  | Some line => drawn line [out]
  | None => None
  end.
Proof.
  revert indicator. induction outs as [|o outs IH]; intros indicator.
  - cbn [app drawn]. destruct out, indicator; reflexivity.
  - cbn [app]. cbn [drawn].
    destruct (match o with
              | Thinking | Reply _ => negb indicator
              | ClearLine => indicator
              | _ => true
              end); [apply IH | reflexivity].
Qed.

Lemma call_tidy what c :
  exited c = false -> tidy c -> tidy (call stripInternalTags what c).
Proof.
  unfold tidy. intros Hlive Htidy. rewrite Hlive, andb_true_r in Htidy.
  destruct what as [id timestamp line|j rawText|j isTyping];
    cbn [call].
  - unfold onLine.
    destruct (negb (JsString.truthy (JsString.trim line)));
      [|destruct (_ || _)].
    + cbn [write stdout typingActive exited]. rewrite drawn_app, Htidy, Hlive.
      rewrite andb_true_r. reflexivity.
    + unfold disconnect. cbn [set_connected typingActive].
      destruct (typingActive c) eqn:Etyping;
        cbn [write exit set_connected stdout typingActive exited];
        rewrite ?Etyping, !drawn_app, ?Htidy; reflexivity.
    + cbn [onMessage stdout typingActive exited]. rewrite Htidy, Hlive.
      rewrite andb_true_r. reflexivity.
  - unfold sendMessage.
    destruct (negb (JsString.truthy (stripInternalTags rawText)));
      [rewrite Hlive, andb_true_r; exact Htidy|].
    destruct (typingActive c) eqn:Etyping;
      cbn [write set_typingActive stdout typingActive exited];
      rewrite ?Etyping, !drawn_app, Htidy, Hlive; reflexivity.
  - unfold setTyping.
    destruct isTyping, (typingActive c) eqn:Etyping; cbn [andb negb];
      cbn [write set_typingActive stdout typingActive exited];
      rewrite ?Etyping, ?drawn_app, Htidy, Hlive; reflexivity.
Qed.

(** X17. Through any session of the terminal channel, whatever the user
    enters and whatever the core sends, the terminal is drawn in order:
    the indicator is written only on a line that does not show it,
    cleared only from a line that shows it, and no reply is printed on a
    line that shows it; and while the channel is in use the line shows
    the indicator exactly when [typingActive] is set. *)
Theorem session_draws_the_indicator_in_order jid calls :
  drawn false (stdout (session stripInternalTags jid calls)) =
  Some (typingActive (session stripInternalTags jid calls) &&
        negb (exited (session stripInternalTags jid calls))).
Proof.
  unfold session.
  assert (Hrun : forall calls c,
             tidy c -> tidy (run stripInternalTags calls c)).
  { clear calls. induction calls as [|what later IH]; intros c Htidy;
      cbn [run]; [exact Htidy|].
    destruct (exited c) eqn:Hlive; [exact Htidy|].
    apply IH, call_tidy; assumption. }
  apply Hrun. reflexivity.
Qed.

Lemma call_hands_over owner what c :
  handing_over owner c -> handing_over owner (call stripInternalTags what c).
Proof.
  intros [Hjid Hall]. destruct what as [id timestamp line|j rawText|j isTyping];
    cbn [call].
  - unfold onLine.
    destruct (negb (JsString.truthy (JsString.trim line))) eqn:Eblank;
      [split; assumption|].
    destruct (String.eqb (JsText.toLowerCase (JsString.trim line)) "exit") eqn:Eexit;
      [unfold disconnect; cbn [set_connected typingActive];
       destruct (typingActive c); split; assumption|].
    destruct (String.eqb (JsText.toLowerCase (JsString.trim line)) "quit") eqn:Equit;
      [unfold disconnect; cbn [set_connected typingActive];
       destruct (typingActive c); split; assumption|].
    cbn [orb]. split; [exact Hjid|]. cbn [onMessage received].
    apply Forall_app. split; [exact Hall|].
    apply Forall_cons. split; [|constructor].
    unfold entered. cbn [chat_jid is_from_me is_bot_message content].
    apply negb_false_iff in Eblank. apply String.eqb_neq in Eexit, Equit.
    repeat split; try assumption. apply trim_trim.
  - unfold sendMessage.
    destruct (negb (JsString.truthy (stripInternalTags rawText)));
      [split; assumption|].
    destruct (typingActive c); split; assumption.
  - unfold setTyping.
    destruct (isTyping && negb (typingActive c));
      [split; assumption|].
    destruct (negb isTyping && typingActive c); split; assumption.
Qed.

Lemma run_hands_over owner calls : forall c,
  handing_over owner c -> handing_over owner (run stripInternalTags calls c).
Proof.
  induction calls as [|what later IH]; intros c Hc; cbn [run]; [exact Hc|].
  destruct (exited c); [exact Hc|]. apply IH, call_hands_over, Hc.
Qed.

(** X18. Every message the terminal channel hands over, in any session,
    is a line the user entered: it carries the channel's own chat id, is
    marked as the user's and not the assistant's, its content is not
    empty and has no white space left at either end, and it is neither
    "exit" nor "quit" in any mix of cases; those two lines, and blank
    ones, never reach the store. *)
Theorem session_hands_over_entered_lines jid calls msg :
  msg ∈ received (session stripInternalTags jid calls) ->
  chat_jid msg = jid /\
  is_from_me msg = true /\
  is_bot_message msg = false /\
  JsString.truthy (content msg) = true /\
  JsString.trim (content msg) = content msg /\
  JsText.toLowerCase (content msg) <> "exit" /\
  JsText.toLowerCase (content msg) <> "quit".
Proof.
  intros Hin.
  destruct (run_hands_over jid calls (connect (create jid))) as [_ Hall].
  { split; [reflexivity | constructor]. }
  rewrite Forall_forall in Hall. exact (Hall msg Hin).
Qed.

End Channel.

(** ** The terminal client *)

Section Selection.

Import Cli.

Variable label : CLISession -> string.

Lemma askChoice_range answer choices :
  askChoice answer choices = (-1)%Z \/
  (0 <= askChoice answer choices < Z.of_nat (List.length choices))%Z.
Proof.
  unfold askChoice. destruct answer as [text|]; [|left; reflexivity].
  destruct (JsText.parseInt (JsString.trim text)) as [n|]; [|left; reflexivity].
  destruct (1 <=? n)%Z eqn:Elow; [|left; reflexivity].
  destruct (n <=? Z.of_nat (List.length choices))%Z eqn:Ehigh;
    [|left; reflexivity].
  right. cbn [andb]. lia.
Qed.

Lemma handleResume_listed sessions answer :
  handleResume label sessions answer <> TypeError /\
  (forall jid folder,
     handleResume label sessions answer = StartSession jid folder ->
     exists s,
       s ∈ sessions /\ session_jid s = jid /\ session_folder s = folder).
Proof.
  unfold handleResume.
  destruct (bool_decide (sessions = []));
    [split; [discriminate | intros ? ? [=]]|].
  destruct (askChoice_range answer (map label sessions)) as [Hnone|Hidx].
  { rewrite Hnone. cbn. split; [discriminate | intros ? ? [=]]. }
  rewrite length_map in Hidx.
  destruct (Z.ltb_spec (askChoice answer (map label sessions)) 0); [lia|].
  destruct (sessions !! Z.to_nat (askChoice answer (map label sessions)))
    as [s|] eqn:Es.
  - split; [discriminate|]. intros jid folder [= <- <-]. exists s.
    split; [eapply list_elem_of_lookup_2; exact Es | split; reflexivity].
  - apply lookup_ge_None in Es. lia.
Qed.

Lemma handleClean_listed sessions answer :
  handleClean label sessions answer <> TypeError /\
  (forall toDelete,
     handleClean label sessions answer = Delete toDelete ->
     toDelete <> [] /\
     (toDelete = sessions \/ exists s, s ∈ sessions /\ toDelete = [s])).
Proof.
  unfold handleClean.
  destruct (bool_decide (sessions = [])) eqn:Eempty;
    [split; [discriminate | intros ? [=]]|].
  apply bool_decide_eq_false in Eempty.
  destruct (askChoice_range answer (map label sessions ++ ["Delete all"]))
    as [Hnone|Hidx].
  { rewrite Hnone. cbn. split; [discriminate | intros ? [=]]. }
  rewrite length_app, length_map in Hidx. cbn [List.length] in Hidx.
  destruct (Z.ltb_spec
              (askChoice answer (map label sessions ++ ["Delete all"])) 0);
    [lia|].
  destruct (Z.eqb_spec
              (askChoice answer (map label sessions ++ ["Delete all"]))
              (Z.of_nat (List.length sessions))) as [Hall|Hone].
  { split; [discriminate|]. intros toDelete [= <-].
    split; [exact Eempty | left; reflexivity]. }
  destruct (sessions !! Z.to_nat
              (askChoice answer (map label sessions ++ ["Delete all"])))
    as [s|] eqn:Es.
  - split; [discriminate|]. intros toDelete [= <-].
    split; [discriminate|]. right. exists s.
    split; [eapply list_elem_of_lookup_2; exact Es | reflexivity].
  - apply lookup_ge_None in Es. lia.
Qed.

(** X19. A selection never leaves the list.  [askChoice] answers -1 or an
    index into the choices it was given, whatever was entered;
    [handleResume] therefore starts a session that is listed or exits,
    and [handleClean] sets out to delete all the listed sessions or one
    of them or exits; neither reaches for an element that is not
    there. *)
Theorem selection_stays_in_the_list sessions answer :
  (forall choices,
     askChoice answer choices = (-1)%Z \/
     (0 <= askChoice answer choices < Z.of_nat (List.length choices))%Z) /\
  handleResume label sessions answer <> TypeError /\
  (forall jid folder,
     handleResume label sessions answer = StartSession jid folder ->
     exists s,
       s ∈ sessions /\ session_jid s = jid /\ session_folder s = folder) /\
  handleClean label sessions answer <> TypeError /\
  (forall toDelete,
     handleClean label sessions answer = Delete toDelete ->
     toDelete <> [] /\
     (toDelete = sessions \/ exists s, s ∈ sessions /\ toDelete = [s])).
Proof.
  split; [intros choices; apply askChoice_range|].
  destruct (handleResume_listed sessions answer) as [Hr1 Hr2].
  destruct (handleClean_listed sessions answer) as [Hc1 Hc2].
  repeat (split; [assumption|]). assumption.
Qed.

End Selection.

Section Naming.

Import Cli.






End Naming.

Section TerminalSessions.

Import Cli.

Context `{Env}.

Lemma messageLoop_returns arrivals : forall st,
  exists st', messageLoop arrivals st = (st', Returned tt).
Proof.
  induction arrivals as [|stored later IH]; intros st; cbn [messageLoop].
  - eexists. reflexivity.
  - rewrite bind_modify.
    match goal with |- context [ bind tick _ ?s ] => set (st0 := s) end.
    destruct (tick_returns st0) as (st1 & Ht & _).
    rewrite (bind_returned _ _ _ _ _ Ht). apply IH.
Qed.

Lemma startMessageLoop_returns arrivals st :
  exists st', startMessageLoop arrivals st = (st', Returned tt).
Proof.
  unfold startMessageLoop. rewrite bind_gets.
  destruct (messageLoopRunning (core st)).
  - exec. eexists. reflexivity.
  - exec. apply messageLoop_returns.
Qed.





End TerminalSessions.

(** ** Start-up on a fresh store, and the listing of chats *)

Section FreshStore.

Context `{Env}.

(** X22. On a reachable store that holds no cursor text, or an empty
    one, [loadState] starts from empty cursors without parsing anything
    and without a warning: its only line in the log is that the state was
    loaded. *)
Theorem loadState_without_cursors st :
  faults (world st) = [] ->
  truthy_opt (router_state (world st) !! "last_agent_timestamp") = false ->
  exists st',
    loadState st = (st', Returned tt) /\
    lastTimestamp (core st') =
      or_empty (router_state (world st) !! "last_timestamp") /\
    lastAgentTimestamp (core st') = ∅ /\
    world st' =
      set_trace (trace (world st) ++ [ELog LInfo "State loaded"])%list
        (world st).
Proof.
  intros Hf Hnone. unfold loadState. exec.
  rewrite Hnone. exec.
  eexists. split; [reflexivity|]. norm. repeat split.
Qed.

Lemma sentinel_is_no_group jid :
  JsText.endsWith jid "@g.us" = true ->
  String.eqb jid "__group_sync__" = false.
Proof.
  intros Hends. destruct (String.eqb_spec jid "__group_sync__") as [->|];
    [|reflexivity].
  vm_compute in Hends. discriminate Hends.
Qed.

(** X23. [getAvailableGroups] lists, in the order of the table, the
    chats whose id ends in "@g.us", each flagged by whether it is
    registered, and leaves the state alone; the test against the
    "__group_sync__" row rejects nothing the test of the ending would
    let through. *)
Theorem getAvailableGroups_lists_group_chats chats st :
  faults (world st) = [] ->
  getAvailableGroups chats st =
    (st,
     Returned
       (map (fun c =>
               {| available_jid := chat_info_jid c;
                  available_name := chat_info_name c;
                  lastActivity := last_message_time c;
                  isRegistered :=
                    bool_decide
                      (is_Some
                         (registeredGroups (core st) !! chat_info_jid c)) |})
            (List.filter
               (fun c => JsText.endsWith (chat_info_jid c) "@g.us") chats))).
Proof.
  intros Hf. unfold getAvailableGroups, getAllChats. repeat step.
  do 3 f_equal. apply List.filter_ext. intros c.
  destruct (JsText.endsWith (chat_info_jid c) "@g.us") eqn:Hends;
    [|apply andb_false_r].
  rewrite (sentinel_is_no_group _ Hends). reflexivity.
Qed.

End FreshStore.

(** ** Start-up *)

Section StartUp.

Context `{Env}.

Lemma loadState_run cursors st :
  faults (world st) = [] ->
  stores_cursors cursors st ->
  exists loaded,
    loadState st = (loaded, Returned tt) /\
    lastAgentTimestamp (core loaded) = cursors /\
    registeredGroups (core loaded) = db_groups (world st) /\
    db_messages (world loaded) = db_messages (world st) /\
    faults (world loaded) = [] /\
    trace (world loaded) =
      (trace (world st) ++ [ELog LInfo "State loaded"])%list.
Proof.
  intros Hf Hstored. unfold loadState, or_empty. exec.
  destruct Hstored as [[Hnone ->]|(Hsome & Htruthy & Hparse)].
  - rewrite Hnone. exec. eexists. split; [reflexivity|]. norm.
    repeat split. exact Hf.
  - rewrite Hsome. unfold truthy_opt. rewrite Htruthy, Hparse. exec.
    eexists. split; [reflexivity|]. norm. repeat split. exact Hf.
Qed.

(** X24. A restart recovers from the store alone.  On a reachable store
    that holds no cursor text, or the text [saveState] wrote for a map of
    cursors, [main] loads the state without a warning and then asks the
    queue, before the loop's first iteration, for a message check for
    exactly the chats of the groups table that have messages after their
    stored cursor, the cursor of a chat the stored map lacks being the
    empty one; what the core held in memory before has no part in it. *)
Theorem main_recovers_from_the_store arrivals cursors st :
  faults (world st) = [] ->
  stores_cursors cursors st ->
  exists loaded evs st',
    loadState st = (loaded, Returned tt) /\
    trace (world loaded) =
      (trace (world st) ++ [ELog LInfo "State loaded"])%list /\
    recoverPendingMessages loaded =
      (on_world (fun w => set_trace (trace w ++ evs)%list w) loaded,
       Returned tt) /\
    main arrivals st = (st', Returned tt) /\
    st' =
      (startMessageLoop arrivals
         (on_world (fun w => set_trace (trace w ++ evs)%list w) loaded)).1 /\
    forall jid,
      jid ∈ enqueued evs <->
      is_Some (db_groups (world st) !! jid) /\
      select_messages_since (db_messages (world st)) jid
        (or_empty (cursors !! jid)) ASSISTANT_NAME <> [].
Proof.
  intros Hf Hstored.
  destruct (loadState_run cursors st Hf Hstored)
    as (loaded & Hload & Hcur & Hgroups & Hmsgs & Hf1 & Hlog).
  destruct (recoverPendingMessages_run loaded Hf1) as (evs & Hrec & Henq & _).
  destruct (startMessageLoop_returns arrivals
              (on_world (fun w => set_trace (trace w ++ evs)%list w) loaded))
    as (st' & Hloop).
  exists loaded, evs, st'. split; [exact Hload|]. split; [exact Hlog|].
  split; [exact Hrec|]. split; [|split].
  - unfold main. rewrite (bind_returned _ _ _ _ _ Hload).
    rewrite (bind_returned _ _ _ _ _ Hrec). exact Hloop.
  - rewrite Hloop. reflexivity.
  - intros jid. rewrite Henq, list_elem_of_filter, list_elem_of_fmap.
    unfold backlog, cursorOf. rewrite Hcur, Hmsgs, Hgroups. split.
    + intros [Hsome ([jid' group] & -> & Hin)]. cbn [fst] in *.
      apply elem_of_map_to_list in Hin. split; [eauto | exact Hsome].
    + intros [[group Hin] Hsome]. split; [exact Hsome|].
      exists (jid, group). split; [reflexivity|].
      apply elem_of_map_to_list. exact Hin.
Qed.

(** X25. The group of the terminal client is dispatched without a
    trigger: on a reachable store, whatever the lines of its backlog say,
    [processGroupMessages] for a chat registered with that group advances
    the cursor and starts the worker on the whole backlog. *)
Theorem terminal_lines_need_no_trigger run jid folder now st :
  registeredGroups (core st) !! jid = Some (Cli.cliGroup folder now) ->
  faults (world st) = [] ->
  backlog jid st <> [] ->
  exists st' newest evs,
    last (backlog jid st) = Some newest /\
    processGroupMessages run jid st =
      (st', Returned (negb (run_failed run) || run_delivered run)) /\
    trace (world st') =
      (trace (world st) ++
       dispatch_prefix jid (Cli.cliGroup folder now) newest st ++ evs)%list.
Proof.
  intros Hreg Hf Hne.
  destruct (processGroupMessages_spec run jid (Cli.cliGroup folder now) st
              Hreg Hf Hne)
    as (st' & newest & evs & Hlast & Hrun & _ & _ & Htrace & _).
  { unfold needsTrigger, Cli.cliGroup. cbn [requiresTrigger].
    rewrite (bool_decide_eq_true_2 (Some false = Some false)) by reflexivity.
    rewrite andb_false_r. reflexivity. }
  exists st', newest, evs. split; [exact Hlast|]. split; [exact Hrun|].
  exact Htrace.
Qed.

End StartUp.

(** ** The further statements at work *)

Section AtWork.

#[local] Existing Instance Demo.env.

Example askChoice_reads_a_leading_number :
  Cli.askChoice (Some " 2nd ") ["a"; "b"; "c"] = 1%Z /\
  Cli.askChoice (Some "3") ["a"; "b"; "c"] = 2%Z /\
  Cli.askChoice (Some "4") ["a"; "b"; "c"] = (-1)%Z /\
  Cli.askChoice (Some "0") ["a"; "b"; "c"] = (-1)%Z /\
  Cli.askChoice (Some "-1") ["a"; "b"; "c"] = (-1)%Z /\
  Cli.askChoice (Some "two") ["a"; "b"; "c"] = (-1)%Z /\
  Cli.askChoice (Some "") ["a"; "b"; "c"] = (-1)%Z /\
  Cli.askChoice None ["a"; "b"; "c"] = (-1)%Z.
Proof. repeat split; vm_compute; reflexivity. Qed.

Example typed_session :
  let c := CLIChannel.session JsString.strip_internal Cases.terminal
             Cases.typed in
  CLIChannel.stdout c =
    [CLIChannel.Prompt; CLIChannel.Thinking; CLIChannel.Prompt;
     CLIChannel.ClearLine; CLIChannel.Reply "Hi!"; CLIChannel.Prompt;
     CLIChannel.SessionEnded] /\
  CLIChannel.received c = [Cases.hello] /\
  CLIChannel.exited c = true.
Proof. repeat split; vm_compute; reflexivity. Qed.

(** X2 at work: the worker answered and completed. *)
Lemma answered_run_keeps_cursor :
  exists st' newest,
    last (backlog Demo.family Demo.pending) = Some newest /\
    processGroupMessages (H := Demo.env) Cases.answered Demo.family
      Demo.pending = (st', Returned true) /\
    lastAgentTimestamp (core st') =
      <[Demo.family := timestamp newest]>
        (lastAgentTimestamp (core Demo.pending)) /\
    router_state (world st') !! "last_agent_timestamp" =
      Some (JSON_stringify (lastAgentTimestamp (core st'))).
Proof.
  apply (@successful_invocation_keeps_advance Demo.env Cases.answered
           Demo.family Demo.familyGroup Demo.pending).
  - vm_compute. reflexivity.
  - reflexivity.
  - vm_compute. discriminate.
  - vm_compute. reflexivity.
  - vm_compute. reflexivity.
Defined.

(** X3 at work: nothing has arrived for the family group. *)
Lemma quiet_group_starts_nothing :
  processGroupMessages (H := Demo.env) Cases.answered Demo.family
    Cases.quiet = (Cases.quiet, Returned true).
Proof.
  apply (@empty_backlog_is_a_no_op Demo.env Cases.answered Demo.family
           Demo.familyGroup Cases.quiet).
  - vm_compute. reflexivity.
  - reflexivity.
  - vm_compute. reflexivity.
Defined.

(** X6 at work: the session announced before the failure is kept. *)
Lemma failed_run_keeps_its_session :
  exists st',
    runAgent (H := Demo.env) Demo.answeredThenFailed Demo.familyGroup
      "prompt" Demo.family (Some (onOutput Demo.family)) Demo.pending =
      (st', Returned (agent_status Demo.answeredThenFailed)) /\
    sessions (core st') =
      announced (folder Demo.familyGroup) Demo.answeredThenFailed
        (sessions (core Demo.pending)) /\
    db_sessions (world st') =
      announced (folder Demo.familyGroup) Demo.answeredThenFailed
        (db_sessions (world Demo.pending)).
Proof.
  apply (@runAgent_stores_announced_sessions Demo.env Demo.answeredThenFailed
           Demo.familyGroup "prompt" Demo.family Demo.pending).
  reflexivity.
Defined.

(** X9 at work. *)
Lemma quiet_tick_sleeps :
  tick (H := Demo.env) Cases.quiet =
    (on_world (fun w => set_trace (trace w ++ [ESleep POLL_INTERVAL])%list w)
       Cases.quiet,
     Returned tt).
Proof.
  apply (@tick_without_news_only_sleeps Demo.env Cases.quiet).
  - reflexivity.
  - vm_compute. reflexivity.
Defined.

(** X10 at work: the family's worker accepts input, the two messages are
    piped and the cursor stands at the second. *)
Lemma active_family_is_piped :
  exists st' evs,
    tick (H := Demo.env) Demo.pendingActive = (st', Returned tt) /\
    trace (world st') = (trace (world Demo.pendingActive) ++ evs)%list /\
    synced st' /\
    lastAgentTimestamp (core st') !! Demo.family =
      Some (timestamp Demo.added).
Proof.
  destruct (@tick_pipes_or_enqueues Demo.env Demo.pendingActive)
    as (st' & evs & Hrun & Htrace & _ & Hsynced & Hchats).
  - reflexivity.
  - vm_compute. discriminate.
  - exists st', evs. split; [exact Hrun|]. split; [exact Htrace|].
    split; [exact Hsynced|].
    specialize (Hchats Demo.family).
    destruct Hchats as (newest & Hlast & Hcur & _).
    + vm_compute. discriminate.
    + exists Demo.familyGroup. split; vm_compute; reflexivity.
    + vm_compute in Hlast. injection Hlast as <-. exact Hcur.
Defined.

(** X12 at work. *)
Lemma family_cursor_loads_back :
  exists saved st',
    saveState (H := Demo.env) Demo.cursorAhead = (saved, Returned tt) /\
    loadState (H := Demo.env)
      {| core := initialCore; locals := initialLocals;
         world := world saved |} = (st', Returned tt) /\
    lastTimestamp (core st') = lastTimestamp (core Demo.cursorAhead) /\
    lastAgentTimestamp (core st') =
      lastAgentTimestamp (core Demo.cursorAhead) /\
    sessions (core st') = db_sessions (world Demo.cursorAhead) /\
    registeredGroups (core st') = db_groups (world Demo.cursorAhead).
Proof.
  apply (@saved_cursors_load_back Demo.env Demo.cursorAhead initialCore
           initialLocals).
  - reflexivity.
  - vm_compute. reflexivity.
  - vm_compute. reflexivity.
Defined.

(** X14 at work: the family group has a backlog. *)
Lemma family_backlog_is_recovered :
  exists evs,
    recoverPendingMessages (H := Demo.env) Demo.pending =
      (on_world (fun w => set_trace (trace w ++ evs)%list w) Demo.pending,
       Returned tt) /\
    Demo.family ∈ enqueued evs.
Proof.
  destruct (@recoverPendingMessages_enqueues_backlogs Demo.env Demo.pending)
    as (evs & Hrun & _ & Hiff & _); [reflexivity|].
  exists evs. split; [exact Hrun|]. apply Hiff. split.
  - exists Demo.familyGroup. vm_compute. reflexivity.
  - vm_compute. discriminate.
Defined.

(** X15 at work. *)
Lemma family_backlog_is_recovered_twice :
  exists first second st',
    (recoverPendingMessages (H := Demo.env) ;; recoverPendingMessages)
      Demo.pending = (st', Returned tt) /\
    trace (world st') = (trace (world Demo.pending) ++ first ++ second)%list /\
    enqueued second = enqueued first.
Proof.
  apply (@recoverPendingMessages_asks_again Demo.env Demo.pending).
  reflexivity.
Defined.

(** X4 at work. *)
Lemma failed_write_keeps_family_cursor_advanced :
  exists st',
    processGroupMessages (H := Demo.env) Cases.answered Demo.family
      Demo.storeFailing = (st', Thrown "setRouterState") /\
    cursorOf Demo.family st' = timestamp Demo.added /\
    router_state (world st') = ∅ /\
    trace (world st') = [].
Proof.
  destruct (@failed_persist_is_not_rolled_back Demo.env Cases.answered
              Demo.family Demo.familyGroup Demo.storeFailing [])
    as (st' & newest & Hlast & Hrun & Hcur & Hstore & Htrace).
  - vm_compute. reflexivity.
  - reflexivity.
  - vm_compute. discriminate.
  - vm_compute. reflexivity.
  - exists st'. vm_compute in Hlast. injection Hlast as <-.
    split; [exact Hrun|]. split; [|split; [exact Hstore | exact Htrace]].
    unfold cursorOf. rewrite Hcur, lookup_insert_eq. reflexivity.
Defined.

(** X5 at work. *)
Lemma failed_snapshot_keeps_family_cursor_advanced :
  exists st',
    processGroupMessages (H := Demo.env) Cases.answered Demo.family
      Cases.snapshotFailing = (st', Thrown "getAllTasks") /\
    cursorOf Demo.family st' = timestamp Demo.added /\
    router_state (world st') !! "last_agent_timestamp" =
      Some (Demo.stringify {[ Demo.family := timestamp Demo.added ]}) /\
    last (trace (world st')) = Some (EChannelSetTyping Demo.family true).
Proof.
  destruct (@failed_snapshot_is_not_rolled_back Demo.env Cases.answered
              Demo.family Demo.familyGroup Cases.snapshotFailing [])
    as (st' & newest & Hlast & Hrun & Hcur & Hstore & Htrace).
  - vm_compute. reflexivity.
  - reflexivity.
  - vm_compute. discriminate.
  - vm_compute. reflexivity.
  - exists st'. vm_compute in Hlast. injection Hlast as <-.
    split; [exact Hrun|]. split; [|split].
    + unfold cursorOf. rewrite Hcur, lookup_insert_eq. reflexivity.
    + rewrite Hstore, Hcur. vm_compute. reflexivity.
    + rewrite Htrace. reflexivity.
Defined.

(** X16 at work: a block that was never closed goes out as it is. *)
Lemma unclosed_block_is_kept :
  JsString.strip_internal "<internal>check the fridge " =
  JsString.trim "<internal>check the fridge ".
Proof.
  apply (strip_internal_needs_both_tags "<internal>check the fridge ").
  right. vm_compute. reflexivity.
Defined.

(** X18 at work. *)
Lemma hello_is_an_entered_line :
  chat_jid Cases.hello = Cases.terminal /\
  is_from_me Cases.hello = true /\
  is_bot_message Cases.hello = false /\
  JsString.truthy (content Cases.hello) = true /\
  JsString.trim (content Cases.hello) = content Cases.hello /\
  JsText.toLowerCase (content Cases.hello) <> "exit" /\
  JsText.toLowerCase (content Cases.hello) <> "quit".
Proof.
  apply (session_hands_over_entered_lines JsString.strip_internal
           Cases.terminal Cases.typed Cases.hello).
  vm_compute. left.
Defined.



(** X22 at work. *)
Lemma fresh_store_loads_empty_cursors :
  exists st',
    loadState (H := Demo.env) Cases.freshStore = (st', Returned tt) /\
    lastTimestamp (core st') = "" /\
    lastAgentTimestamp (core st') = ∅ /\
    trace (world st') = [ELog LInfo "State loaded"].
Proof.
  destruct (@loadState_without_cursors Demo.env Cases.freshStore)
    as (st' & Hrun & Hts & Hcur & Hworld);
    [reflexivity | vm_compute; reflexivity |].
  exists st'. split; [exact Hrun|]. split; [exact Hts|].
  split; [exact Hcur|]. rewrite Hworld. reflexivity.
Defined.

(** X23 at work: of four rows two are groups, one of them registered. *)
Lemma two_group_chats_are_listed :
  getAvailableGroups Cases.chats Demo.pending =
    (Demo.pending,
     Returned
       [{| available_jid := Demo.family; available_name := "Family";
           lastActivity := "2024-01-01T10:05:00.000Z";
           isRegistered := true |};
        {| available_jid := "book-club@g.us"; available_name := "Book club";
           lastActivity := "2024-01-01T07:00:00.000Z";
           isRegistered := false |}]).
Proof.
  rewrite (getAvailableGroups_lists_group_chats Cases.chats Demo.pending);
    [|reflexivity].
  vm_compute. reflexivity.
Defined.

(** X24 at work: after the restart the family group, whose saved cursor
    stands at the first of its two messages, is asked for. *)
Lemma restart_recovers_the_family :
  exists loaded evs st',
    loadState (H := Demo.env) Cases.restart = (loaded, Returned tt) /\
    recoverPendingMessages (H := Demo.env) loaded =
      (on_world (fun w => set_trace (trace w ++ evs)%list w) loaded,
       Returned tt) /\
    main (H := Demo.env) [] Cases.restart = (st', Returned tt) /\
    Demo.family ∈ enqueued evs.
Proof.
  destruct (@main_recovers_from_the_store Demo.env []
              {[ Demo.family := timestamp Demo.asked ]} Cases.restart)
    as (loaded & evs & st' & Hload & _ & Hrec & Hmain & _ & Hiff).
  - reflexivity.
  - right. split; [vm_compute; reflexivity|].
    split; vm_compute; reflexivity.
  - exists loaded, evs, st'. split; [exact Hload|]. split; [exact Hrec|].
    split; [exact Hmain|]. apply Hiff. split.
    + exists Demo.familyGroup. vm_compute. reflexivity.
    + vm_compute. discriminate.
Defined.

(** X25 at work: a line without the trigger starts the worker. *)
Lemma hello_starts_the_worker :
  exists st' newest evs,
    last (backlog Cases.terminal Cases.terminalPending) = Some newest /\
    processGroupMessages (H := Demo.env) Cases.answered Cases.terminal
      Cases.terminalPending =
      (st',
       Returned (negb (run_failed Cases.answered) ||
                 run_delivered Cases.answered)) /\
    trace (world st') =
      (trace (world Cases.terminalPending) ++
       dispatch_prefix Cases.terminal
         (Cli.cliGroup "cli-1704103200" "2024-01-01T09:59:00.000Z") newest
         Cases.terminalPending ++ evs)%list.
Proof.
  apply (@terminal_lines_need_no_trigger Demo.env Cases.answered
           Cases.terminal "cli-1704103200" "2024-01-01T09:59:00.000Z"
           Cases.terminalPending).
  - vm_compute. reflexivity.
  - reflexivity.
  - vm_compute. discriminate.
Defined.

End AtWork.
